(** * ClaudeX streaming proxy: a shallow embedding of [server.js]

    The repository holds two near-identical entry points:
    - [src/claude-chat/server.js], the _redact_ variant ([enforceNoProviderLeak]);
    - [src/unnamed/part_000], the _rebrand_ variant ([isIdentityProbe],
      [enforceBranding]).

    Helpers that are textually identical in both files ([safeString],
    [normalizeMessages], [clampNumber], the read loop of
    [pipeAnthropicSSEToPlainText]) are embedded once; what differs lives in
    the modules [Redact] and [Rebrand].

    JavaScript strings are sequences of UTF-16 code units, modelled as
    [list Z]; bytes of the upstream body are [Z] values in [0, 255]. *)

From Stdlib Require Import ZArith List String Ascii Bool Lia QArith Qround Lqa.
Import ListNotations.
Local Open Scope Z_scope.

Set Implicit Arguments.
Set Warnings "-register-all,-abstract-large-number,-notation-for-abbreviation".


(* ================================================================== *)
(** * JavaScript strings *)
(* ================================================================== *)

Notation jsstring := (list Z) (only parsing).

(** A string literal of the source, as code units (ASCII only). *)
Definition js (s : string) : jsstring :=
  map (fun a => Z.of_N (N_of_ascii a)) (list_ascii_of_string s).

Definition LF : Z := 10.
Definition QUOTE : Z := 34.

(** Test inputs are written with ['] for the double quote and [\n] for a
    line feed, since neither can be typed inside a literal here. *)
Fixpoint unescape (s : jsstring) : jsstring :=
  match s with
  | [] => []
  | c :: tl =>
      match tl with
      | d :: tl' =>
          if (c =? 92) && (d =? 110) then LF :: unescape tl'
          else (if c =? 39 then QUOTE else c) :: unescape tl
      | [] => [if c =? 39 then QUOTE else c]
      end
  end.

Definition jsx (s : string) : jsstring := unescape (js s).

Fixpoint str_eqb (a b : jsstring) : bool :=
  match a, b with
  | [], [] => true
  | x :: a', y :: b' => (x =? y) && str_eqb a' b'
  | _, _ => false
  end.

(** [s.startsWith(p)] *)
Fixpoint startsWith (p s : jsstring) : bool :=
  match p, s with
  | [], _ => true
  | x :: p', y :: s' => (x =? y) && startsWith p' s'
  | _ :: _, [] => false
  end.

(** ECMAScript WhiteSpace and LineTerminator code units, as used by
    [String.prototype.trim] and by the [\s] class. *)
Definition is_js_space (c : Z) : bool :=
  ((9 <=? c) && (c <=? 13)) || (c =? 32) || (c =? 160) || (c =? 5760)
  || ((8192 <=? c) && (c <=? 8202)) || (c =? 8232) || (c =? 8233)
  || (c =? 8239) || (c =? 8287) || (c =? 12288) || (c =? 65279).

Fixpoint trimStart (s : jsstring) : jsstring :=
  match s with
  | c :: tl => if is_js_space c then trimStart tl else s
  | [] => []
  end.

Definition trimEnd (s : jsstring) : jsstring := rev (trimStart (rev s)).

(** [s.trim()] *)
Definition trim (s : jsstring) : jsstring := trimEnd (trimStart s).

(** [s.slice(n)] and [s.slice(0, n)] for [0 <= n]. *)
Definition slice_from (n : nat) (s : jsstring) : jsstring := skipn n s.
Definition slice_to (n : nat) (s : jsstring) : jsstring := firstn n s.

Definition add_to_head (c : Z) (pieces : list jsstring) : list jsstring :=
  match pieces with
  | p :: ps => (c :: p) :: ps
  | [] => [[c]]
  end.

(** [s.split(sep)] for a non-empty separator: occurrences are found left to
    right and do not overlap.  [skip] counts the code units of a separator
    occurrence still to be passed over. *)
Fixpoint split_from (sep : jsstring) (skip : nat) (s : jsstring)
  : list jsstring :=
  match s with
  | [] => [[]]
  | c :: s' =>
      match skip with
      | S k => split_from sep k s'
      | O =>
          if startsWith sep s
          then [] :: split_from sep (List.length sep - 1) s'
          else add_to_head c (split_from sep 0 s')
      end
  end.

Definition split (sep s : jsstring) : list jsstring := split_from sep 0 s.

(* ================================================================== *)
(** * [TextDecoder("utf-8")] in streaming mode

    The WHATWG Encoding Standard's UTF-8 decoder, one byte at a time.  A
    [decode(value, {stream: true})] call runs the handler over the bytes of
    [value] and keeps the decoder state for the next call; the end-of-queue
    step (which would flush a pending partial sequence as U+FFFD) is never
    run because the source never calls [decode] without [stream: true]. *)
(* ================================================================== *)

Record utf8_decoder := mkUtf8 {
  code_point : Z;
  bytes_seen : Z;
  bytes_needed : Z;
  lower_boundary : Z;
  upper_boundary : Z
}.

Definition utf8_initial : utf8_decoder := mkUtf8 0 0 0 128 191.

Definition in_range (lo hi b : Z) : bool := (lo <=? b) && (b <=? hi).

(** The handler when [bytes_needed] is 0.  Returns the new state and the
    scalar values emitted (U+FFFD, 65533, for an error). *)
Definition utf8_lead (b : Z) : utf8_decoder * list Z :=
  if in_range 0 127 b then (utf8_initial, [b])
  else if in_range 194 223 b then (mkUtf8 (Z.land b 31) 0 1 128 191, [])
  else if in_range 224 239 b then
    (mkUtf8 (Z.land b 15) 0 2
            (if b =? 224 then 160 else 128)
            (if b =? 237 then 159 else 191), [])
  else if in_range 240 244 b then
    (mkUtf8 (Z.land b 7) 0 3
            (if b =? 240 then 144 else 128)
            (if b =? 244 then 143 else 191), [])
  else (utf8_initial, [65533]).

Definition utf8_handler (d : utf8_decoder) (b : Z) : utf8_decoder * list Z :=
  if bytes_needed d =? 0 then utf8_lead b
  else if negb (in_range (lower_boundary d) (upper_boundary d) b) then
    (* error; the byte is restored to the queue and handled afresh *)
    let '(d', out) := utf8_lead b in (d', 65533 :: out)
  else
    let cp := Z.lor (Z.shiftl (code_point d) 6) (Z.land b 63) in
    if bytes_seen d + 1 =? bytes_needed d
    then (utf8_initial, [cp])
    else (mkUtf8 cp (bytes_seen d + 1) (bytes_needed d) 128 191, []).

(** A scalar value as UTF-16 code units. *)
Definition utf16_units (cp : Z) : jsstring :=
  if cp <? 65536 then [cp]
  else [55296 + Z.shiftr (cp - 65536) 10; 56320 + Z.land (cp - 65536) 1023].

Record TextDecoder := mkDecoder {
  decoder : utf8_decoder;
  BOM_seen : bool
}.

Definition new_TextDecoder : TextDecoder := mkDecoder utf8_initial false.

(** "Serialize I/O queue": the first scalar value of the stream is dropped
    when it is the byte order mark U+FEFF (65279). *)
Fixpoint serialize (bom : bool) (scalars : list Z) : bool * jsstring :=
  match scalars with
  | [] => (bom, [])
  | v :: tl =>
      if negb bom && (v =? 65279) then serialize true tl
      else let '(bom', out) := serialize true tl in (bom', utf16_units v ++ out)
  end.

Definition decode_byte (d : TextDecoder) (b : Z) : TextDecoder * jsstring :=
  let '(u, scalars) := utf8_handler (decoder d) b in
  let '(bom, out) := serialize (BOM_seen d) scalars in
  (mkDecoder u bom, out).

(** [decoder.decode(value, { stream: true })] *)
Fixpoint decode (d : TextDecoder) (value : list Z) : TextDecoder * jsstring :=
  match value with
  | [] => (d, [])
  | b :: tl =>
      let '(d1, o1) := decode_byte d b in
      let '(d2, o2) := decode d1 tl in
      (d2, o1 ++ o2)
  end.

(* ================================================================== *)
(** * The read loop of [pipeAnthropicSSEToPlainText] *)
(* ================================================================== *)

Section ReadLoop.

(** The body of [for (const frame of frames)]: the writes one frame
    causes, in order. *)
Variable process_frame : jsstring -> list jsstring.

Record loop_state := mkLoop {
  ls_decoder : TextDecoder;
  ls_buffer : jsstring
}.

Definition loop_initial : loop_state := mkLoop new_TextDecoder [].

(** One iteration of [while (true)] with [done] false. *)
Definition read_iteration (st : loop_state) (value : list Z)
  : loop_state * list jsstring :=
  let '(d, text) := decode (ls_decoder st) value in
  let buffer := ls_buffer st ++ text in
  let frames := split [LF; LF] buffer in
  (* buffer = frames.pop() || "" *)
  (mkLoop d (last frames []), flat_map process_frame (removelast frames)).

Fixpoint read_loop (st : loop_state) (chunks : list (list Z))
  : list jsstring :=
  match chunks with
  | [] => []                          (* done: the buffer is dropped *)
  | value :: more =>
      let '(st', writes) := read_iteration st value in
      writes ++ read_loop st' more
  end.

Definition pipe_with (chunks : list (list Z)) : list jsstring :=
  read_loop loop_initial chunks.

End ReadLoop.

(* ================================================================== *)
(** * JavaScript values and numbers *)
(* ================================================================== *)

(** A Number.  Every finite binary64 value is a rational, and the only
    arithmetic the source does on request numbers ([Math.min], [Math.max],
    [Math.floor]) is exact, so finite values are carried as [Q]; the sign
    of zero is not observable through those operations with the bounds
    used. *)
Inductive number :=
| NaN
| Infinity (negative : bool)
| Fin (q : Q).

(** A value as [JSON.parse] / [express.json()] builds it, plus [undefined]
    (the result of reading an absent property).  An object keeps its
    members in source order; a later duplicate key overrides. *)
Inductive jsval :=
| JUndefined
| JNull
| JBool (b : bool)
| JNum (n : number)
| JStr (s : jsstring)
| JArr (elements : list jsval)
| JObj (members : list (jsstring * jsval)).

Fixpoint own_property (k : jsstring) (members : list (jsstring * jsval))
  : option jsval :=
  match members with
  | [] => None
  | (k', v) :: tl =>
      match own_property k tl with
      | Some later => Some later
      | None => if str_eqb k k' then Some v else None
      end
  end.

(** [v?.k] for the property names the source reads ([messages], [role],
    [content], [type], [delta], [text], [model], ...): none of them is
    inherited from a prototype, so only plain objects can hold them. *)
Definition get (v : jsval) (k : string) : jsval :=
  match v with
  | JObj members =>
      match own_property (js k) members with
      | Some x => x
      | None => JUndefined
      end
  | _ => JUndefined
  end.

(** [!v] *)
Definition falsy (v : jsval) : bool :=
  match v with
  | JUndefined | JNull => true
  | JBool b => negb b
  | JNum NaN => true
  | JNum (Fin q) => Qeq_bool q 0
  | JNum (Infinity _) => false
  | JStr s => match s with [] => true | _ => false end
  | JArr _ | JObj _ => false
  end.

(** [v === "lit"] *)
Definition is_string (v : jsval) (lit : string) : bool :=
  match v with
  | JStr s => str_eqb s (js lit)
  | _ => false
  end.

(** Exceptions. *)
Inductive exn :=
| TypeError
| FetchFailed.

Inductive outcome (A : Type) :=
| Returns (a : A)
| Throws (e : exn).
Arguments Returns {A} a.
Arguments Throws {A} e.

Definition bind {A B} (x : outcome A) (f : A -> outcome B) : outcome B :=
  match x with
  | Returns a => f a
  | Throws e => Throws e
  end.

Notation "x <- c1 ;; c2" := (bind c1 (fun x => c2))
  (at level 61, c1 at next level, right associativity).

(** What the program takes from its runtime: [JSON.parse] ([None] for a
    SyntaxError), [Number::toString] (the radix-10 printing of a Number),
    and [process.env]. *)
Class Platform := {
  JSON_parse : jsstring -> option jsval;
  Number_toString : number -> jsstring;
  env : string -> option jsstring
}.

(** [Array.prototype.join] with the default separator, given the printing
    of one element. *)
Fixpoint join_elements (print : jsval -> outcome jsstring) (l : list jsval)
  : outcome jsstring :=
  match l with
  | [] => Returns []
  | e :: tl =>
      s <- print e ;;
      match tl with
      | [] => Returns s
      | _ => r <- join_elements print tl ;; Returns (s ++ js "," ++ r)
      end
  end.

Section Coercion.

Context `{Platform}.

(** [String(v)].  An array joins its elements with commas ([null] and
    [undefined] elements print as nothing).  A plain object prints as
    "[object Object]" through the inherited [toString]; when it has an own
    member named [toString], that member is a JSON value, hence not
    callable, the inherited [valueOf] returns the object itself, and the
    coercion throws a TypeError. *)
Fixpoint ToString (v : jsval) : outcome jsstring :=
  match v with
  | JUndefined => Returns (js "undefined")
  | JNull => Returns (js "null")
  | JBool b => Returns (if b then js "true" else js "false")
  | JNum n => Returns (Number_toString n)
  | JStr s => Returns s
  | JArr elements =>
      join_elements (fun e => match e with
                              | JUndefined | JNull => Returns []
                              | _ => ToString e
                              end) elements
  | JObj members =>
      match own_property (js "toString") members with
      | Some _ => Throws TypeError
      | None => Returns (js "[object Object]")
      end
  end.

(** [x ?? ""] *)
Definition or_empty (x : jsval) : jsval :=
  match x with
  | JUndefined | JNull => JStr []
  | _ => x
  end.

(** [function safeString(x, max = 8000)] *)
Definition safeString (x : jsval) (max : nat) : outcome jsstring :=
  s <- ToString (or_empty x) ;;
  Returns (if (max <? List.length s)%nat then slice_to max s else s).

Record content_block := mkBlock {
  block_type : jsstring;
  text : jsstring
}.

Record message := mkMessage {
  role : jsstring;
  content : list content_block
}.

(** The [for (const m of messages)] loop of [normalizeMessages], with
    [out] the array built so far. *)
Fixpoint normalize_loop (messages : list jsval) (out : list message)
  : outcome (list message) :=
  match messages with
  | [] => Returns out
  | m :: rest =>
      if falsy m
         || (negb (is_string (get m "role") "user")
             && negb (is_string (get m "role") "assistant"))
      then normalize_loop rest out
      else
        s <- safeString (get m "content") 12000 ;;
        let text := trim s in
        match text with
        | [] => normalize_loop rest out
        | _ =>
            let r := match get m "role" with JStr r => r | _ => [] end in
            normalize_loop rest
              (out ++ [mkMessage r [mkBlock (js "text") text]])
        end
  end.

(** [function normalizeMessages(messages)]; [None] is [null]. *)
Definition normalizeMessages (messages : jsval)
  : outcome (option (list message)) :=
  match messages with
  | JArr l =>
      out <- normalize_loop l [] ;;
      Returns (match out with [] => None | _ => Some out end)
  | _ => Returns None
  end.

End Coercion.

(** [Math.max], [Math.min], [Math.floor] *)
Definition Math_max (a b : number) : number :=
  match a, b with
  | NaN, _ | _, NaN => NaN
  | Infinity false, _ | _, Infinity false => Infinity false
  | Infinity true, x | x, Infinity true => x
  | Fin p, Fin q => if Qle_bool p q then Fin q else Fin p
  end.

Definition Math_min (a b : number) : number :=
  match a, b with
  | NaN, _ | _, NaN => NaN
  | Infinity true, _ | _, Infinity true => Infinity true
  | Infinity false, x | x, Infinity false => x
  | Fin p, Fin q => if Qle_bool p q then Fin p else Fin q
  end.

Definition Math_floor (a : number) : number :=
  match a with
  | Fin q => Fin (inject_Z (Qfloor q))
  | _ => a
  end.

(** [function clampNumber(n, min, max, fallback)] *)
Definition clampNumber (n : jsval) (min max fallback : number) : number :=
  match n with
  | JNum NaN => fallback
  | JNum x => Math_min max (Math_max min x)
  | _ => fallback
  end.

Definition DEFAULT_TEMPERATURE : number := Fin (3 # 10).
Definition DEFAULT_MAX_TOKENS : number := Fin 800.

(** [clampNumber(body.temperature, 0, 1, 0.3)] *)
Definition temperature_of (body : jsval) : number :=
  clampNumber (get body "temperature") (Fin 0) (Fin 1) DEFAULT_TEMPERATURE.

(** [Math.floor(clampNumber(body.max_tokens, 64, 1500, 800))] *)
Definition max_tokens_of (body : jsval) : number :=
  Math_floor
    (clampNumber (get body "max_tokens") (Fin 64) (Fin 1500) DEFAULT_MAX_TOKENS).

(* ================================================================== *)
(** * Regular expressions

    The fragment of ECMAScript patterns the source uses, with the
    backtracking semantics of the language specification: alternatives are
    tried left to right, [*] and [?] are greedy, an iteration that consumes
    nothing is rejected.  None of the patterns has the [u] flag, so a
    character is one code unit and [\w] is [[A-Za-z0-9_]]. *)
(* ================================================================== *)

Inductive class_item :=
| CChar (c : Z)
| CSpace            (* \s *)
| CDigit.           (* \d *)

Inductive regex :=
| REmpty
| RChar (c : Z)
| RClass (negated : bool) (items : list class_item)
| RSeq (r1 r2 : regex)
| RAlt (r1 r2 : regex)
| RStar (r : regex)
| ROpt (r : regex)
| RWordB                          (* \b *)
| RGroup (n : nat) (r : regex).   (* the n-th capturing group *)

(** A literal run of characters, e.g. [trained by]. *)
Definition RLit (s : string) : regex :=
  fold_right (fun c r => RSeq (RChar c) r) REmpty (js s).

Fixpoint RSeqs (rs : list regex) : regex :=
  match rs with
  | [] => REmpty
  | [r] => r
  | r :: tl => RSeq r (RSeqs tl)
  end.

Fixpoint RAlts (rs : list regex) : regex :=
  match rs with
  | [] => REmpty
  | [r] => r
  | r :: tl => RAlt r (RAlts tl)
  end.

(** Canonicalize under the [i] flag.  The specification upper-cases through
    Unicode but never lets a non-ASCII code unit canonicalize to an ASCII
    one; every character the source patterns name is ASCII or white space,
    so for them that is the same as upper-casing [a-z] only. *)
Definition canonicalize (ignoreCase : bool) (c : Z) : Z :=
  if ignoreCase && in_range 97 122 c then c - 32 else c.

Definition is_digit (c : Z) : bool := in_range 48 57 c.

Definition is_word_char (c : Z) : bool :=
  in_range 97 122 c || in_range 65 90 c || is_digit c || (c =? 95).

Definition class_item_matches (ignoreCase : bool) (ch : Z) (it : class_item)
  : bool :=
  match it with
  | CChar c => canonicalize ignoreCase c =? canonicalize ignoreCase ch
  | CSpace => is_js_space ch
  | CDigit => is_digit ch
  end.

(** The matcher state: the text before the current index (reversed), the
    text from it on, and the captures made so far. *)
Record mstate := mkM {
  before : jsstring;
  rest : jsstring;
  captures : list (nat * jsstring)
}.

Definition word_before (st : mstate) : bool :=
  match before st with c :: _ => is_word_char c | [] => false end.

Definition word_after (st : mstate) : bool :=
  match rest st with c :: _ => is_word_char c | [] => false end.

Definition advance (st : mstate) : mstate :=
  match rest st with
  | c :: tl => mkM (c :: before st) tl (captures st)
  | [] => st
  end.

(** The text consumed between two states of one match attempt. *)
Definition consumed_between (st st' : mstate) : jsstring :=
  rev (firstn (List.length (before st') - List.length (before st)) (before st')).

Definition progressed (st st' : mstate) : bool :=
  (List.length (rest st') <? List.length (rest st))%nat.

Section Matcher.

Variable ignoreCase : bool.

Fixpoint rmatch (r : regex) (st : mstate) (k : mstate -> option mstate)
  {struct r} : option mstate :=
  match r with
  | REmpty => k st
  | RChar c =>
      match rest st with
      | ch :: _ =>
          if canonicalize ignoreCase ch =? canonicalize ignoreCase c
          then k (advance st) else None
      | [] => None
      end
  | RClass negated items =>
      match rest st with
      | ch :: _ =>
          if xorb negated (existsb (class_item_matches ignoreCase ch) items)
          then k (advance st) else None
      | [] => None
      end
  | RSeq r1 r2 => rmatch r1 st (fun st' => rmatch r2 st' k)
  | RAlt r1 r2 =>
      match rmatch r1 st k with
      | Some e => Some e
      | None => rmatch r2 st k
      end
  | ROpt r1 =>
      match rmatch r1 st (fun st' => if progressed st st' then k st' else None) with
      | Some e => Some e
      | None => k st
      end
  | RStar r1 =>
      (fix iterate (fuel : nat) (st : mstate) : option mstate :=
         match fuel with
         | O => k st
         | S fuel' =>
             match rmatch r1 st
                     (fun st' => if progressed st st'
                                 then iterate fuel' st' else None) with
             | Some e => Some e
             | None => k st
             end
         end) (List.length (rest st)) st
  | RWordB => if xorb (word_before st) (word_after st) then k st else None
  | RGroup n r1 =>
      rmatch r1 st
        (fun st' =>
           k (mkM (before st') (rest st')
                  ((n, consumed_between st st') :: captures st')))
  end.

(** One match attempt at the current index. *)
Definition match_here (r : regex) (done todo : jsstring) : option mstate :=
  rmatch r (mkM done todo []) Some.

(** The leftmost match at or after the current index: the state where it
    starts and the state where it ends. *)
Fixpoint search (r : regex) (done todo : jsstring)
  : option (mstate * mstate) :=
  match match_here r done todo with
  | Some e => Some (mkM done todo [], e)
  | None =>
      match todo with
      | [] => None
      | c :: tl => search r (c :: done) tl
      end
  end.

(** [regex.test(s)] for a pattern without the [g] flag. *)
Definition test (r : regex) (s : jsstring) : bool :=
  match search r [] s with Some _ => true | None => false end.

Definition capture (n : nat) (e : mstate) : jsstring :=
  match find (fun p => Nat.eqb (fst p) n) (captures e) with
  | Some p => snd p
  | None => []
  end.

(** GetSubstitution: the expansion of a replacement string for one match
    of a pattern with [ncaps] capturing groups ([$$], [$&], [$`], [$'],
    [$n] and [$nn]; the patterns have no named groups). *)
Fixpoint substitution (ncaps : nat) (st e : mstate) (template : jsstring)
  : jsstring :=
  let digit (c : Z) := Z.to_nat (c - 48) in
  match template with
  | [] => []
  | c :: tl =>
      if negb (c =? 36) then c :: substitution ncaps st e tl
      else
        match tl with
        | d :: tl1 =>
            if d =? 36 then 36 :: substitution ncaps st e tl1
            else if d =? 38 then consumed_between st e ++ substitution ncaps st e tl1
            else if d =? 96 then rev (before st) ++ substitution ncaps st e tl1
            else if d =? 39 then rest e ++ substitution ncaps st e tl1
            else if is_digit d then
              let one := digit d in
              match tl1 with
              | d2 :: tl2 =>
                  let two := (10 * one + digit d2)%nat in
                  if is_digit d2 && (1 <=? two)%nat && (two <=? ncaps)%nat
                  then capture two e ++ substitution ncaps st e tl2
                  else if (1 <=? one)%nat && (one <=? ncaps)%nat
                  then capture one e ++ substitution ncaps st e tl1
                  else c :: substitution ncaps st e tl
              | [] =>
                  if (1 <=? one)%nat && (one <=? ncaps)%nat
                  then capture one e
                  else c :: substitution ncaps st e tl
              end
            else c :: substitution ncaps st e tl
        | [] => [c]
        end
  end.

(** [s.replace(regex, template)] for a pattern with the [g] flag: every
    leftmost, non-overlapping match is replaced; after an empty match the
    search moves on by one code unit. *)
Fixpoint replace_from (fuel : nat) (r : regex) (ncaps : nat)
         (template : jsstring) (done todo : jsstring) : jsstring :=
  match fuel with
  | O => todo
  | S fuel' =>
      let step :=
        match todo with
        | [] => []
        | c :: tl => c :: replace_from fuel' r ncaps template (c :: done) tl
        end in
      match match_here r done todo with
      | Some e =>
          let st := mkM done todo [] in
          substitution ncaps st e template ++
          (if progressed st e
           then replace_from fuel' r ncaps template (before e) (rest e)
           else step)
      | None => step
      end
  end.

Definition replace (r : regex) (ncaps : nat) (template s : jsstring)
  : jsstring :=
  replace_from (S (List.length s)) r ncaps template [] s.

End Matcher.

(* ================================================================== *)
(** * A reference [JSON.parse]

    The pipeline is stated over the [JSON_parse] of an arbitrary
    [Platform]; this parser of the JSON grammar is the one of the reference
    platform, used in concrete runs.  Number literals are read exactly
    (rounding to binary64 is not modelled; the pipeline never inspects a
    parsed number). *)
(* ================================================================== *)

Module JSON.

Definition is_ws (c : Z) : bool :=
  (c =? 32) || (c =? 9) || (c =? 10) || (c =? 13).

Fixpoint skip_ws (s : jsstring) : jsstring :=
  match s with
  | c :: tl => if is_ws c then skip_ws tl else s
  | [] => []
  end.

Definition hex_digit (c : Z) : option Z :=
  if in_range 48 57 c then Some (c - 48)
  else if in_range 97 102 c then Some (c - 87)
  else if in_range 65 70 c then Some (c - 55)
  else None.

Definition simple_escape (c : Z) : option Z :=
  if c =? 34 then Some 34          (* quote *)
  else if c =? 92 then Some 92     (* backslash *)
  else if c =? 47 then Some 47     (* slash *)
  else if c =? 98 then Some 8      (* \b *)
  else if c =? 102 then Some 12    (* \f *)
  else if c =? 110 then Some 10    (* \n *)
  else if c =? 114 then Some 13    (* \r *)
  else if c =? 116 then Some 9     (* \t *)
  else None.

(** The characters of a string literal after its opening quote. *)
Fixpoint string_body (s : jsstring) (acc : jsstring)
  : option (jsstring * jsstring) :=
  match s with
  | [] => None
  | c :: tl =>
      if c =? 34 then Some (rev acc, tl)
      else if c <? 32 then None
      else if c =? 92 then
        match tl with
        | [] => None
        | e :: tl1 =>
            if e =? 117 then
              match tl1 with
              | h1 :: h2 :: h3 :: h4 :: tl2 =>
                  match hex_digit h1, hex_digit h2, hex_digit h3, hex_digit h4 with
                  | Some a, Some b, Some c', Some d =>
                      string_body tl2 (((a * 16 + b) * 16 + c') * 16 + d :: acc)
                  | _, _, _, _ => None
                  end
              | _ => None
              end
            else
              match simple_escape e with
              | Some x => string_body tl1 (x :: acc)
              | None => None
              end
        end
      else string_body tl (c :: acc)
  end.

Fixpoint take_digits (s : jsstring) : jsstring * jsstring :=
  match s with
  | c :: tl =>
      if is_digit c
      then let '(ds, r) := take_digits tl in (c :: ds, r)
      else ([], s)
  | [] => ([], [])
  end.

Definition digits_value (ds : jsstring) : Z :=
  fold_left (fun acc d => acc * 10 + (d - 48)) ds 0.

Definition decimal (mantissa exponent : Z) : number :=
  if 0 <=? exponent then Fin (inject_Z (mantissa * 10 ^ exponent))
  else Fin (Qmake mantissa (Z.to_pos (10 ^ (- exponent)))).

(** [-? int frac? exp?] *)
Definition number_literal (s : jsstring) : option (jsval * jsstring) :=
  let '(neg, s0) :=
    match s with
    | c :: tl => if c =? 45 then (true, tl) else (false, s)
    | [] => (false, s)
    end in
  let '(int, s1) := take_digits s0 in
  match int with
  | [] => None
  | d :: more =>
      if (d =? 48) && negb (match more with [] => true | _ => false end)
      then None
      else
        let frac_part :=
          match s1 with
          | c :: tl =>
              if c =? 46 then
                let '(fr, s2) := take_digits tl in
                match fr with [] => None | _ => Some (fr, s2) end
              else Some ([], s1)
          | [] => Some ([], s1)
          end in
        match frac_part with
        | None => None
        | Some (fr, s2) =>
            let exp_part :=
              match s2 with
              | c :: tl =>
                  if (c =? 101) || (c =? 69) then
                    let '(eneg, s3) :=
                      match tl with
                      | g :: tl' =>
                          if g =? 45 then (true, tl')
                          else if g =? 43 then (false, tl')
                          else (false, tl)
                      | [] => (false, tl)
                      end in
                    let '(ex, s4) := take_digits s3 in
                    match ex with
                    | [] => None
                    | _ => Some ((if eneg then -1 else 1) * digits_value ex, s4)
                    end
                  else Some (0, s2)
              | [] => Some (0, s2)
              end in
            match exp_part with
            | None => None
            | Some (e, s4) =>
                let m := digits_value (int ++ fr) in
                Some (JNum (decimal (if neg then - m else m)
                                    (e - Z.of_nat (List.length fr))), s4)
            end
        end
  end.

Fixpoint value (fuel : nat) (s : jsstring) : option (jsval * jsstring) :=
  match fuel with
  | O => None
  | S f =>
      match skip_ws s with
      | [] => None
      | c :: tl =>
          if c =? 123 then                       (* { *)
            match skip_ws tl with
            | d :: tl' =>
                if d =? 125 then Some (JObj [], tl')
                else
                  match members f (skip_ws tl) [] with
                  | Some (ms, r) => Some (JObj ms, r)
                  | None => None
                  end
            | [] => None
            end
          else if c =? 91 then                   (* [ *)
            match skip_ws tl with
            | d :: tl' =>
                if d =? 93 then Some (JArr [], tl')
                else
                  match elements f tl [] with
                  | Some (vs, r) => Some (JArr vs, r)
                  | None => None
                  end
            | [] => None
            end
          else if c =? 34 then
            match string_body tl [] with
            | Some (str, r) => Some (JStr str, r)
            | None => None
            end
          else if startsWith (js "true") (c :: tl)
          then Some (JBool true, skipn 4 (c :: tl))
          else if startsWith (js "false") (c :: tl)
          then Some (JBool false, skipn 5 (c :: tl))
          else if startsWith (js "null") (c :: tl)
          then Some (JNull, skipn 4 (c :: tl))
          else number_literal (c :: tl)
      end
  end
with elements (fuel : nat) (s : jsstring) (acc : list jsval)
  : option (list jsval * jsstring) :=
  match fuel with
  | O => None
  | S f =>
      match value f s with
      | Some (v, s1) =>
          match skip_ws s1 with
          | c :: tl =>
              if c =? 44 then elements f tl (v :: acc)
              else if c =? 93 then Some (rev (v :: acc), tl)
              else None
          | [] => None
          end
      | None => None
      end
  end
with members (fuel : nat) (s : jsstring) (acc : list (jsstring * jsval))
  : option (list (jsstring * jsval) * jsstring) :=
  match fuel with
  | O => None
  | S f =>
      match skip_ws s with
      | q :: tl =>
          if q =? 34 then
            match string_body tl [] with
            | Some (key, s1) =>
                match skip_ws s1 with
                | c :: s2 =>
                    if c =? 58 then
                      match value f s2 with
                      | Some (v, s3) =>
                          match skip_ws s3 with
                          | d :: tl' =>
                              if d =? 44 then members f tl' ((key, v) :: acc)
                              else if d =? 125
                              then Some (rev ((key, v) :: acc), tl')
                              else None
                          | [] => None
                          end
                      | None => None
                      end
                    else None
                | [] => None
                end
            | None => None
            end
          else None
      | [] => None
      end
  end.

(** [JSON.parse(text)]; [None] stands for the SyntaxError it throws.
    Every recursive call but one in two consumes input, so the fuel
    never runs out. *)
Definition parse (text : jsstring) : option jsval :=
  match value (2 * List.length text + 2) text with
  | Some (v, r) => match skip_ws r with [] => Some v | _ => None end
  | None => None
  end.

End JSON.

(* ================================================================== *)
(** * Platform and configuration *)
(* ================================================================== *)

(** [process.env.NAME || fallback] *)
Definition env_or `{Platform} (name : string) (fallback : jsstring) : jsstring :=
  match env name with
  | Some (c :: s) => c :: s
  | _ => fallback
  end.

Definition DEFAULT_MODEL `{Platform} : jsstring :=
  env_or "MODEL" (js "claude-haiku-4-5").

Definition ALLOWED_MODELS : list jsstring :=
  [js "claude-haiku-4-5"; js "claude-sonnet-4-5"; js "claude-opus-4-5"].

(** [ALLOWED_MODELS.has(v)] *)
Definition ALLOWED_MODELS_has (v : jsval) : bool :=
  match v with
  | JStr s => existsb (str_eqb s) ALLOWED_MODELS
  | _ => false
  end.

(* ================================================================== *)
(** * Frames and data lines (common to both variants) *)
(* ================================================================== *)

Definition ERROR_SENTINEL : jsstring :=
  [LF; LF] ++ js "[error] Something went wrong.".

Section DataLine.

Context `{Platform}.

(** The rewriter applied to each delta: [enforceNoProviderLeak] or
    [enforceBranding]. *)
Variable rewrite : jsstring -> jsstring.

(** The two [if (payload?.type === ...)] statements. *)
Definition handle_payload (payload : jsval) : list jsstring :=
  (if is_string (get payload "type") "content_block_delta"
   then
     match get (get payload "delta") "text" with
     | JStr (c :: s) => [rewrite (c :: s)]
     | _ => []
     end
   else [])
  ++
  (if is_string (get payload "type") "error"
   then [ERROR_SENTINEL]
   else []).

(** From [const jsonStr = dataLine.slice("data: ".length).trim()] to the
    end of the loop body. *)
Definition handle_data_line (dataLine : jsstring) : list jsstring :=
  let jsonStr := trim (slice_from (List.length (js "data: ")) dataLine) in
  match jsonStr with
  | [] => []
  | _ =>
      if str_eqb jsonStr (js "[DONE]") then []
      else
        match JSON_parse jsonStr with
        | None => []                      (* catch { continue; } *)
        | Some payload => handle_payload payload
        end
  end.

Definition is_data_line (line : jsstring) : bool :=
  startsWith (js "data: ") line.

End DataLine.

(* ================================================================== *)
(** * The HTTP response and the handler's effects *)
(* ================================================================== *)

(** What reaches the client, in order. *)
Inductive wire_event :=
| WHead (status : Z) (headers : list (string * jsstring))
| WBody (chunk : jsstring)
| WJson (v : jsval)                 (* the serialization of [v] *)
| WEnd.

(** The [res] object of Node's [http.ServerResponse] under Express:
    [statusCode] and the header table can be changed freely until the
    head is sent; afterwards [statusCode] is still assignable but no
    longer reaches the client. *)
Record response := mkRes {
  statusCode : Z;
  headers : list (string * jsstring);
  headersSent : bool;
  wire : list wire_event
}.

Record upstream_request := mkReq {
  x_request_id : jsstring;
  req_model : jsstring;
  req_system : jsstring;
  req_messages : list message;
  req_max_tokens : number;
  req_temperature : number;
  req_stream : bool
}.

(** The upstream body as the reader delivers it: the chunks, then either
    [done] or a rejected [read()]. *)
Record body_stream := mkBody {
  chunks : list (list Z);
  read_fails : bool
}.

(** The response [fetch] resolves to; [up_text] is what [upstream.text()]
    resolves to ([None] when it rejects). *)
Record upstream_response := mkUp {
  up_status : Z;
  up_body : option body_stream;
  up_text : option jsstring
}.

(** [upstream.ok] *)
Definition up_ok (u : upstream_response) : bool := in_range 200 299 (up_status u).

Inductive log_entry :=
| LogUpstream (rid : jsstring) (upstream_status : Z) (upstream_error : jsstring)
| LogError (rid : jsstring) (e : exn).

Record world := mkWorld {
  res : response;
  console : list log_entry;            (* console.error lines *)
  fetched : list upstream_request      (* calls made to the upstream API *)
}.

Definition M (A : Type) : Type := world -> outcome A * world.

Definition ret {A} (a : A) : M A := fun w => (Returns a, w).
Definition throw {A} (e : exn) : M A := fun w => (Throws e, w).
Definition lift {A} (x : outcome A) : M A := fun w => (x, w).

Definition mbind {A B} (m : M A) (f : A -> M B) : M B :=
  fun w =>
    match m w with
    | (Returns a, w') => f a w'
    | (Throws e, w') => (Throws e, w')
    end.

(** [try { body } catch (e) { handler }] *)
Definition try_catch {A} (body : M A) (handler : exn -> M A) : M A :=
  fun w =>
    match body w with
    | (Throws e, w') => handler e w'
    | r => r
    end.

Declare Scope m_scope.
Delimit Scope m_scope with M.
Notation "x <-- c1 ;; c2" := (mbind c1 (fun x => c2))
  (at level 61, c1 at next level, right associativity) : m_scope.
Notation "c1 ;;; c2" := (mbind c1 (fun _ => c2))
  (at level 61, right associativity) : m_scope.

Definition with_res (f : response -> response) : M unit :=
  fun w => (Returns tt, mkWorld (f (res w)) (console w) (fetched w)).

Definition set_header (k : string) (v : jsstring)
           (hs : list (string * jsstring)) : list (string * jsstring) :=
  filter (fun p => negb (String.eqb (fst p) k)) hs ++ [(k, v)].

(** Sends the status line and headers if that has not happened yet. *)
Definition send_head (r : response) : response :=
  if headersSent r then r
  else mkRes (statusCode r) (headers r) true
             (wire r ++ [WHead (statusCode r) (headers r)]).

Definition emit (ev : list wire_event) (r : response) : response :=
  let r' := send_head r in
  mkRes (statusCode r') (headers r') true (wire r' ++ ev).

(** [res.status(code)] *)
Definition status (code : Z) : M unit :=
  with_res (fun r => mkRes code (headers r) (headersSent r) (wire r)).

(** [res.setHeader(name, value)] (called only before the head is sent) *)
Definition setHeader (k : string) (v : jsstring) : M unit :=
  with_res (fun r => mkRes (statusCode r) (set_header k v (headers r))
                           (headersSent r) (wire r)).

(** [res.flushHeaders?.()]; the method exists on every Node response. *)
Definition flushHeaders : M unit := with_res send_head.

(** [res.write(chunk)] *)
Definition write (chunk : jsstring) : M unit := with_res (emit [WBody chunk]).

(** [res.end(data)] and [res.end()] *)
Definition end_with (data : jsstring) : M unit := with_res (emit [WBody data; WEnd]).
Definition end_ : M unit := with_res (emit [WEnd]).

Definition has_header (k : string) (hs : list (string * jsstring)) : bool :=
  existsb (fun p => String.eqb (fst p) k) hs.

(** [res.json(v)]: the content type is set unless one is set already, and
    the serialization of [v] is sent as the whole body.  (Express also adds
    [Content-Length] and [ETag]; only the headers the handler names itself
    are tracked.) *)
Definition json (v : jsval) : M unit :=
  with_res (fun r =>
    emit [WJson v; WEnd]
         (mkRes (statusCode r)
                (if has_header "Content-Type" (headers r) then headers r
                 else set_header "Content-Type"
                                 (js "application/json; charset=utf-8") (headers r))
                (headersSent r) (wire r))).

Definition console_error (l : log_entry) : M unit :=
  fun w => (Returns tt, mkWorld (res w) (console w ++ [l]) (fetched w)).

Definition get_headersSent : M bool := fun w => (Returns (headersSent (res w)), w).

(** [await fetch(url, {...})]: the call is recorded; [reply] is what the
    upstream does with it ([None]: the promise rejects). *)
Definition fetch (reply : option upstream_response) (rq : upstream_request)
  : M upstream_response :=
  fun w =>
    let w' := mkWorld (res w) (console w) (fetched w ++ [rq]) in
    match reply with
    | Some u => (Returns u, w')
    | None => (Throws FetchFailed, w')
    end.

Fixpoint write_all (l : list jsstring) : M unit :=
  match l with
  | [] => ret tt
  | x :: tl => (write x ;;; write_all tl)%M
  end.

(** The three [setHeader] calls and [flushHeaders] that open the plain-text
    stream. *)
Definition open_stream : M unit :=
  (setHeader "Content-Type" (js "text/plain; charset=utf-8") ;;;
   setHeader "Cache-Control" (js "no-cache, no-transform") ;;;
   setHeader "X-Accel-Buffering" (js "no") ;;;
   flushHeaders)%M.

Definition STREAM_HEADERS : list (string * jsstring) :=
  [("Content-Type"%string, js "text/plain; charset=utf-8");
   ("Cache-Control"%string, js "no-cache, no-transform");
   ("X-Accel-Buffering"%string, js "no")].

(** The response as the route handler receives it: status 200, nothing
    sent.  (The headers set by the middleware, such as [x-request-id], are
    left out.) *)
Definition fresh_response : response := mkRes 200 [] false [].
Definition fresh_world : world := mkWorld fresh_response [] [].

(** [req.body ?? {}] *)
Definition body_or_empty (b : jsval) : jsval :=
  match b with
  | JUndefined | JNull => JObj []
  | _ => b
  end.

Section Handler.

Context `{Platform}.

(** [await pipeAnthropicSSEToPlainText(upstream.body, res)], given the
    variant's frame handler. *)
Definition pipe_to_response (process_frame : jsstring -> list jsstring)
           (b : body_stream) : M unit :=
  (write_all (pipe_with process_frame (chunks b)) ;;;
   if read_fails b then throw FetchFailed else ret tt)%M.

(** The handler from the [fetch] call to the end of the [try] block. *)
Definition call_upstream (process_frame : jsstring -> list jsstring)
           (reply : option upstream_response) (rid : jsstring)
           (rq : upstream_request) : M unit :=
  (upstream <-- fetch reply rq ;;
   match up_ok upstream, up_body upstream with
   | true, Some b =>
       pipe_to_response process_frame b ;;;
       end_
   | _, _ =>
       let errText := match up_text upstream with Some t => t | None => [] end in
       console_error (LogUpstream rid (up_status upstream) (slice_to 5000 errText)) ;;;
       status 502 ;;;
       end_with (js "Upstream error")
   end)%M.

(** The [catch (e)] block. *)
Definition on_exception (rid : jsstring) (e : exn) : M unit :=
  (console_error (LogError rid e) ;;;
   sent <-- get_headersSent ;;
   (if sent then ret tt else status 500) ;;;
   end_with (js "Server error"))%M.

End Handler.

(* ================================================================== *)
(** * [src/claude-chat/server.js]: the redact variant *)
(* ================================================================== *)

Module Redact.

Definition PLACEHOLDER : jsstring := js "this assistant".

(** The pattern [/\b( Claude|Anthropic|OpenAI|ChatGPT|GPT[-\s]?\d* )\b/gi]
    (blanks added inside the group for reading). *)
Definition VENDOR : regex :=
  RSeqs [RWordB;
         RGroup 1 (RAlts [RLit "Claude"; RLit "Anthropic"; RLit "OpenAI";
                          RLit "ChatGPT";
                          RSeqs [RLit "GPT";
                                 ROpt (RClass false [CChar 45; CSpace]);
                                 RStar (RClass false [CDigit])]]);
         RWordB].

(** The pattern
    "/\b(trained by|developed by|powered by|built by|created by)\b[^.\n]*[.\n]?/gi". *)
Definition ATTRIBUTION : regex :=
  RSeqs [RWordB;
         RGroup 1 (RAlts [RLit "trained by"; RLit "developed by";
                          RLit "powered by"; RLit "built by";
                          RLit "created by"]);
         RWordB;
         RStar (RClass true [CChar 46; CChar LF]);
         ROpt (RClass false [CChar 46; CChar LF])].

(** [function enforceNoProviderLeak(text)].  The guard
    [!text || typeof text !== "string"] returns the empty string as it
    is; the argument is a string at the only call site. *)
Definition enforceNoProviderLeak (text : jsstring) : jsstring :=
  match text with
  | [] => text
  | _ =>
      let out := text in
      let out := replace true VENDOR 1 PLACEHOLDER out in
      let out := replace true ATTRIBUTION 1 [] out in
      out
  end.

Section Server.

Context `{Platform}.

(** The body of [for (const frame of frames)]: only the first line that
    starts with "data: " is looked at ([Array.prototype.find]). *)
Definition process_frame (frame : jsstring) : list jsstring :=
  match find is_data_line (split [LF] frame) with
  | None => []                                           (* !dataLine *)
  | Some dataLine => handle_data_line enforceNoProviderLeak dataLine
  end.

(** [async function pipeAnthropicSSEToPlainText(upstreamBody, res)]:
    the [res.write] calls it makes for a body delivered as [chunks]. *)
Definition pipeAnthropicSSEToPlainText (chunks : list (list Z))
  : list jsstring :=
  pipe_with process_frame chunks.

Definition DEFAULT_SYSTEM : jsstring :=
  js "You are a helpful assistant. Do not mention any underlying model provider. If asked what you are, say you are a custom AI assistant.".

(** [app.post("/api/chat/stream", async (req, res) => {...})], with
    [rid = req.requestId], [req_body = req.body], and [reply] the
    behaviour of the upstream API.  (The abort controller is not
    modelled.) *)
Definition chat_stream (rid : jsstring) (req_body : jsval)
           (reply : option upstream_response) : M unit :=
  try_catch
    (let body := body_or_empty req_body in
     normalized <-- lift (normalizeMessages (get body "messages")) ;;
     match normalized with
     | None =>
         status 400 ;;;
         json (JObj [(js "error", JStr (js "Invalid messages format"))])
     | Some normalized =>
         let requestedModel :=
           match get body "model" with
           | JStr m => if ALLOWED_MODELS_has (JStr m) then m else DEFAULT_MODEL
           | _ => DEFAULT_MODEL
           end in
         s <-- lift (safeString (get body "system") 4000) ;;
         let system := match s with [] => DEFAULT_SYSTEM | _ => s end in
         let temperature := temperature_of body in
         let max_tokens := max_tokens_of body in
         open_stream ;;;
         call_upstream process_frame reply rid
           (mkReq rid requestedModel system normalized max_tokens
                  temperature true)
     end)%M
    (on_exception rid).

End Server.

End Redact.

(* ================================================================== *)
(** * [src/unnamed/part_000]: the rebrand variant *)
(* ================================================================== *)

Module Rebrand.

Section Server.

Context `{Platform}.

Definition BRAND_MODEL : jsstring := env_or "BRAND_MODEL" (js "ClaudeX").
Definition BRAND_MAKER : jsstring := env_or "BRAND_MAKER" (js "M Alkindi").

(** The pattern
    "/\b(who (are|made|built) you|what (model|llm) are you|which model|are you (claude|chatgpt|gpt)|anthropic|openai|claude|chatgpt|gpt)\b/i". *)
Definition PROBE : regex :=
  RSeqs [RWordB;
         RGroup 1 (RAlts [
           RSeqs [RLit "who ";
                  RGroup 2 (RAlts [RLit "are"; RLit "made"; RLit "built"]);
                  RLit " you"];
           RSeqs [RLit "what ";
                  RGroup 3 (RAlts [RLit "model"; RLit "llm"]);
                  RLit " are you"];
           RLit "which model";
           RSeqs [RLit "are you ";
                  RGroup 4 (RAlts [RLit "claude"; RLit "chatgpt"; RLit "gpt"])];
           RLit "anthropic"; RLit "openai"; RLit "claude"; RLit "chatgpt";
           RLit "gpt"]);
         RWordB].

(** [normalizedMessages?.at(-1)?.content?.[0]?.text ?? ""] *)
Definition last_text (normalizedMessages : list message) : jsstring :=
  match rev normalizedMessages with
  | m :: _ =>
      match content m with
      | b :: _ => text b
      | [] => []
      end
  | [] => []
  end.

(** [function isIdentityProbe(normalizedMessages)] *)
Definition isIdentityProbe (normalizedMessages : list message) : bool :=
  test true PROBE (last_text normalizedMessages).

(** The pattern [/\b( Claude|Anthropic|OpenAI|ChatGPT|GPT[-\s]?\d* )\b/gi]
  (blanks added inside the group for reading). *)
Definition VENDOR : regex := Redact.VENDOR.

(** The pattern
    "/\b(trained by|developed by|powered by|built by|created by|made by)\b[^.\n]*[.\n]?/gi". *)
Definition ATTRIBUTION : regex :=
  RSeqs [RWordB;
         RGroup 1 (RAlts [RLit "trained by"; RLit "developed by";
                          RLit "powered by"; RLit "built by";
                          RLit "created by"; RLit "made by"]);
         RWordB;
         RStar (RClass true [CChar 46; CChar LF]);
         ROpt (RClass false [CChar 46; CChar LF])].

(** The pattern "/\bAI safety company\b/gi". *)
Definition SAFETY_COMPANY : regex :=
  RSeqs [RWordB; RLit "AI safety company"; RWordB].

(** [function enforceBranding(text)] *)
Definition enforceBranding (text : jsstring) : jsstring :=
  match text with
  | [] => text
  | _ =>
      let out := text in
      let out := replace true VENDOR 1 BRAND_MODEL out in
      let out := replace true ATTRIBUTION 1
                         (js "made by " ++ BRAND_MAKER ++ js ". ") out in
      let out := replace true SAFETY_COMPANY 0 (js "team") out in
      out
  end.

(** The body of [for (const frame of frames)]: every line that starts
    with "data: " is handled ([Array.prototype.filter]). *)
Definition process_frame (frame : jsstring) : list jsstring :=
  let dataLines := filter is_data_line (split [LF] frame) in
  flat_map (handle_data_line enforceBranding) dataLines.

(** [async function pipeAnthropicSSEToPlainText(upstreamBody, res)] *)
Definition pipeAnthropicSSEToPlainText (chunks : list (list Z))
  : list jsstring :=
  pipe_with process_frame chunks.

(** [`I am ${BRAND_MODEL}, made by ${BRAND_MAKER}.`] *)
Definition BRANDED_REPLY : jsstring :=
  js "I am " ++ BRAND_MODEL ++ js ", made by " ++ BRAND_MAKER ++ js ".".

Definition DEFAULT_SYSTEM : jsstring :=
  js "You are " ++ BRAND_MODEL ++ js ", made by " ++ BRAND_MAKER ++ js "."
  ++ [LF] ++ js "Do not mention any underlying model provider."
  ++ [LF] ++ js "If asked what you are, reply exactly: " ++ [QUOTE]
  ++ BRANDED_REPLY ++ [QUOTE].

(** [app.post("/api/chat/stream", async (req, res) => {...})] *)
Definition chat_stream (rid : jsstring) (req_body : jsval)
           (reply : option upstream_response) : M unit :=
  try_catch
    (let body := body_or_empty req_body in
     normalized <-- lift (normalizeMessages (get body "messages")) ;;
     match normalized with
     | None =>
         status 400 ;;;
         json (JObj [(js "error", JStr (js "Invalid messages format"))])
     | Some normalized =>
         if isIdentityProbe normalized then
           open_stream ;;;
           end_with BRANDED_REPLY
         else
           let requestedModel :=
             match get body "model" with
             | JStr m => if ALLOWED_MODELS_has (JStr m) then m else DEFAULT_MODEL
             | _ => DEFAULT_MODEL
             end in
           s <-- lift (safeString (get body "system") 4000) ;;
           let system := match s with [] => DEFAULT_SYSTEM | _ => s end in
           let temperature := temperature_of body in
           let max_tokens := max_tokens_of body in
           open_stream ;;;
           call_upstream process_frame reply rid
             (mkReq rid requestedModel system normalized max_tokens
                    temperature true)
     end)%M
    (on_exception rid).

End Server.

End Rebrand.

(* ================================================================== *)
(** * A reference platform, for concrete runs *)
(* ================================================================== *)

Fixpoint digits_of (fuel : nat) (n : Z) (acc : jsstring) : jsstring :=
  match fuel with
  | O => acc
  | S f => if n <? 10 then (48 + n) :: acc
           else digits_of f (n / 10) ((48 + n mod 10) :: acc)
  end.

(** Prints integers as [Number::toString] does below 10^21; other finite
    values print their integer part, which no run below relies on. *)
Definition print_number (n : number) : jsstring :=
  match n with
  | NaN => js "NaN"
  | Infinity false => js "Infinity"
  | Infinity true => js "-Infinity"
  | Fin q =>
      let z := Qfloor q in
      if z <? 0 then 45 :: digits_of 400 (- z) [] else digits_of 400 z []
  end.

#[local] Instance reference_platform : Platform := {|
  JSON_parse := JSON.parse;
  Number_toString := print_number;
  env := fun _ => None
|}.

(* ================================================================== *)
(** * Reference definitions and sample inputs used by the statements *)
(* ================================================================== *)

(** All the complete frames of a text, in order. *)
Definition complete_frames (text : jsstring) : list jsstring :=
  removelast (split [LF; LF] text).

(** A body of two frames whose first delta holds a euro sign (three bytes
    in UTF-8: 226, 130, 172). *)
Definition sample_part1 : list Z :=
  jsx "event: content_block_delta\ndata: {'type':'content_block_delta','delta':{'text':'".
Definition sample_part2 : list Z :=
  jsx " Hi'}}\n\ndata: {'type':'error'}\n\n".
Definition sample_body : list Z :=
  sample_part1 ++ [226; 130; 172] ++ sample_part2.

(** The same bytes cut inside the euro sign, inside a line and inside the
    frame delimiter. *)
Definition sample_chunking : list (list Z) :=
  [ firstn 20 sample_part1;
    skipn 20 sample_part1 ++ [226];
    [130];
    [172] ++ firstn 7 sample_part2;
    skipn 7 sample_part2 ].

Definition sample_delta : jsval :=
  JObj [(js "type", JStr (js "content_block_delta"));
        (js "index", JNum (Fin 0));
        (js "delta", JObj [(js "type", JStr (js "text_delta"));
                           (js "text", JStr (js "Hi"))])].

(** The request body [{ k: v }]. *)
Definition body_with (k : string) (v : jsval) : jsval := JObj [(js k, v)].

(** [{ error: "Invalid messages format" }] *)
Definition INVALID_MESSAGES : jsval :=
  JObj [(js "error", JStr (js "Invalid messages format"))].

Definition JSON_HEADERS : list (string * list Z) :=
  [("Content-Type"%string, js "application/json; charset=utf-8")].

(** The world after the handler has answered 400. *)
Definition answered_400 : world :=
  mkWorld (mkRes 400 JSON_HEADERS true
                 [WHead 400 JSON_HEADERS; WJson INVALID_MESSAGES; WEnd])
          [] [].

(** A conversation of three messages whose last one asks for the model,
    in mixed case. *)
Definition probe_body : jsval :=
  JObj [(js "messages",
         JArr [JObj [(js "role", JStr (js "user"));
                     (js "content", JStr (js "Hi there"))];
               JObj [(js "role", JStr (js "assistant"));
                     (js "content", JStr (js "Hello! How can I help?"))];
               JObj [(js "role", JStr (js "user"));
                     (js "content", JStr (js "Tell me: What MODEL are you?"))]])].

(** What is known of a kept message [m]: it comes from an element [x] of
    the input whose [role] is "user" or "assistant", and its text is the
    coerced, capped and trimmed [content] of [x], which is not empty. *)
Definition kept_from `{Platform} (input : list jsval) (m : message) : Prop :=
  exists x s,
    In x input
    /\ get x "role" = JStr (role m)
    /\ (role m = js "user" \/ role m = js "assistant")
    /\ safeString (get x "content") 12000 = Returns s
    /\ content m = [mkBlock (js "text") (trim s)]
    /\ trim s <> [].

(** A value whose string coercion cannot fail: no object with a member
    named [toString] is reached through arrays. *)
Fixpoint printable (v : jsval) : bool :=
  match v with
  | JArr elements => forallb printable elements
  | JObj members =>
      match own_property (js "toString") members with
      | Some _ => false
      | None => true
      end
  | _ => true
  end.

(** The computation returns (does not throw). *)
Definition returns {A : Type} (x : outcome A) : Prop := exists a, x = Returns a.

(** [{ messages: [{ role: "user", content: { toString: 1 } }] }] *)
Definition unprintable_body : jsval :=
  JObj [(js "messages",
         JArr [JObj [(js "role", JStr (js "user"));
                     (js "content", JObj [(js "toString", JNum (Fin 1))])]])].

(** The world after the [catch] block has answered before any head was
    sent. *)
Definition answered_500 (rid : list Z) (e : exn) : world :=
  mkWorld (mkRes 500 [] true [WHead 500 []; WBody (js "Server error"); WEnd])
          [LogError rid e] [].

(** [{ messages: [{ role: "user", content: "hello" }] }] *)
Definition hello_body : jsval :=
  JObj [(js "messages",
         JArr [JObj [(js "role", JStr (js "user"));
                     (js "content", JStr (js "hello"))]])].

(** An upstream answer 503 without a body. *)
Definition upstream_503 : upstream_response := mkUp 503 None None.

(** What the client receives when the upstream call fails: the head was
    flushed with status 200 and the stream headers before [fetch]. *)
Definition wire_on_upstream_failure : list wire_event :=
  [WHead 200 STREAM_HEADERS; WBody (js "Upstream error"); WEnd].

(** A frame as it stands between two delimiters: no two line feeds in a
    row, and no line feed at its end. *)
Fixpoint plain_frame (f : list Z) : bool :=
  match f with
  | [] => true
  | c :: tl =>
      match tl with
      | [] => negb (c =? LF)
      | d :: _ => negb ((c =? LF) && (d =? LF)) && plain_frame tl
      end
  end.

(** The text of a stream: each frame followed by the delimiter. *)
Definition stream_text (frames : list (list Z)) : list Z :=
  List.concat (map (fun f => f ++ [LF; LF]) frames).

(** A byte that is a whole character in UTF-8. *)
Definition is_ascii (b : Z) : bool := in_range 0 127 b.

(** The lines of a frame, joined by line feeds. *)
Fixpoint join_lines (lines : list (list Z)) : list Z :=
  match lines with
  | [] => []
  | [l] => l
  | l :: more => l ++ LF :: join_lines more
  end.

Definition no_LF (line : list Z) : Prop := ~ In LF line.

Definition line_Hi : list Z :=
  jsx "data: {'type':'content_block_delta','delta':{'type':'text_delta','text':'Hi'}}".
Definition line_there : list Z :=
  jsx "data: {'type':'content_block_delta','delta':{'type':'text_delta','text':' there'}}".
Definition line_malformed : list Z :=
  jsx "data: {'type':'content_block_delta','delta':".

(** One frame with two data lines, and its delimiter. *)
Definition two_deltas : list Z :=
  join_lines [js "event: content_block_delta"; line_Hi; line_there] ++ [LF; LF].

(** One frame with a malformed data line between two valid ones; one frame
    with a malformed data line before a valid one. *)
Definition malformed_between : list Z :=
  join_lines [line_Hi; line_malformed; line_there] ++ [LF; LF].
Definition malformed_first : list Z :=
  join_lines [line_malformed; line_there] ++ [LF; LF].

(* ================================================================== *)
(** * The redact rewriter in words

    What [enforceNoProviderLeak] is said to do, written without patterns:
    where a vendor or model name stands in a text, where an attribution
    clause stands and how far it reaches, and what replacing every such
    occurrence means. *)
(* ================================================================== *)

(** [w] stands at the head of [s], letter case apart. *)
Fixpoint ci_prefix (w s : list Z) : bool :=
  match w with
  | [] => true
  | x :: w' =>
      match s with
      | y :: s' => (canonicalize true y =? canonicalize true x) && ci_prefix w' s'
      | [] => false
      end
  end.

(** There is a word character at index [n] of [s]. *)
Definition word_at (n : nat) (s : list Z) : bool :=
  match nth_error s n with
  | Some c => is_word_char c
  | None => false
  end.

(** The word [w] stands at the head of [s] and is not continued by a word
    character. *)
Definition word_here (w s : list Z) : bool :=
  ci_prefix w s && negb (word_at (List.length w) s).

(** The text before the current index (reversed) ends with a word
    character. *)
Definition after_word_char (before : list Z) : bool :=
  match before with c :: _ => is_word_char c | [] => false end.

(** The number of leading code units of [s] that satisfy [p]. *)
Fixpoint run_length (p : Z -> bool) (s : list Z) : nat :=
  match s with
  | c :: tl => if p c then S (run_length p tl) else 0%nat
  | [] => 0%nat
  end.

(** A period or a line feed. *)
Definition is_stop (c : Z) : bool := (c =? 46) || (c =? LF).

Definition ATTRIBUTION_PHRASES : list (list Z) :=
  [js "trained by"; js "developed by"; js "powered by"; js "built by";
   js "created by"].

(** The length of a clause that begins with the phrase [w] at the head of
    [s]: the phrase, everything after it that is not a period or line feed,
    and the period or line feed that follows, if there is one. *)
Definition clause_length (w s : list Z) : nat :=
  let body := run_length (fun c => negb (is_stop c)) (skipn (List.length w) s) in
  let stop := match skipn (List.length w + body) s with
              | c :: _ => if is_stop c then 1%nat else 0%nat
              | [] => 0%nat
              end in
  (List.length w + body + stop)%nat.

(** The length of the attribution clause that starts at the head of [s]
    (the text before it being [before], reversed), if one does: one of the
    phrases as a whole word, then the text up to and including the next
    period or line feed. *)
Definition attribution_clause (before s : list Z) : option nat :=
  if after_word_char before then None
  else option_map (fun w => clause_length w s)
                  (find (fun w => word_here w s) ATTRIBUTION_PHRASES).

(** There is a word boundary between indices [i - 1] and [i] of [s]
    (for [1 <= i]). *)
Definition boundary_at (i : nat) (s : list Z) : bool :=
  xorb (word_at (i - 1) s) (word_at i s).

Definition VENDOR_NAMES : list (list Z) :=
  [js "Claude"; js "Anthropic"; js "OpenAI"; js "ChatGPT"].

(** A hyphen or a white-space character. *)
Definition is_separator (c : Z) : bool := (c =? 45) || is_js_space c.

(** The largest index in [i, i + d] at which [s] has a word boundary. *)
Fixpoint longest_boundary (s : list Z) (i d : nat) : option nat :=
  match d with
  | O => if boundary_at i s then Some i else None
  | S d' =>
      match longest_boundary s (S i) d' with
      | Some j => Some j
      | None => if boundary_at i s then Some i else None
      end
  end.

(** The length of the mention that starts with the "GPT" at the head of
    [s]: "GPT", one hyphen or white-space character if there is one, and
    digits, as far as possible so that the mention ends at a word
    boundary. *)
Definition gpt_mention (s : list Z) : option nat :=
  let t := skipn 3 s in
  let plain := longest_boundary s 3 (run_length is_digit t) in
  match t with
  | ch :: t' =>
      if is_separator ch
      then match longest_boundary s 4 (run_length is_digit t') with
           | Some n => Some n
           | None => plain
           end
      else plain
  | [] => plain
  end.

(** The length of the vendor or model name that starts at the head of
    [s], if one does. *)
Definition vendor_mention (before s : list Z) : option nat :=
  if after_word_char before then None
  else
    match find (fun w => word_here w s) VENDOR_NAMES with
    | Some w => Some (List.length w)
    | None => if ci_prefix (js "GPT") s then gpt_mention s else None
    end.

(** The text [s] (standing after [before]) with every occurrence replaced
    by [rep], going left to right; [occ before s] is the length of the
    occurrence that starts at the head of [s], and [skip] counts the code
    units of the current occurrence still to be dropped. *)
Fixpoint rewrite_occurrences (occ : list Z -> list Z -> option nat)
         (rep : list Z) (skip : nat) (before s : list Z) : list Z :=
  match s with
  | [] => []
  | c :: s' =>
      match skip with
      | S k => rewrite_occurrences occ rep k (c :: before) s'
      | O =>
          match occ before s with
          | Some (S n) => rep ++ rewrite_occurrences occ rep n (c :: before) s'
          | _ => c :: rewrite_occurrences occ rep 0 (c :: before) s'
          end
      end
  end.

(** The text with every vendor or model name replaced by the placeholder. *)
Definition replace_mentions (text : list Z) : list Z :=
  rewrite_occurrences vendor_mention Redact.PLACEHOLDER 0 [] text.

(** The text without its attribution clauses. *)
Definition remove_clauses (text : list Z) : list Z :=
  rewrite_occurrences attribution_clause [] 0 [] text.

(* ================================================================== *)
(** * Notions used to reason about the matcher *)
(* ================================================================== *)

(** [n] steps forward. *)
Fixpoint adv (n : nat) (st : mstate) : mstate :=
  match n with
  | O => st
  | S k => adv k (advance st)
  end.

(** A state without its captures. *)
Definition pos (st : mstate) : list Z * list Z := (before st, rest st).

(** The loop of [RStar], named. *)
Definition star_iter (r1 : regex) (k : mstate -> option mstate)
  : nat -> mstate -> option mstate :=
  fix iterate (fuel : nat) (st : mstate) : option mstate :=
    match fuel with
    | O => k st
    | S fuel' =>
        match rmatch true r1 st
                (fun st' => if progressed st st'
                            then iterate fuel' st' else None) with
        | Some e => Some e
        | None => k st
        end
    end.

(** Take [n] more characters if the continuation accepts that, else fewer. *)
Fixpoint greedy (k : mstate -> option mstate) (n : nat) (st : mstate)
  : option mstate :=
  match n with
  | O => k st
  | S n' =>
      match greedy k n' (advance st) with
      | Some e => Some e
      | None => k st
      end
  end.

(** Membership in a character class under the [i] flag. *)
Definition class_pred (negated : bool) (items : list class_item) (ch : Z) : bool :=
  xorb negated (existsb (class_item_matches true ch) items).

(** [RLit] on code units. *)
Definition lit (w : list Z) : regex :=
  fold_right (fun c r => RSeq (RChar c) r) REmpty w.

Fixpoint first_some {A B : Type} (f : A -> option B) (l : list A) : option B :=
  match l with
  | [] => None
  | x :: tl => match f x with Some e => Some e | None => first_some f tl end
  end.

Definition start_state (done todo : list Z) : mstate := mkM done todo [].

(** The same position with other captures. *)
Definition recap (c : list (nat * list Z)) (st : mstate) : mstate :=
  mkM (before st) (rest st) c.

Definition STOP_CLASS : list class_item := [CChar 46; CChar LF].

(** Where a clause ends, from the end of its phrase: past everything that
    is not a period or line feed, and past the period or line feed if
    there is one. *)
Definition clause_end (s : mstate) : mstate :=
  let s1 := adv (run_length (fun c => negb (is_stop c)) (rest s)) s in
  match rest s1 with
  | ch :: _ => if is_stop ch then advance s1 else s1
  | [] => s1
  end.

Definition ATTRIBUTION_TAIL : regex :=
  RSeq RWordB (RSeq (RStar (RClass true STOP_CLASS)) (ROpt (RClass false STOP_CLASS))).

(** A word of a pattern: it starts and ends with a word character. *)
Definition pattern_word (w : list Z) : Prop :=
  exists a z, nth_error w 0 = Some a /\ is_word_char a = true
              /\ nth_error w (List.length w - 1) = Some z /\ is_word_char z = true.

(** The continuation of group 1 when only [\b] follows it. *)
Definition boundary_k (c : mstate -> list (nat * list Z)) (st' : mstate)
  : option mstate :=
  rmatch true RWordB (recap (c st') st') Some.

Definition SEPARATOR_CLASS : list class_item := [CChar 45; CSpace].
Definition DIGIT_CLASS : list class_item := [CDigit].

Definition GPT_TAIL : regex :=
  RSeq (ROpt (RClass false SEPARATOR_CLASS)) (RStar (RClass false DIGIT_CLASS)).

(** The capture made by group 1 of a match attempt that began at [st0]. *)
Definition group1 (st0 st' : mstate) : list (nat * list Z) :=
  (1%nat, consumed_between st0 st') :: captures st'.

(* ================================================================== *)
(** * Configuration and middleware around the chat route

    The two files configure the origin lock and install the same two
    middlewares of their own before the routes.  The library middlewares
    that run before them ([express.json], [express.static], [helmet],
    [rateLimit]) are not part of the source; a request below is one they
    have passed on, with [req.body] already parsed. *)
(* ================================================================== *)

Definition COMMA : Z := 44.

(** [Boolean(s)] for a string. *)
Definition non_empty (s : jsstring) : bool :=
  match s with [] => false | _ => true end.

(** [value.split(",").map((s) => s.trim()).filter(Boolean)] *)
Definition origins_of (value : jsstring) : list jsstring :=
  filter non_empty (map trim (split [COMMA] value)).

(** [const ALLOWED_ORIGINS = (process.env.ALLOWED_ORIGINS || "")...] *)
Definition ALLOWED_ORIGINS `{Platform} : list jsstring :=
  origins_of (env_or "ALLOWED_ORIGINS" []).

(** What the middlewares and the routes read of [req]. *)
Record request := mkRequest {
  req_method : jsstring;                       (* req.method *)
  req_headers_origin : option jsstring;        (* req.headers.origin *)
  req_headers_x_request_id : option jsstring;  (* req.headers["x-request-id"] *)
  req_body : jsval                             (* req.body *)
}.

(** [res.sendStatus(204)]: Express sets the status and, the status being
    204, ends the response without a body and without a content type. *)
Definition sendStatus_204 : M unit :=
  (status 204 ;;;
   with_res (fun r =>
     mkRes (statusCode r)
           (filter (fun p => negb (String.eqb (fst p) "Content-Type")) (headers r))
           (headersSent r) (wire r)) ;;;
   end_)%M.

(** [{ error: "Forbidden" }] *)
Definition FORBIDDEN : jsval := JObj [(js "error", JStr (js "Forbidden"))].

Section Middleware.

Context `{Platform}.

(** [ALLOWED_ORIGINS.includes(origin)] *)
Definition ALLOWED_ORIGINS_includes (origin : jsstring) : bool :=
  existsb (str_eqb origin) ALLOWED_ORIGINS.

(** The origin lock, [app.use((req, res, next) => {...})]; [next] is the
    rest of the chain. *)
Definition origin_lock (req : request) (next : M unit) : M unit :=
  match ALLOWED_ORIGINS with
  | [] => next                                   (* dev mode: allow all *)
  | _ :: _ =>
      match req_headers_origin req with
      | None | Some [] => next                   (* !origin *)
      | Some origin =>
          if ALLOWED_ORIGINS_includes origin then
            (setHeader "Access-Control-Allow-Origin" origin ;;;
             setHeader "Vary" (js "Origin") ;;;
             setHeader "Access-Control-Allow-Headers" (js "content-type") ;;;
             setHeader "Access-Control-Allow-Methods" (js "POST,GET,OPTIONS") ;;;
             if str_eqb (req_method req) (js "OPTIONS")
             then sendStatus_204
             else next)%M
          else
            (status 403 ;;; json FORBIDDEN)%M
      end
  end.

(** [req.headers["x-request-id"] || crypto.randomUUID()], with [uuid] the
    value the call to [randomUUID] returns. *)
Definition request_id_of (req : request) (uuid : jsstring) : jsstring :=
  match req_headers_x_request_id req with
  | Some (c :: s) => c :: s
  | _ => uuid
  end.

(** The request-id middleware; [next] receives [req.requestId].  (The
    [finish] listener, which prints an access line with [console.log] once
    the response is out, is not modelled.) *)
Definition request_id (req : request) (uuid : jsstring)
           (next : jsstring -> M unit) : M unit :=
  let rid := request_id_of req uuid in
  (setHeader "x-request-id" rid ;;; next rid)%M.

(** The chain a request goes through before the route [route] handles
    it. *)
Definition through_middleware (req : request) (uuid : jsstring)
           (route : jsstring -> M unit) : M unit :=
  origin_lock req (request_id req uuid route).

(** [app.get("/api/health", ...)] *)
Definition health : M unit := json (JObj [(js "ok", JBool true)]).

(** A [POST /api/chat/stream] request from the first middleware of the
    file to the end of the route, in each variant. *)
Definition Redact_post_chat_stream (req : request) (uuid : jsstring)
           (reply : option upstream_response) : M unit :=
  through_middleware req uuid
    (fun rid => Redact.chat_stream rid (req_body req) reply).

Definition Rebrand_post_chat_stream (req : request) (uuid : jsstring)
           (reply : option upstream_response) : M unit :=
  through_middleware req uuid
    (fun rid => Rebrand.chat_stream rid (req_body req) reply).

End Middleware.

(* ================================================================== *)
(** * Notions used in the statements about configuration and handlers *)
(* ================================================================== *)

(** The pieces joined with commas (code unit 44). *)
Fixpoint join_commas (pieces : list (list Z)) : list Z :=
  match pieces with
  | [] => []
  | [p] => p
  | p :: more => p ++ 44 :: join_commas more
  end.

(** An origin as it can stand in the configured list: not empty, without
    a comma, and with no white space at either end. *)
Definition plain_origin (o : list Z) : Prop :=
  o <> [] /\ ~ In 44 o
  /\ is_js_space (hd 0 o) = false /\ is_js_space (last o 0) = false.

(** The value of header [k] in a header table. *)
Definition header_value (k : string) (hs : list (string * list Z))
  : option (list Z) :=
  option_map snd (find (fun p => String.eqb (fst p) k) hs).

(** The head that reached the client, if one did. *)
Definition head_sent (w : list wire_event) : option (Z * list (string * list Z)) :=
  match w with
  | WHead st hs :: _ => Some (st, hs)
  | _ => None
  end.

Definition is_payload (ev : wire_event) : bool :=
  match ev with
  | WBody _ | WJson _ => true
  | _ => false
  end.

(** The header table after the three [setHeader] calls that open the
    stream, and after [res.json] has set its content type. *)
Definition stream_headers_over (hs : list (string * list Z))
  : list (string * list Z) :=
  set_header "X-Accel-Buffering" (js "no")
    (set_header "Cache-Control" (js "no-cache, no-transform")
       (set_header "Content-Type" (js "text/plain; charset=utf-8") hs)).

Definition json_headers_over (hs : list (string * list Z))
  : list (string * list Z) :=
  if has_header "Content-Type" hs then hs
  else set_header "Content-Type" (js "application/json; charset=utf-8") hs.

(** The request id a log line carries. *)
Definition log_rid (l : log_entry) : list Z :=
  match l with
  | LogUpstream rid _ _ => rid
  | LogError rid _ => rid
  end.

(** A response that has not been touched by a route: status 200, the
    headers [hs] set by the middleware, nothing sent. *)
Definition untouched (hs : list (string * list Z)) : world :=
  mkWorld (mkRes 200 hs false []) [] [].

(** Where the handler leaves a request once it has opened the stream and
    called the upstream API, with [hs] the headers of the head. *)
Definition after_upstream (process_frame : list Z -> list (list Z))
           (rid : list Z) (hs : list (string * list Z))
           (reply : option upstream_response) (rq : upstream_request) : world :=
  let failed (writes : list (list Z)) :=
    mkWorld (mkRes 200 hs true
               (WHead 200 hs :: map WBody writes
                ++ [WBody (js "Server error"); WEnd]))
            [LogError rid FetchFailed] [rq] in
  match reply with
  | None => failed []
  | Some u =>
      match up_ok u, up_body u with
      | true, Some b =>
          let writes := pipe_with process_frame (chunks b) in
          if read_fails b then failed writes
          else mkWorld (mkRes 200 hs true
                          (WHead 200 hs :: map WBody writes ++ [WEnd]))
                       [] [rq]
      | _, _ =>
          mkWorld (mkRes 502 hs true
                     [WHead 200 hs; WBody (js "Upstream error"); WEnd])
                  [LogUpstream rid (up_status u)
                     (slice_to 5000
                        (match up_text u with Some t => t | None => [] end))]
                  [rq]
      end
  end.

(** Where the chat handler leaves a request, in closed form: [probe] gives
    the fixed reply when the variant answers by itself, [default_system] is
    the variant's system prompt and [process_frame] its frame handler. *)
Definition handled `{Platform} (probe : list message -> option (list Z))
           (default_system : list Z)
           (process_frame : list Z -> list (list Z))
           (rid : list Z) (body : jsval) (reply : option upstream_response)
           (hs : list (string * list Z)) : world :=
  let thrown (e : exn) :=
    mkWorld (mkRes 500 hs true [WHead 500 hs; WBody (js "Server error"); WEnd])
            [LogError rid e] [] in
  let b := body_or_empty body in
  match normalizeMessages (get b "messages") with
  | Throws e => thrown e
  | Returns None =>
      mkWorld (mkRes 400 (json_headers_over hs) true
                 [WHead 400 (json_headers_over hs); WJson INVALID_MESSAGES; WEnd])
              [] []
  | Returns (Some normalized) =>
      match probe normalized with
      | Some fixed =>
          mkWorld (mkRes 200 (stream_headers_over hs) true
                     [WHead 200 (stream_headers_over hs); WBody fixed; WEnd])
                  [] []
      | None =>
          match safeString (get b "system") 4000 with
          | Throws e => thrown e
          | Returns s =>
              after_upstream process_frame rid (stream_headers_over hs) reply
                (mkReq rid
                   (match get b "model" with
                    | JStr m => if ALLOWED_MODELS_has (JStr m) then m
                                else DEFAULT_MODEL
                    | _ => DEFAULT_MODEL
                    end)
                   (match s with [] => default_system | _ => s end)
                   normalized (max_tokens_of b) (temperature_of b) true)
          end
      end
  end.

(** When the rebrand variant answers by itself, and with what. *)
Definition Rebrand_probe `{Platform} (normalized : list message)
  : option (list Z) :=
  if Rebrand.isIdentityProbe normalized then Some Rebrand.BRANDED_REPLY
  else None.

(** The four headers the origin lock sets for an allowed origin. *)
Definition CORS_HEADERS (origin : list Z) : list (string * list Z) :=
  [("Access-Control-Allow-Origin"%string, origin);
   ("Vary"%string, js "Origin");
   ("Access-Control-Allow-Headers"%string, js "content-type");
   ("Access-Control-Allow-Methods"%string, js "POST,GET,OPTIONS")].

(** The headers the two middlewares have set when the route starts, for a
    request that gets that far. *)
Definition middleware_headers `{Platform} (req : request) (uuid : list Z)
  : list (string * list Z) :=
  match ALLOWED_ORIGINS, req_headers_origin req with
  | _ :: _, Some (c :: o) => CORS_HEADERS (c :: o)
  | _, _ => []
  end
  ++ [("x-request-id"%string, request_id_of req uuid)].

(** The world after the origin lock has refused a request, and after it
    has answered a preflight request. *)
Definition answered_403 : world :=
  mkWorld (mkRes 403 JSON_HEADERS true
                 [WHead 403 JSON_HEADERS;
                  WJson (JObj [(js "error", JStr (js "Forbidden"))]);
                  WEnd])
          [] [].

Definition answered_204 (origin : list Z) : world :=
  mkWorld (mkRes 204 (CORS_HEADERS origin) true
                 [WHead 204 (CORS_HEADERS origin); WEnd])
          [] [].

(** A header name the routes do not set themselves. *)
Definition middleware_header (k : string) : Prop :=
  k <> "Content-Type"%string /\ k <> "Cache-Control"%string
  /\ k <> "X-Accel-Buffering"%string.

(** What a route must do for the headers of the middleware to reach the
    client: send a head that keeps them. *)
Definition keeps_headers (route : list Z -> M unit) : Prop :=
  forall (rid : list Z) (hs : list (string * list Z)),
  exists st hs' rest,
    wire (res (snd (route rid (untouched hs)))) = WHead st hs' :: rest
    /\ st <> 403 /\ st <> 204
    /\ forall k, middleware_header k -> header_value k hs' = header_value k hs.

(** The upstream call fails once the stream is open: [fetch] rejects (no
    reply), or a later [read()] of the body does. *)
Definition interrupted (reply : option upstream_response) : Prop :=
  reply = None
  \/ exists u b, reply = Some u /\ up_ok u = true /\ up_body u = Some b
                 /\ read_fails b = true.

(** The chunks a reply delivers before it ends or fails. *)
Definition delivered (reply : option upstream_response) : list (list Z) :=
  match reply with
  | Some u => match up_body u with Some b => chunks b | None => [] end
  | None => []
  end.

(** What every request sent upstream satisfies, given the default model,
    the variant's default system prompt and the request id. *)
Definition within_bounds (default_model default_system rid : list Z)
           (rq : upstream_request) : Prop :=
  x_request_id rq = rid
  /\ (In (req_model rq)
         [js "claude-haiku-4-5"; js "claude-sonnet-4-5"; js "claude-opus-4-5"]
      \/ req_model rq = default_model)
  /\ (req_system rq = default_system
      \/ (req_system rq <> [] /\ (List.length (req_system rq) <= 4000)%nat))
  /\ req_messages rq <> []
  /\ Forall (fun m =>
               (role m = js "user" \/ role m = js "assistant")
               /\ exists t, content m = [mkBlock (js "text") t]
                            /\ t <> [] /\ (List.length t <= 12000)%nat)
            (req_messages rq)
  /\ (exists k : Z, req_max_tokens rq = Fin (inject_Z k) /\ 64 <= k <= 1500)
  /\ (exists t : Q, req_temperature rq = Fin t /\ (0 <= t <= 1)%Q)
  /\ req_stream rq = true.

(** A platform whose environment configures two origins. *)
Definition locked_platform : Platform := {|
  JSON_parse := JSON.parse;
  Number_toString := print_number;
  env := fun name =>
           if String.eqb name "ALLOWED_ORIGINS"
           then Some (js "https://a.example, https://b.example")
           else None
|}.

(** The messages of a result of [normalizeMessages]. *)
Definition kept (r : option (list message)) : list message :=
  match r with Some l => l | None => [] end.

(** No two line feeds (code unit 10) in a row. *)
Fixpoint no_blank_line (t : list Z) : bool :=
  match t with
  | [] => true
  | c :: tl =>
      match tl with
      | d :: _ => negb ((c =? 10) && (d =? 10)) && no_blank_line tl
      | [] => true
      end
  end.

(* ================================================================== *)
(** * The rebrand variant's patterns in words *)
(* ================================================================== *)

(** The phrases that make a text an identity probe. *)
Definition PROBE_PHRASES : list (list Z) :=
  [js "who are you"; js "who made you"; js "who built you";
   js "what model are you"; js "what llm are you"; js "which model";
   js "are you claude"; js "are you chatgpt"; js "are you gpt";
   js "anthropic"; js "openai"; js "claude"; js "chatgpt"; js "gpt"].

(** One of the phrases stands at the head of [s], letter case apart, as
    whole words: no word character before it (the text before, reversed,
    is [before]) and none after it. *)
Definition probe_here (before s : list Z) : bool :=
  negb (after_word_char before)
  && existsb (fun w => word_here w s) PROBE_PHRASES.

(** One of the phrases stands somewhere in [s]. *)
Fixpoint probe_from (before s : list Z) : bool :=
  probe_here before s
  || match s with
     | [] => false
     | c :: tl => probe_from (c :: before) tl
     end.

Definition asks_identity (text : list Z) : bool := probe_from [] text.

(** A match attempt succeeded. *)
Definition succeeds (o : option mstate) : bool :=
  match o with Some _ => true | None => false end.

(** The words of a pattern made of characters, sequences, alternatives and
    groups only. *)
Fixpoint words (r : regex) : option (list (list Z)) :=
  match r with
  | REmpty => Some [[]]
  | RChar c => Some [[c]]
  | RSeq a b =>
      match words a, words b with
      | Some x, Some y => Some (flat_map (fun u => map (app u) y) x)
      | _, _ => None
      end
  | RAlt a b =>
      match words a, words b with
      | Some x, Some y => Some (x ++ y)
      | _, _ => None
      end
  | RGroup _ a => words a
  | _ => None
  end.

(** A continuation whose success does not depend on the captures. *)
Definition blind (k : mstate -> option mstate) : Prop :=
  forall c st, succeeds (k (recap c st)) = succeeds (k st).

(** The group of the probe pattern, between its two word boundaries. *)
Definition PROBE_GROUP : regex :=
  RGroup 1 (RAlts [
    RSeqs [RLit "who ";
           RGroup 2 (RAlts [RLit "are"; RLit "made"; RLit "built"]);
           RLit " you"];
    RSeqs [RLit "what ";
           RGroup 3 (RAlts [RLit "model"; RLit "llm"]);
           RLit " are you"];
    RLit "which model";
    RSeqs [RLit "are you ";
           RGroup 4 (RAlts [RLit "claude"; RLit "chatgpt"; RLit "gpt"])];
    RLit "anthropic"; RLit "openai"; RLit "claude"; RLit "chatgpt";
    RLit "gpt"]).

(** A normalized user message with the text [t]. *)
Definition says (t : string) : message :=
  mkMessage (js "user") [mkBlock (js "text") (js t)].

(** The phrases that open an attribution clause in the rebrand variant. *)
Definition BRANDING_PHRASES : list (list Z) :=
  [js "trained by"; js "developed by"; js "powered by"; js "built by";
   js "created by"; js "made by"].

(** The length of the clause that starts at the head of [s] with one of
    [phrases] as whole words (the text before it being [before],
    reversed), if one does: the phrase and the text up to and including
    the next period or line feed. *)
Definition clause_of (phrases : list (list Z)) (before s : list Z) : option nat :=
  if after_word_char before then None
  else option_map (fun w => clause_length w s)
                  (find (fun w => word_here w s) phrases).

(** The length of the phrase [w] when it stands at the head of [s] as
    whole words. *)
Definition phrase_here (w before s : list Z) : option nat :=
  if after_word_char before then None
  else if word_here w s then Some (List.length w) else None.

(** The rebrand rewriter in words: every vendor or model name becomes the
    brand's model name; then every attribution clause becomes
    "made by <maker>. "; then every "AI safety company" becomes "team". *)
Definition rebrand_in_words (brand_model brand_maker text : list Z) : list Z :=
  rewrite_occurrences (phrase_here (js "AI safety company")) (js "team") 0 []
    (rewrite_occurrences (clause_of BRANDING_PHRASES)
       (js "made by " ++ brand_maker ++ js ". ") 0 []
       (rewrite_occurrences vendor_mention brand_model 0 [] text)).

(** The pattern of an attribution clause that opens with one of
    [phrases]. *)
Definition clause_pattern (phrases : list (list Z)) : regex :=
  RSeq RWordB (RSeq (RGroup 1 (RAlts (map lit phrases))) ATTRIBUTION_TAIL).

(** The pattern of the phrase [w] as whole words. *)
Definition phrase_pattern (w : list Z) : regex :=
  RSeq RWordB (RSeq (lit w) RWordB).

(* ================================================================== *)
(** * Words of a text, and the words that name a vendor or a model *)
(* ================================================================== *)

(** The word characters at the head of [s]. *)
Fixpoint word_run (s : list Z) : list Z :=
  match s with
  | c :: tl => if is_word_char c then c :: word_run tl else []
  | [] => []
  end.

(** [tok] is the word [w], letter case apart. *)
Fixpoint ci_eq (w tok : list Z) : bool :=
  match w, tok with
  | [], [] => true
  | x :: w', y :: tok' =>
      (canonicalize true y =? canonicalize true x) && ci_eq w' tok'
  | _, _ => false
  end.

(** A word that names a vendor or a model: Claude, Anthropic, OpenAI,
    ChatGPT, or GPT followed by digits only, in any letter case. *)
Definition is_vendor_word (tok : list Z) : bool :=
  existsb (fun w => ci_eq w tok)
          [js "Claude"; js "Anthropic"; js "OpenAI"; js "ChatGPT"]
  || (ci_prefix (js "GPT") tok && forallb is_digit (skipn 3 tok)).

(** The word that ends at the current index, if one does ([cur] holds its
    characters, last first). *)
Definition flush (cur : list Z) : list (list Z) :=
  match cur with [] => [] | _ => [rev cur] end.

(** The words of [s] (its maximal runs of word characters) in order, the
    first one continuing the characters [cur]. *)
Fixpoint words_from (cur s : list Z) : list (list Z) :=
  match s with
  | [] => flush cur
  | c :: tl =>
      if is_word_char c then words_from (c :: cur) tl
      else flush cur ++ words_from [] tl
  end.

Definition words_of (s : list Z) : list (list Z) := words_from [] s.

(** A word that begins like the second word of the placeholder, with "as",
    whatever follows ([cur] holds its characters so far, last first). *)
Definition begins_as (cur : list Z) : Prop :=
  ci_prefix (js "as") (rev cur) = true.

(** What holds of the word being written while mentions are replaced: it
    is the word being read, and that word names no vendor; or it began
    inside a placeholder. *)
Definition writing (before s cur : list Z) : Prop :=
  (cur = word_run before
   /\ (word_run before <> [] ->
       is_vendor_word (rev (word_run before) ++ word_run s) = false))
  \/ begins_as cur.
(* ================================================================== *)
(** * Properties of [split] *)
(* ================================================================== *)

Section SplitFacts.

Variable sep : jsstring.

Lemma startsWith_length (p s : jsstring) :
  startsWith p s = true -> (List.length p <= List.length s)%nat.
Proof.
  revert s; induction p as [|x p IH]; intros [|y s]; simpl; intros E;
    try lia; try discriminate.
  apply andb_true_iff in E as [_ E]. apply IH in E. lia.
Qed.

Lemma startsWith_app (p s t : jsstring) :
  startsWith p s = true -> startsWith p (s ++ t) = true.
Proof.
  revert s; induction p as [|x p IH]; intros [|y s]; simpl; intros E;
    auto; try discriminate.
  apply andb_true_iff in E as [E1 E2].
  rewrite E1; simpl; auto.
Qed.

(** A separator found in [s ++ t] but not in [s] reaches into [t]. *)
Lemma startsWith_straddle (p s t : jsstring) :
  startsWith p s = false -> startsWith p (s ++ t) = true ->
  (List.length s < List.length p)%nat.
Proof.
  revert s; induction p as [|x p IH]; intros [|y s]; simpl; intros E1 E2;
    try discriminate; try lia.
  apply andb_true_iff in E2 as [E2 E3].
  rewrite E2 in E1; simpl in E1. specialize (IH _ E1 E3). lia.
Qed.

Lemma split_from_nonempty (k : nat) (s : jsstring) :
  split_from sep k s <> [].
Proof.
  revert k; induction s as [|c s IH]; intros k; simpl; [discriminate|].
  destruct k; [|apply IH].
  destruct (startsWith sep (c :: s)); [discriminate|].
  specialize (IH 0%nat). destruct (split_from sep 0 s); simpl; congruence.
Qed.

(** A string shorter than the separator is one piece. *)
Lemma split_short (s : jsstring) :
  (List.length s < List.length sep)%nat -> split_from sep 0 s = [s].
Proof.
  induction s as [|c s IH]; intros L; simpl; auto.
  destruct (startsWith sep (c :: s)) eqn:E.
  - apply startsWith_length in E. lia.
  - rewrite IH by (simpl in L; lia). reflexivity.
Qed.

(** A split into one piece found no separator. *)
Lemma split_single (s : jsstring) (k : nat) (p : jsstring) :
  split_from sep k s = [p] -> p = skipn k s.
Proof.
  revert k p; induction s as [|c s IH]; intros k p; simpl.
  - intros E; injection E as <-. now destruct k.
  - destruct k; [|apply IH].
    destruct (startsWith sep (c :: s)).
    + intros E; injection E as _ E. now apply split_from_nonempty in E.
    + destruct (split_from sep 0 s) as [|q qs] eqn:Eq.
      * now apply split_from_nonempty in Eq.
      * simpl. intros E; injection E as <- ->.
        apply IH in Eq. simpl in Eq. now subst.
Qed.

Lemma removelast_add_to_head (c : Z) (p q : jsstring) (l : list jsstring) :
  removelast (add_to_head c (p :: q :: l)) = add_to_head c (removelast (p :: q :: l)).
Proof. reflexivity. Qed.

Lemma last_add_to_head (c : Z) (p q : jsstring) (l : list jsstring) d :
  last (add_to_head c (p :: q :: l)) d = last (p :: q :: l) d.
Proof. reflexivity. Qed.

(** Splitting is incremental: the pieces closed inside [s] stay as they
    are, and the open last piece is split again once [t] has arrived. *)
Lemma split_from_app (s t : jsstring) (k : nat) :
  (k <= List.length s)%nat ->
  split_from sep k (s ++ t) =
  removelast (split_from sep k s)
  ++ split_from sep 0 (last (split_from sep k s) [] ++ t).
Proof.
  revert k; induction s as [|c s IH]; intros k L.
  - simpl in L. assert (k = 0%nat) by lia. subst. reflexivity.
  - destruct k as [|k]; [|simpl; apply IH; simpl in L; lia].
    change ((c :: s) ++ t) with (c :: (s ++ t)).
    cbn [split_from].
    change (c :: (s ++ t)) with ((c :: s) ++ t).
    destruct (startsWith sep (c :: s)) eqn:E.
    + rewrite (startsWith_app _ _ t E).
      pose proof (startsWith_length _ _ E) as Len. simpl in Len.
      rewrite IH by lia.
      pose proof (split_from_nonempty (List.length sep - 1) s) as NE.
      destruct (split_from sep (List.length sep - 1) s) as [|x xs]; [congruence|].
      reflexivity.
    + destruct (startsWith sep ((c :: s) ++ t)) eqn:E'.
      * pose proof (startsWith_straddle _ _ _ E E') as Len.
        pose proof (split_short (c :: s) Len) as Sh.
        cbn [split_from] in Sh. rewrite E in Sh. rewrite Sh.
        cbn [removelast last app]. cbn [split_from].
        change (c :: s ++ t) with ((c :: s) ++ t). rewrite E'. reflexivity.
      * destruct (split_from sep 0 s) as [|p [|q l]] eqn:Es.
        -- now apply split_from_nonempty in Es.
        -- apply split_single in Es. simpl in Es. subst p.
           cbn [add_to_head removelast last app]. cbn [split_from].
           change (c :: s ++ t) with ((c :: s) ++ t). rewrite E'. reflexivity.
        -- rewrite IH by lia. rewrite Es.
           rewrite removelast_add_to_head, last_add_to_head.
           reflexivity.
Qed.

Lemma split_app (s t : jsstring) :
  split sep (s ++ t) =
  removelast (split sep s) ++ split sep (last (split sep s) [] ++ t).
Proof. unfold split. apply split_from_app. lia. Qed.

End SplitFacts.

(* ================================================================== *)
(** * The read loop does not depend on the chunking *)
(* ================================================================== *)

Lemma decode_app (d : TextDecoder) (a b : list Z) :
  decode d (a ++ b) =
  let '(d1, o1) := decode d a in
  let '(d2, o2) := decode d1 b in
  (d2, o1 ++ o2).
Proof.
  revert d; induction a as [|x a IH]; intros d; simpl.
  - now destruct (decode d b).
  - destruct (decode_byte d x) as [d1 o1].
    rewrite IH. destruct (decode d1 a) as [d2 o2].
    destruct (decode d2 b) as [d3 o3]. now rewrite app_assoc.
Qed.

Lemma removelast_app_nonempty {A} (l l' : list A) :
  l' <> [] -> removelast (l ++ l') = l ++ removelast l'.
Proof. intros; now apply removelast_app. Qed.

Section ReadLoopFacts.

Variable process_frame : jsstring -> list jsstring.

(** From any loop state, the writes are those of the complete frames of
    the buffer followed by the decoding of all the bytes still to come. *)
Lemma read_loop_frames (chunks : list (list Z)) (st : loop_state) :
  ls_buffer st = last (split [LF; LF] (ls_buffer st)) [] ->
  read_loop process_frame st chunks =
  flat_map process_frame
    (complete_frames
       (ls_buffer st ++ snd (decode (ls_decoder st) (List.concat chunks)))).
Proof.
  revert st; induction chunks as [|value more IH]; intros [d buffer] Hb;
    cbn [ls_buffer ls_decoder] in *.
  - cbn [read_loop List.concat decode snd]. rewrite app_nil_r.
    unfold complete_frames.
    (* the buffer holds no complete frame *)
    assert (split [LF; LF] buffer = [buffer]) as ->; [|reflexivity].
    pose proof (split_from_nonempty [LF; LF] 0 buffer) as NE.
    fold (split [LF; LF] buffer) in NE.
    pose proof (app_removelast_last [] NE) as A. rewrite <- Hb in A.
    pose proof (split_app [LF; LF] buffer []) as E.
    rewrite !app_nil_r, <- Hb in E.
    destruct (removelast (split [LF; LF] buffer)) as [|x xs].
    + exact A.
    + exfalso. apply (f_equal (@List.length _)) in E.
      rewrite length_app in E. simpl in E. lia.
  - cbn [read_loop List.concat]. unfold read_iteration.
    cbn [ls_buffer ls_decoder].
    rewrite decode_app.
    destruct (decode d value) as [d1 t1].
    destruct (decode d1 (List.concat more)) as [d2 t2] eqn:D2.
    cbn [snd].
    rewrite IH; cbn [ls_buffer ls_decoder].
    + rewrite D2; cbn [snd].
      rewrite <- flat_map_app. f_equal.
      unfold complete_frames.
      rewrite app_assoc, (split_app [LF; LF] (buffer ++ t1) t2).
      rewrite removelast_app_nonempty; [reflexivity|].
      apply split_from_nonempty.
    + (* the new buffer is again its own last piece *)
      set (b := last (split [LF; LF] (buffer ++ t1)) []).
      pose proof (split_app [LF; LF] (buffer ++ t1) []) as E.
      rewrite app_nil_r in E. fold b in E.
      pose proof (split_from_nonempty [LF; LF] 0 (buffer ++ t1)) as NE.
      fold (split [LF; LF] (buffer ++ t1)) in NE.
      rewrite (app_removelast_last [] NE) in E at 1. fold b in E.
      apply app_inv_head in E.
      rewrite app_nil_r in E. rewrite <- E. reflexivity.
Qed.

(** The writes of the whole pipe, as a function of the byte stream. *)
Lemma pipe_with_stream (chunks : list (list Z)) :
  pipe_with process_frame chunks =
  flat_map process_frame
    (complete_frames (snd (decode new_TextDecoder (List.concat chunks)))).
Proof.
  unfold pipe_with. rewrite read_loop_frames; reflexivity.
Qed.

End ReadLoopFacts.

(* ================================================================== *)
(** * C1: chunk invariance *)
(* ================================================================== *)

(** C1.  For every byte stream and any two ways of cutting it into chunks
    (anywhere: inside a multi-byte character, a line, or a frame), the
    pipe makes the same writes in the same order, in both variants. *)
Theorem C1_chunk_invariance `{Platform} (chunks1 chunks2 : list (list Z)) :
  List.concat chunks1 = List.concat chunks2 ->
  Redact.pipeAnthropicSSEToPlainText chunks1
  = Redact.pipeAnthropicSSEToPlainText chunks2
  /\ Rebrand.pipeAnthropicSSEToPlainText chunks1
     = Rebrand.pipeAnthropicSSEToPlainText chunks2.
Proof.
  intros E.
  unfold Redact.pipeAnthropicSSEToPlainText, Rebrand.pipeAnthropicSSEToPlainText.
  rewrite !pipe_with_stream, E. split; reflexivity.
Qed.

Lemma C1_chunk_invariance_witness :
  List.concat [sample_body] = List.concat sample_chunking
  /\ (@Redact.pipeAnthropicSSEToPlainText reference_platform [sample_body]
      = @Redact.pipeAnthropicSSEToPlainText reference_platform sample_chunking
      /\ @Rebrand.pipeAnthropicSSEToPlainText reference_platform [sample_body]
         = @Rebrand.pipeAnthropicSSEToPlainText reference_platform sample_chunking).
Proof.
split.
- vm_compute. reflexivity.
- apply (@C1_chunk_invariance reference_platform [sample_body] sample_chunking).
  vm_compute. reflexivity.
Defined.

(** A euro sign whose three bytes arrive in three calls. *)
Example decode_split_euro :
  let '(d1, o1) := decode new_TextDecoder [226] in
  let '(d2, o2) := decode d1 [130] in
  let '(d3, o3) := decode d2 [172; 65] in
  (o1, o2, o3) = ([], [], [8364; 65]).
Proof. reflexivity. Qed.

(** An emoji (four bytes) becomes a surrogate pair; a leading byte order
    mark is dropped; a truncated sequence becomes U+FFFD. *)
Example decode_samples :
  snd (decode new_TextDecoder [239; 187; 191; 240; 159; 152; 128; 224; 65])
  = [55357; 56832; 65533; 65].
Proof. reflexivity. Qed.

(** On the sample body the writes are the delta (euro sign, 8364) and the
    error sentinel, however it is cut. *)
Example sample_writes :
  @Redact.pipeAnthropicSSEToPlainText reference_platform sample_chunking
  = [8364 :: js " Hi"; ERROR_SENTINEL].
Proof. vm_compute. reflexivity. Qed.

(* ================================================================== *)
(** * C2 and C4: the data lines of a frame *)
(* ================================================================== *)

Lemma split_line (l rest : list Z) :
  no_LF l ->
  split_from [LF] 0 (l ++ LF :: rest) = l :: split_from [LF] 0 rest.
Proof.
induction l as [|c l IH]; intros N.
- reflexivity.
- assert (c <> LF) as Hc by (intros ->; apply N; now left).
  assert (no_LF l) as Hl by (intros X; apply N; now right).
  cbn [app split_from startsWith].
  destruct (LF =? c) eqn:E; [apply Z.eqb_eq in E; congruence|].
  cbn [andb]. rewrite (IH Hl). reflexivity.
Qed.

Lemma split_last_line (l : list Z) :
  no_LF l -> split_from [LF] 0 l = [l].
Proof.
induction l as [|c l IH]; intros N; [reflexivity|].
assert (c <> LF) as Hc by (intros ->; apply N; now left).
assert (no_LF l) as Hl by (intros X; apply N; now right).
cbn [split_from startsWith].
destruct (LF =? c) eqn:E; [apply Z.eqb_eq in E; congruence|].
cbn [andb]. rewrite (IH Hl). reflexivity.
Qed.

(** Splitting a frame at line feeds gives back its lines. *)
Lemma split_join_lines (lines : list (list Z)) :
  lines <> [] -> Forall no_LF lines ->
  split [LF] (join_lines lines) = lines.
Proof.
unfold split.
induction lines as [|l more IH]; intros NE F; [congruence|].
inversion F as [|? ? Hl Hmore]; subst.
destruct more as [|l' more'].
- cbn [join_lines]. now apply split_last_line.
- change (join_lines (l :: l' :: more')) with (l ++ LF :: join_lines (l' :: more')).
  rewrite split_line by assumption. f_equal.
  apply IH; [discriminate|assumption].
Qed.

Section Lines.

Context `{Platform}.

(** In the rebrand variant every data line of a frame is handled, in the
    order of the lines. *)
Lemma Rebrand_every_data_line (lines : list (list Z)) :
  lines <> [] -> Forall no_LF lines ->
  Rebrand.process_frame (join_lines lines)
  = flat_map (handle_data_line Rebrand.enforceBranding)
             (filter is_data_line lines).
Proof.
intros NE F. unfold Rebrand.process_frame.
now rewrite split_join_lines.
Qed.

(** In the redact variant only the first data line of a frame is. *)
Lemma Redact_first_data_line_only (lines : list (list Z)) :
  lines <> [] -> Forall no_LF lines ->
  Redact.process_frame (join_lines lines)
  = match filter is_data_line lines with
    | [] => []
    | dataLine :: _ => handle_data_line Redact.enforceNoProviderLeak dataLine
    end.
Proof.
intros NE F. unfold Redact.process_frame.
rewrite split_join_lines by assumption.
clear. induction lines as [|l more IH]; [reflexivity|].
cbn [find filter]. destruct (is_data_line l); [reflexivity|exact IH].
Qed.

(** A data line whose payload is not JSON causes no write. *)
Lemma malformed_line_skipped (rewrite : list Z -> list Z) (dataLine : list Z) :
  JSON_parse (trim (slice_from (List.length (js "data: ")) dataLine)) = None ->
  handle_data_line rewrite dataLine = [].
Proof.
intros E. unfold handle_data_line. rewrite E.
destruct (trim _); [reflexivity|]. now destruct (str_eqb _ _).
Qed.

(** In the rebrand variant a malformed data line changes nothing for the
    lines around it. *)
Lemma Rebrand_malformed_line_is_local (before after : list (list Z)) (bad : list Z) :
  Forall no_LF (before ++ bad :: after) ->
  JSON_parse (trim (slice_from (List.length (js "data: ")) bad)) = None ->
  Rebrand.process_frame (join_lines (before ++ bad :: after))
  = flat_map (handle_data_line Rebrand.enforceBranding) (filter is_data_line before)
    ++ flat_map (handle_data_line Rebrand.enforceBranding) (filter is_data_line after).
Proof.
intros F E.
rewrite Rebrand_every_data_line; [|now destruct before|assumption].
rewrite filter_app, flat_map_app. f_equal.
cbn [filter]. destruct (is_data_line bad); [|reflexivity].
cbn [flat_map]. now rewrite malformed_line_skipped.
Qed.

End Lines.

Lemma split_frame (f rest : list Z) :
  plain_frame f = true ->
  split_from [LF; LF] 0 (f ++ LF :: LF :: rest) = f :: split_from [LF; LF] 0 rest.
Proof.
induction f as [|c f IH]; intros P.
- reflexivity.
- cbn [plain_frame] in P.
  assert (startsWith [LF; LF] ((c :: f) ++ LF :: LF :: rest) = false) as E.
  { cbn [app startsWith]. destruct f as [|d f'].
    - apply negb_true_iff in P. rewrite Z.eqb_sym, P. reflexivity.
    - apply andb_true_iff in P as [P _]. apply negb_true_iff in P.
      cbn [app]. rewrite (Z.eqb_sym LF c), (Z.eqb_sym LF d).
      destruct (c =? LF), (d =? LF); try reflexivity; discriminate. }
  change ((c :: f) ++ LF :: LF :: rest) with (c :: (f ++ LF :: LF :: rest)) in *.
  cbn [split_from]. rewrite E. rewrite IH; [reflexivity|].
  destruct f as [|d f']; [reflexivity|]. now apply andb_true_iff in P as [_ P].
Qed.

Lemma complete_frames_stream (frames : list (list Z)) :
  forallb plain_frame frames = true ->
  complete_frames (stream_text frames) = frames.
Proof.
unfold complete_frames, split, stream_text.
induction frames as [|f more IH]; cbn [forallb]; intros P; [reflexivity|].
apply andb_true_iff in P as [Pf Pm].
cbn [map List.concat]. rewrite <- app_assoc. cbn [app].
rewrite split_frame by exact Pf.
pose proof (split_from_nonempty [LF; LF] 0
              (List.concat (map (fun f => f ++ [LF; LF]) more))) as NE.
destruct (split_from [LF; LF] 0 _) as [|x xs] eqn:E; [congruence|].
change (removelast (f :: x :: xs)) with (f :: removelast (x :: xs)).
now rewrite (IH Pm).
Qed.

Lemma decode_ascii (bytes : list Z) (bom : bool) :
  forallb is_ascii bytes = true ->
  snd (decode (mkDecoder utf8_initial bom) bytes) = bytes.
Proof.
revert bom; induction bytes as [|b tl IH]; intros bom A; [reflexivity|].
cbn [forallb] in A. apply andb_true_iff in A as [Ab At].
cbn [decode]. unfold decode_byte, utf8_handler. cbn [decoder bytes_needed utf8_initial].
cbn [Z.eqb]. unfold utf8_lead. unfold is_ascii in Ab. rewrite Ab.
cbn [serialize BOM_seen].
assert ((b =? 65279) = false) as ->.
{ apply Z.eqb_neq. unfold in_range in Ab. apply andb_true_iff in Ab as [_ Ab].
  apply Z.leb_le in Ab. lia. }
rewrite andb_false_r.
assert (utf16_units b = [b]) as ->.
{ unfold utf16_units. unfold in_range in Ab. apply andb_true_iff in Ab as [_ Ab].
  apply Z.leb_le in Ab. destruct (Z.ltb_spec b 65536); [reflexivity|lia]. }
specialize (IH true At).
destruct (decode (mkDecoder utf8_initial true) tl) as [d2 o2]. cbn [snd] in *.
now rewrite IH.
Qed.

(** A body made of plain ASCII frames, however it is cut into chunks, gives
    the writes of its frames one after the other. *)
Lemma pipe_with_frames (process_frame : list Z -> list (list Z))
      (chunks frames : list (list Z)) :
  List.concat chunks = stream_text frames ->
  forallb plain_frame frames = true ->
  forallb (forallb is_ascii) frames = true ->
  pipe_with process_frame chunks = flat_map process_frame frames.
Proof.
intros E P A. rewrite pipe_with_stream, E.
unfold new_TextDecoder. rewrite decode_ascii.
- now rewrite complete_frames_stream.
- unfold stream_text. clear E P.
  induction frames as [|f more IH]; [reflexivity|].
  cbn [forallb] in A. apply andb_true_iff in A as [Af Am].
  cbn [map List.concat]. rewrite !forallb_app, Af, (IH Am). reflexivity.
Qed.

(** A frame that causes no write, such as one whose only data line is
    malformed, changes nothing for the frames around it. *)
Lemma silent_frame_is_local (process_frame : list Z -> list (list Z))
      (chunks before after : list (list Z)) (silent : list Z) :
  List.concat chunks = stream_text (before ++ silent :: after) ->
  forallb plain_frame (before ++ silent :: after) = true ->
  forallb (forallb is_ascii) (before ++ silent :: after) = true ->
  process_frame silent = [] ->
  pipe_with process_frame chunks
  = flat_map process_frame before ++ flat_map process_frame after.
Proof.
intros E P A S. rewrite (@pipe_with_frames process_frame chunks _ E P A).
rewrite flat_map_app. cbn [flat_map]. now rewrite S.
Qed.

(** Two frames with the deltas "Hi" and " there", cut at an arbitrary
    place, are written as "Hi" and " there" by both variants. *)
Example hi_there_writes :
  let body := stream_text [line_Hi; line_there] in
  let chunks := [firstn 50 body; skipn 50 body] in
  @Redact.pipeAnthropicSSEToPlainText reference_platform chunks
  = [js "Hi"; js " there"]
  /\ @Rebrand.pipeAnthropicSSEToPlainText reference_platform chunks
     = [js "Hi"; js " there"].
Proof. split; vm_compute; reflexivity. Qed.

(** C2, at the failing input.  One frame with two data lines, each a
    [content_block_delta]: the redact variant writes the first delta only;
    the rebrand variant writes both, in order, as the specification
    requires. *)
Theorem C2_redact_writes_first_data_line_only :
  @Redact.pipeAnthropicSSEToPlainText reference_platform [two_deltas]
  = [js "Hi"]
  /\ @Rebrand.pipeAnthropicSSEToPlainText reference_platform [two_deltas]
     = [js "Hi"; js " there"].
Proof. split; vm_compute; reflexivity. Qed.

(** C4, at the failing inputs.  In the redact variant, a frame with a
    malformed data line between two valid ones gives only the first delta,
    and a frame whose first data line is malformed gives nothing, although
    a valid delta follows it.  The rebrand variant skips the malformed line
    only. *)
Theorem C4_redact_malformed_line_drops_rest_of_frame :
  @Redact.pipeAnthropicSSEToPlainText reference_platform [malformed_between]
  = [js "Hi"]
  /\ @Redact.pipeAnthropicSSEToPlainText reference_platform [malformed_first]
     = []
  /\ @Rebrand.pipeAnthropicSSEToPlainText reference_platform [malformed_between]
     = [js "Hi"; js " there"]
  /\ @Rebrand.pipeAnthropicSSEToPlainText reference_platform [malformed_first]
     = [js " there"].
Proof. repeat split; vm_compute; reflexivity. Qed.

(* ================================================================== *)
(** * C10: the writes of one payload *)
(* ================================================================== *)

Lemma str_eqb_eq (a b : jsstring) : str_eqb a b = true <-> a = b.
Proof.
revert b; induction a as [|x a IH]; intros [|y b]; simpl; split; intros E;
  try discriminate; auto.
- apply andb_true_iff in E as [E1 E2]. apply Z.eqb_eq in E1. apply IH in E2.
  congruence.
- injection E as -> ->. rewrite Z.eqb_refl. simpl. now apply IH.
Qed.

Lemma is_string_eq (v : jsval) (lit : string) :
  is_string v lit = true <-> v = JStr (js lit).
Proof.
destruct v; simpl; split; intros E; try discriminate.
- apply str_eqb_eq in E. congruence.
- injection E as ->. now apply str_eqb_eq.
Qed.

(** C10.  A [content_block_delta] payload causes a write only when its
    [delta.text] is a non-empty string, and then exactly one, of the
    rewritten text; when [delta.text] is missing, not a string, or empty,
    nothing is written.  This holds for either rewriter. *)
Theorem C10_delta_text_gate (rewrite : jsstring -> jsstring) (payload : jsval) :
  is_string (get payload "type") "content_block_delta" = true ->
  match get (get payload "delta") "text" with
  | JStr (c :: s) => handle_payload rewrite payload = [rewrite (c :: s)]
  | _ => handle_payload rewrite payload = []
  end.
Proof.
intros T. unfold handle_payload. rewrite T.
apply is_string_eq in T. rewrite T. cbn [is_string].
replace (str_eqb (js "content_block_delta") (js "error")) with false
  by reflexivity.
rewrite app_nil_r.
destruct (get (get payload "delta") "text") as [| |b|n|[|c s]|l|m]; reflexivity.
Qed.

Lemma C10_delta_text_gate_witness :
  is_string (get sample_delta "type") "content_block_delta" = true
  /\ handle_payload Redact.enforceNoProviderLeak sample_delta
     = [Redact.enforceNoProviderLeak (js "Hi")].
Proof.
split.
- reflexivity.
- exact (C10_delta_text_gate Redact.enforceNoProviderLeak sample_delta eq_refl).
Defined.

(* ================================================================== *)
(** * C5: [normalizeMessages] *)
(* ================================================================== *)

Lemma normalize_loop_kept `{Platform} (input messages : list jsval)
      (out r : list message) :
  (forall x, In x messages -> In x input) ->
  Forall (kept_from input) out ->
  normalize_loop messages out = Returns r ->
  Forall (kept_from input) r.
Proof.
revert out; induction messages as [|m rest IH]; intros out Sub Hout;
  cbn [normalize_loop].
- intros E; injection E as <-. exact Hout.
- destruct (falsy m || _) eqn:Skip.
  + apply IH; auto. intros; apply Sub; now right.
  + apply orb_false_iff in Skip as [_ Role].
    destruct (safeString (get m "content") 12000) as [s|e] eqn:Es;
      cbn [bind]; [|discriminate].
    destruct (trim s) as [|c t] eqn:Et.
    * apply IH; auto. intros; apply Sub; now right.
    * apply IH; [intros; apply Sub; now right|].
      apply Forall_app; split; [exact Hout|]. constructor; [|constructor].
      exists m, s. cbn [role content].
      apply andb_false_iff in Role.
      rewrite !negb_false_iff in Role.
      assert (exists rl, get m "role" = JStr rl /\ (rl = js "user" \/ rl = js "assistant"))
        as (rl & Erl & Hrl).
      { destruct Role as [R|R]; apply is_string_eq in R; rewrite R; eauto. }
      rewrite Erl. repeat split; auto.
      -- apply Sub; now left.
      -- now rewrite Et.
      -- rewrite Et; discriminate.
Qed.

(** Whenever [normalizeMessages] returns, it returns [null] or a non-empty
    list of kept messages. *)
Lemma normalizeMessages_returns `{Platform} (messages : jsval)
      (r : option (list message)) :
  normalizeMessages messages = Returns r ->
  match r with
  | None => True
  | Some l =>
      l <> [] /\ exists input, messages = JArr input /\ Forall (kept_from input) l
  end.
Proof.
destruct messages; simpl; try (intros E; injection E as <-; exact I).
destruct (normalize_loop elements []) as [out|e] eqn:E; simpl; [|discriminate].
intros R; injection R as <-.
destruct out as [|m out]; [exact I|].
split; [discriminate|]. exists elements. split; [reflexivity|].
eapply normalize_loop_kept; eauto.
Qed.

Lemma join_elements_returns (print : jsval -> outcome (list Z)) (l : list jsval) :
  returns (join_elements print l) <-> Forall (fun e => returns (print e)) l.
Proof.
induction l as [|e tl IH]; cbn [join_elements].
- split; [constructor|intros _; eexists; reflexivity].
- rewrite Forall_cons_iff, <- IH.
  destruct (print e) as [s|x]; cbn [bind].
  + destruct tl as [|e' tl'].
    * split; [intros _; split; eexists; reflexivity|intros _; eexists; reflexivity].
    * destruct (join_elements print (e' :: tl')) as [r|x]; cbn [bind].
      -- split; [intros _; split; eexists; reflexivity|intros _; eexists; reflexivity].
      -- split; [intros [? ?]; discriminate|intros [_ [? ?]]; discriminate].
  + split; [intros [? ?]; discriminate|intros [[? ?] _]; discriminate].
Qed.

(** Induction on values, with the elements of an array as premises. *)
Lemma jsval_array_ind (P : jsval -> Prop) :
  P JUndefined -> P JNull -> (forall b, P (JBool b)) -> (forall n, P (JNum n)) ->
  (forall s, P (JStr s)) ->
  (forall elements, Forall P elements -> P (JArr elements)) ->
  (forall members, P (JObj members)) ->
  forall v, P v.
Proof.
intros Hu Hn Hb Hnum Hs Ha Ho.
exact (fix go (v : jsval) : P v :=
         match v with
         | JUndefined => Hu
         | JNull => Hn
         | JBool b => Hb b
         | JNum n => Hnum n
         | JStr s => Hs s
         | JArr elements =>
             Ha elements
                ((fix all (l : list jsval) : Forall P l :=
                    match l with
                    | [] => Forall_nil P
                    | x :: tl => Forall_cons x (go x) (all tl)
                    end) elements)
         | JObj members => Ho members
         end).
Qed.

(** The string coercion returns exactly on the printable values. *)
Lemma ToString_printable `{Platform} (v : jsval) :
  printable v = true <-> returns (ToString v).
Proof.
induction v as [| |b|n|s|elements IH|members] using jsval_array_ind;
  cbn [printable ToString];
  try (split; [intros _; eexists; reflexivity|reflexivity]).
- rewrite join_elements_returns, forallb_forall, Forall_forall.
  rewrite Forall_forall in IH.
  split; intros A e He; specialize (A e He); specialize (IH e He).
  + destruct e; try (eexists; reflexivity); now apply IH.
  + destruct e; try reflexivity; now apply IH.
- destruct (own_property (js "toString") members); split;
    try discriminate; try (intros [? ?]; discriminate);
    intros _; eexists; reflexivity.
Qed.

(** [normalizeMessages] returns on every input in which the content of
    each element is printable. *)
Lemma normalizeMessages_total `{Platform} (messages : jsval) :
  (forall l, messages = JArr l ->
             Forall (fun m => printable (get m "content") = true) l) ->
  returns (normalizeMessages messages).
Proof.
destruct messages; try (intros _; eexists; reflexivity).
intros A. specialize (A _ eq_refl). cbn [normalizeMessages].
assert (forall out, returns (normalize_loop elements out)) as L.
{ induction A as [|m rest Pm _ IH]; intros out; cbn [normalize_loop].
  - eexists; reflexivity.
  - destruct (falsy m || _); [apply IH|].
    unfold safeString.
    assert (printable (or_empty (get m "content")) = true) as Pc
      by (destruct (get m "content"); auto).
    apply ToString_printable in Pc as [s ->]. cbn [bind].
    destruct (trim _); apply IH. }
destruct (L []) as [out ->]. cbn [bind]. eexists; reflexivity.
Qed.

(** C5, at the failing input.  A message with role "user" whose content is
    an object with a member named [toString] makes the string coercion in
    [safeString] throw: [normalizeMessages] neither returns [null] nor a
    list, the element is not dropped silently, and the request is answered
    500 "Server error". *)
Theorem C5_unprintable_content_throws `{Platform} (rid : list Z)
        (reply : option upstream_response) :
  normalizeMessages (get unprintable_body "messages") = Throws TypeError
  /\ Redact.chat_stream rid unprintable_body reply fresh_world
     = (Returns tt, answered_500 rid TypeError)
  /\ Rebrand.chat_stream rid unprintable_body reply fresh_world
     = (Returns tt, answered_500 rid TypeError).
Proof. repeat split; reflexivity. Qed.

(* ================================================================== *)
(** * C7: numeric fields *)
(* ================================================================== *)

Lemma clamp_fin (q lo hi : Q) :
  (lo <= hi)%Q ->
  exists r, Math_min (Fin hi) (Math_max (Fin lo) (Fin q)) = Fin r
    /\ (lo <= r <= hi)%Q
    /\ ((lo <= q <= hi)%Q -> (r == q)%Q)
    /\ ((q < lo)%Q -> (r == lo)%Q)
    /\ ((hi < q)%Q -> (r == hi)%Q).
Proof.
intros L. unfold Math_max.
destruct (Qle_bool lo q) eqn:E1; unfold Math_min.
- apply Qle_bool_iff in E1.
  destruct (Qle_bool hi q) eqn:E2.
  + apply Qle_bool_iff in E2. exists hi. repeat split; intros; lra.
  + assert (q < hi)%Q.
    { apply Qnot_le_lt. intros C. apply Qle_bool_iff in C. congruence. }
    exists q. repeat split; intros; lra.
- assert (q < lo)%Q.
  { apply Qnot_le_lt. intros C. apply Qle_bool_iff in C. congruence. }
  destruct (Qle_bool hi lo) eqn:E2.
  + apply Qle_bool_iff in E2. exists hi. repeat split; intros; lra.
  + exists lo. repeat split; intros; lra.
Qed.

(** C7.  A finite numeric [temperature] is clamped into [0, 1] (and stays
    as it is when already inside); an infinite one goes to the nearer
    bound; NaN and every non-number give the default 0.3.  A finite numeric
    [max_tokens] is clamped into [64, 1500] and then floored to an integer;
    NaN and every non-number give the default 800.  In particular -5, 0.5,
    2 and "x" give 0, 0.5, 1 and 0.3 for [temperature]; 10, 500, 5000 and
    99.9 give 64, 500, 1500 and 99 for [max_tokens]; and "x", [null],
    [true], a missing field and a body that is not an object give 800. *)
Theorem C7_numeric_normalization :
  (forall body : jsval,
     match get body "temperature" with
     | JNum (Fin q) =>
         exists r, temperature_of body = Fin r
           /\ (0 <= r <= 1)%Q
           /\ ((0 <= q <= 1)%Q -> (r == q)%Q)
           /\ ((q < 0)%Q -> (r == 0)%Q)
           /\ ((1 < q)%Q -> (r == 1)%Q)
     | JNum (Infinity negative) =>
         temperature_of body = if negative then Fin 0 else Fin 1
     | _ => temperature_of body = Fin (3 # 10)
     end)
  /\ (forall body : jsval,
     match get body "max_tokens" with
     | JNum (Fin q) =>
         exists k : Z, max_tokens_of body = Fin (inject_Z k)
           /\ 64 <= k <= 1500
           /\ ((64 <= q <= 1500)%Q -> k = Qfloor q)
           /\ ((q < 64)%Q -> k = 64)
           /\ ((1500 < q)%Q -> k = 1500)
     | JNum (Infinity negative) =>
         max_tokens_of body = if negative then Fin 64 else Fin 1500
     | _ => max_tokens_of body = Fin 800
     end)
  /\ (temperature_of (body_with "temperature" (JNum (Fin (-5)))) = Fin 0
      /\ temperature_of (body_with "temperature" (JNum (Fin 0.5))) = Fin 0.5
      /\ temperature_of (body_with "temperature" (JNum (Fin 2))) = Fin 1
      /\ temperature_of (body_with "temperature" (JStr (js "x"))) = Fin 0.3
      /\ temperature_of (body_with "temperature" (JNum NaN)) = Fin 0.3
      /\ temperature_of (JObj []) = Fin 0.3
      /\ max_tokens_of (body_with "max_tokens" (JNum (Fin 10))) = Fin 64
      /\ max_tokens_of (body_with "max_tokens" (JNum (Fin 500))) = Fin 500
      /\ max_tokens_of (body_with "max_tokens" (JNum (Fin 5000))) = Fin 1500
      /\ max_tokens_of (body_with "max_tokens" (JNum (Fin 99.9))) = Fin 99
      /\ max_tokens_of (body_with "max_tokens" (JStr (js "x"))) = Fin 800
      /\ max_tokens_of (body_with "max_tokens" (JStr (js "1000"))) = Fin 800
      /\ max_tokens_of (body_with "max_tokens" JNull) = Fin 800
      /\ max_tokens_of (body_with "max_tokens" (JBool true)) = Fin 800
      /\ max_tokens_of (body_with "max_tokens" (JNum NaN)) = Fin 800
      /\ max_tokens_of (JObj []) = Fin 800
      /\ max_tokens_of JNull = Fin 800).
Proof.
split; [|split].
- intros body. unfold temperature_of.
  destruct (get body "temperature") as [| |b|[|neg|q]|s|l|m]; try reflexivity.
  + now destruct neg.
  + cbn [clampNumber]. apply clamp_fin. lra.
- intros body. unfold max_tokens_of.
  destruct (get body "max_tokens") as [| |b|[|neg|q]|s|l|m]; try reflexivity.
  + now destruct neg.
  + cbn [clampNumber].
    destruct (@clamp_fin q 64 1500) as (r & -> & R & Rin & Rlo & Rhi); [lra|].
    cbn [Math_floor]. exists (Qfloor r). split; [reflexivity|].
    assert (Qfloor 64 <= Qfloor r <= Qfloor 1500) as B.
    { split; apply Qfloor_resp_le; lra. }
    change (Qfloor 64) with 64 in B. change (Qfloor 1500) with 1500 in B.
    repeat split; try lia.
    * intros I. apply Qfloor_comp. auto.
    * intros I. rewrite (Qfloor_comp _ _ (Rlo I)). reflexivity.
    * intros I. rewrite (Qfloor_comp _ _ (Rhi I)). reflexivity.
- repeat split; reflexivity.
Qed.

Lemma C7_numeric_normalization_witness :
  (exists r, temperature_of (body_with "temperature" (JNum (Fin 0.25))) = Fin r
             /\ (r == 0.25)%Q)
  /\ (exists k : Z,
        max_tokens_of (body_with "max_tokens" (JNum (Fin 700.5))) = Fin (inject_Z k)
        /\ k = 700).
Proof.
split.
- pose proof (proj1 C7_numeric_normalization
                    (body_with "temperature" (JNum (Fin 0.25)))) as W.
  cbn in W. destruct W as (r & E & _ & I & _).
  exists r. split; [exact E|]. apply I. split; discriminate.
- pose proof (proj1 (proj2 C7_numeric_normalization)
                    (body_with "max_tokens" (JNum (Fin 700.5)))) as W.
  cbn in W. destruct W as (k & E & _ & I & _).
  exists k. split; [exact E|]. rewrite I; [reflexivity|]. split; discriminate.
Defined.

(* ================================================================== *)
(** * C8: no valid message *)
(* ================================================================== *)

(** C8.  When normalization yields no messages (in particular when
    [messages] is missing or is not a list), the handler answers status 400
    with the JSON body [{error: "Invalid messages format"}], logs nothing
    and makes no upstream call, in both variants. *)
Theorem C8_no_messages_is_400 `{Platform}
        (rid : list Z) (body : jsval) (reply : option upstream_response) :
  ((forall l, get (body_or_empty body) "messages" <> JArr l) ->
   normalizeMessages (get (body_or_empty body) "messages") = Returns None)
  /\ (normalizeMessages (get (body_or_empty body) "messages") = Returns None ->
      Redact.chat_stream rid body reply fresh_world = (Returns tt, answered_400)
      /\ Rebrand.chat_stream rid body reply fresh_world = (Returns tt, answered_400)).
Proof.
split.
- intros N. destruct (get (body_or_empty body) "messages"); try reflexivity.
  now destruct (N elements).
- intros E.
  unfold Redact.chat_stream, Rebrand.chat_stream, try_catch, mbind, lift.
  rewrite E. split; reflexivity.
Qed.

Lemma C8_no_messages_is_400_witness :
  @normalizeMessages reference_platform (get (body_or_empty (JObj [])) "messages")
  = Returns None
  /\ (@Redact.chat_stream reference_platform (js "r1") (JObj []) None fresh_world
      = (Returns tt, answered_400)
      /\ @Rebrand.chat_stream reference_platform (js "r1") (JObj []) None fresh_world
         = (Returns tt, answered_400)).
Proof.
split.
- reflexivity.
- apply (@C8_no_messages_is_400 reference_platform (js "r1") (JObj []) None).
  reflexivity.
Defined.

(* ================================================================== *)
(** * C3: upstream failure *)
(* ================================================================== *)

(** Whatever the request, once the stream has been opened a failed
    upstream call ends with the head already out under status 200. *)
Lemma upstream_failure_wire `{Platform}
      (process_frame : list Z -> list (list Z)) (rid : list Z)
      (rq : upstream_request) (u : upstream_response) :
  up_ok u = false \/ up_body u = None ->
  (open_stream ;;; call_upstream process_frame (Some u) rid rq)%M fresh_world
  = (Returns tt,
     mkWorld (mkRes 502 STREAM_HEADERS true wire_on_upstream_failure)
             [LogUpstream rid (up_status u)
                          (slice_to 5000 (match up_text u with Some t => t | None => [] end))]
             [rq]).
Proof.
intros F.
assert (match up_ok u, up_body u with
        | true, Some b => false | _, _ => true end = true) as G.
{ destruct F as [-> | ->]; [reflexivity|]. now destruct (up_ok u). }
unfold call_upstream, open_stream, mbind, fetch, fresh_world. cbn.
destruct (up_ok u), (up_body u); try discriminate; reflexivity.
Qed.

(** In both variants, for every request that reaches the upstream call and
    every upstream response that is not a success or has no body: one call
    was made, the upstream status and text (at most 5000 code units) are in
    the log, and the client has received status 200, the stream headers and
    "Upstream error". *)
Lemma Redact_upstream_failure `{Platform} (rid : list Z) (body : jsval)
      (normalized : list message) (s : list Z) (u : upstream_response) :
  normalizeMessages (get (body_or_empty body) "messages") = Returns (Some normalized) ->
  safeString (get (body_or_empty body) "system") 4000 = Returns s ->
  up_ok u = false \/ up_body u = None ->
  exists rq,
    Redact.chat_stream rid body (Some u) fresh_world
    = (Returns tt,
       mkWorld (mkRes 502 STREAM_HEADERS true wire_on_upstream_failure)
               [LogUpstream rid (up_status u)
                  (slice_to 5000 (match up_text u with Some t => t | None => [] end))]
               [rq]).
Proof.
intros En Es F. eexists.
unfold Redact.chat_stream, try_catch. unfold mbind at 1. unfold lift.
rewrite En. cbv beta iota. unfold mbind at 1. rewrite Es. cbv beta iota.
rewrite upstream_failure_wire by exact F. reflexivity.
Qed.

Lemma Rebrand_upstream_failure `{Platform} (rid : list Z) (body : jsval)
      (normalized : list message) (s : list Z) (u : upstream_response) :
  normalizeMessages (get (body_or_empty body) "messages") = Returns (Some normalized) ->
  Rebrand.isIdentityProbe normalized = false ->
  safeString (get (body_or_empty body) "system") 4000 = Returns s ->
  up_ok u = false \/ up_body u = None ->
  exists rq,
    Rebrand.chat_stream rid body (Some u) fresh_world
    = (Returns tt,
       mkWorld (mkRes 502 STREAM_HEADERS true wire_on_upstream_failure)
               [LogUpstream rid (up_status u)
                  (slice_to 5000 (match up_text u with Some t => t | None => [] end))]
               [rq]).
Proof.
intros En Ep Es F. eexists.
unfold Rebrand.chat_stream, try_catch. unfold mbind at 1. unfold lift.
rewrite En. cbv beta iota. rewrite Ep. unfold mbind at 1. rewrite Es.
cbv beta iota.
rewrite upstream_failure_wire by exact F. reflexivity.
Qed.

(** C3, at the failing input.  The request [hello_body] with an upstream
    that answers 503 without a body: the handler has already sent the head
    (status 200 with the three stream headers) when it calls [fetch], so
    [res.status(502)] only changes the property.  The client receives
    status 200, the stream headers and the body "Upstream error", where the
    specification says status 502 and no stream headers; the upstream
    status appears in the log only. *)
Theorem C3_upstream_failure_reaches_client_as_200 `{Platform} (rid : list Z) :
  let w1 := snd (Redact.chat_stream rid hello_body (Some upstream_503) fresh_world) in
  let w2 := snd (Rebrand.chat_stream rid hello_body (Some upstream_503) fresh_world) in
  wire (res w1) = wire_on_upstream_failure
  /\ wire (res w2) = wire_on_upstream_failure
  /\ statusCode (res w1) = 502
  /\ console w1 = [LogUpstream rid 503 []].
Proof. repeat split; reflexivity. Qed.

(* ================================================================== *)
(** * C6: identity probes *)
(* ================================================================== *)

Lemma last_text_snoc (earlier : list message) (r ty t : list Z) :
  Rebrand.last_text (earlier ++ [mkMessage r [mkBlock ty t]]) = t.
Proof. unfold Rebrand.last_text. rewrite rev_app_distr. reflexivity. Qed.

(** C6.  In the rebrand variant, when the text of the last normalized
    message matches the identity-probe pattern, the handler makes no
    upstream call and logs nothing, whatever the upstream would have
    answered, and the client receives status 200, the three headers of a
    plain-text stream and, as the whole body, exactly the sentence
    "I am <BRAND_MODEL>, made by <BRAND_MAKER>.", where the two names are
    the environment variables [BRAND_MODEL] and [BRAND_MAKER] when they are
    set and not empty, else "ClaudeX" and "M Alkindi". *)
Theorem C6_identity_probe_short_circuit `{Platform}
        (rid : list Z) (body : jsval) (reply : option upstream_response)
        (earlier : list message) (r t : list Z) :
  normalizeMessages (get (body_or_empty body) "messages")
  = Returns (Some (earlier ++ [mkMessage r [mkBlock (js "text") t]])) ->
  test true Rebrand.PROBE t = true ->
  let brand_model :=
    match env "BRAND_MODEL" with Some (c :: s) => c :: s | _ => js "ClaudeX" end in
  let brand_maker :=
    match env "BRAND_MAKER" with Some (c :: s) => c :: s | _ => js "M Alkindi" end in
  let headers :=
    [("Content-Type"%string, js "text/plain; charset=utf-8");
     ("Cache-Control"%string, js "no-cache, no-transform");
     ("X-Accel-Buffering"%string, js "no")] in
  Rebrand.chat_stream rid body reply fresh_world
  = (Returns tt,
     mkWorld (mkRes 200 headers true
                [WHead 200 headers;
                 WBody (js "I am " ++ brand_model ++ js ", made by "
                        ++ brand_maker ++ js ".");
                 WEnd])
             [] []).
Proof.
intros E P. cbv zeta.
unfold Rebrand.chat_stream, try_catch, mbind, lift.
rewrite E. cbv beta iota.
unfold Rebrand.isIdentityProbe. rewrite last_text_snoc, P.
reflexivity.
Qed.

Lemma C6_identity_probe_short_circuit_witness :
  @Rebrand.chat_stream reference_platform (js "r1") probe_body
    (Some (mkUp 200 (Some (mkBody [js "data: x"; [LF; LF]] false)) None))
    fresh_world
  = (Returns tt,
     mkWorld (mkRes 200 STREAM_HEADERS true
                [WHead 200 STREAM_HEADERS;
                 WBody (js "I am ClaudeX, made by M Alkindi.");
                 WEnd])
             [] []).
Proof.
apply (@C6_identity_probe_short_circuit reference_platform (js "r1") probe_body
         (Some (mkUp 200 (Some (mkBody [js "data: x"; [LF; LF]] false)) None))
         [mkMessage (js "user") [mkBlock (js "text") (js "Hi there")];
          mkMessage (js "assistant")
                    [mkBlock (js "text") (js "Hello! How can I help?")]]
         (js "user") (js "Tell me: What MODEL are you?")).
- vm_compute; reflexivity.
- vm_compute; reflexivity.
Defined.

(* ================================================================== *)
(** * C9: the redact rewriter *)
(* ================================================================== *)

Lemma rmatch_lit (w : list Z) (st : mstate) (k : mstate -> option mstate) :
  rmatch true (fold_right (fun c r => RSeq (RChar c) r) REmpty w) st k
  = if ci_prefix w (rest st) then k (adv (List.length w) st) else None.
Proof.
revert st; induction w as [|x w IH]; intros st; [reflexivity|].
cbn [fold_right rmatch ci_prefix].
destruct (rest st) as [|y s] eqn:E; [reflexivity|].
destruct (canonicalize true y =? canonicalize true x); [|reflexivity].
cbn [andb List.length adv]. rewrite IH.
assert (advance st = mkM (y :: before st) s (captures st)) as ->
  by (unfold advance; now rewrite E).
reflexivity.
Qed.

Lemma adv_rest (n : nat) (st : mstate) : rest (adv n st) = skipn n (rest st).
Proof.
revert st; induction n as [|n IH]; intros st; [reflexivity|].
cbn [adv]. rewrite IH. unfold advance.
destruct (rest st) as [|c s] eqn:E; cbn [rest skipn].
- rewrite E. now destruct n.
- reflexivity.
Qed.

Lemma adv_before (n : nat) (st : mstate) :
  (n <= List.length (rest st))%nat ->
  before (adv n st) = rev (firstn n (rest st)) ++ before st.
Proof.
revert st; induction n as [|n IH]; intros st L; [reflexivity|].
cbn [adv]. destruct (rest st) as [|c s] eqn:E; [simpl in L; lia|].
rewrite IH; unfold advance; rewrite E; cbn [rest before].
- cbn [firstn rev]. now rewrite <- app_assoc.
- simpl in L. lia.
Qed.

Lemma adv_captures (n : nat) (st : mstate) : captures (adv n st) = captures st.
Proof.
revert st; induction n as [|n IH]; intros st; [reflexivity|].
cbn [adv]. rewrite IH. unfold advance. now destruct (rest st).
Qed.

Lemma adv_add (n m : nat) (st : mstate) : adv (n + m) st = adv m (adv n st).
Proof.
revert st; induction n as [|n IH]; intros st; [reflexivity|].
cbn [Nat.add adv]. apply IH.
Qed.

Lemma rmatch_star (r1 : regex) (st : mstate) (k : mstate -> option mstate) :
  rmatch true (RStar r1) st k = star_iter r1 k (List.length (rest st)) st.
Proof. reflexivity. Qed.

Lemma progressed_advance (st : mstate) (c : Z) (s : list Z) :
  rest st = c :: s -> progressed st (advance st) = true.
Proof.
intros E. unfold progressed, advance. rewrite E. cbn [rest List.length].
apply Nat.ltb_lt. lia.
Qed.

Lemma rest_advance (st : mstate) : rest (advance st) = tl (rest st).
Proof. unfold advance. destruct (rest st) eqn:E; [now rewrite E|reflexivity]. Qed.

Lemma star_class (negated : bool) (items : list class_item)
      (k : mstate -> option mstate) (fuel : nat) (st : mstate) :
  (run_length (class_pred negated items) (rest st) <= fuel)%nat ->
  star_iter (RClass negated items) k fuel st
  = greedy k (run_length (class_pred negated items) (rest st)) st.
Proof.
revert st; induction fuel as [|fuel IH]; intros st L.
- assert (run_length (class_pred negated items) (rest st) = 0%nat) as -> by lia.
  reflexivity.
- cbn [star_iter rmatch].
  destruct (rest st) as [|ch s] eqn:E; [reflexivity|].
  cbn [run_length] in *. fold (class_pred negated items ch).
  destruct (class_pred negated items ch); [|reflexivity].
  rewrite (progressed_advance st E).
  change ((fix iterate (fuel0 : nat) (st0 : mstate) {struct fuel0} : option mstate :=
             match fuel0 with
             | 0%nat => k st0
             | S fuel' =>
                 match rmatch true (RClass negated items) st0
                         (fun st' => if progressed st0 st'
                                     then iterate fuel' st' else None) with
                 | Some e => Some e
                 | None => k st0
                 end
             end) fuel (advance st))
    with (star_iter (RClass negated items) k fuel (advance st)).
  rewrite IH; rewrite rest_advance, E; cbn [tl]; [reflexivity|lia].
Qed.

Lemma run_length_le (p : Z -> bool) (s : list Z) :
  (run_length p s <= List.length s)%nat.
Proof. induction s as [|c s IH]; simpl; [lia|]. destruct (p c); simpl; lia. Qed.

Lemma rmatch_star_class (negated : bool) (items : list class_item)
      (st : mstate) (k : mstate -> option mstate) :
  rmatch true (RStar (RClass negated items)) st k
  = greedy k (run_length (class_pred negated items) (rest st)) st.
Proof. rewrite rmatch_star. apply star_class. apply run_length_le. Qed.

Lemma rmatch_opt_class (negated : bool) (items : list class_item)
      (st : mstate) (k : mstate -> option mstate) :
  rmatch true (ROpt (RClass negated items)) st k
  = match rest st with
    | ch :: _ =>
        if class_pred negated items ch
        then match k (advance st) with Some e => Some e | None => k st end
        else k st
    | [] => k st
    end.
Proof.
cbn [rmatch]. destruct (rest st) as [|ch s] eqn:E; [reflexivity|].
fold (class_pred negated items ch).
destruct (class_pred negated items ch); [|reflexivity].
now rewrite (progressed_advance st E).
Qed.

(** With a continuation that always accepts, the longest run wins. *)
Lemma greedy_total (k : mstate -> option mstate) (n : nat) (st : mstate) :
  (forall s, k s <> None) -> greedy k n st = k (adv n st).
Proof.
intros T. revert st; induction n as [|n IH]; intros st; [reflexivity|].
cbn [greedy adv]. rewrite IH. destruct (k (adv n (advance st))) eqn:E; [reflexivity|].
now apply T in E.
Qed.

(** Alternatives that are literal words, followed by one more alternative:
    the first word that stands here and lets the continuation succeed wins. *)
Lemma rmatch_alts (ws : list (list Z)) (r : regex) (st : mstate)
      (k : mstate -> option mstate) :
  rmatch true (RAlts (map lit ws ++ [r])) st k
  = match first_some (fun w => if ci_prefix w (rest st)
                               then k (adv (List.length w) st) else None) ws with
    | Some e => Some e
    | None => rmatch true r st k
    end.
Proof.
induction ws as [|w ws IH]; [reflexivity|].
cbn [map app first_some].
replace (RAlts (lit w :: map lit ws ++ [r]))
  with (RAlt (lit w) (RAlts (map lit ws ++ [r])))
  by (cbn [RAlts]; now destruct (map lit ws ++ [r]) eqn:E;
      [destruct (map lit ws); discriminate|]).
cbn [rmatch]. unfold lit at 1. rewrite rmatch_lit, IH.
destruct (ci_prefix w (rest st)); [|reflexivity].
now destruct (k (adv (List.length w) st)).
Qed.

Lemma first_some_find {A B : Type} (p : A -> bool) (g : A -> B) (l : list A) :
  first_some (fun x => if p x then Some (g x) else None) l
  = option_map g (find p l).
Proof.
induction l as [|x l IH]; [reflexivity|]. cbn [first_some find].
destruct (p x); [reflexivity|exact IH].
Qed.

Lemma first_some_ext {A B : Type} (f g : A -> option B) (l : list A) :
  Forall (fun x => f x = g x) l -> first_some f l = first_some g l.
Proof.
induction 1 as [|x l E _ IH]; [reflexivity|]. cbn [first_some]. now rewrite E, IH.
Qed.

Lemma in_range_spec (lo hi c : Z) : in_range lo hi c = true <-> lo <= c <= hi.
Proof. unfold in_range. rewrite andb_true_iff, !Z.leb_le. tauto. Qed.

Lemma is_word_char_spec (c : Z) :
  is_word_char c = true
  <-> (97 <= c <= 122 \/ 65 <= c <= 90 \/ 48 <= c <= 57 \/ c = 95).
Proof.
unfold is_word_char, is_digit.
rewrite !orb_true_iff, !in_range_spec, Z.eqb_eq. tauto.
Qed.

Lemma canonicalize_cases (c : Z) :
  (97 <= c <= 122 /\ canonicalize true c = c - 32)
  \/ (~ 97 <= c <= 122 /\ canonicalize true c = c).
Proof.
unfold canonicalize. cbn [andb].
destruct (in_range 97 122 c) eqn:E.
- left. apply in_range_spec in E. tauto.
- right. split; [|reflexivity]. intros C. apply in_range_spec in C. congruence.
Qed.

Lemma canonical_word (x y : Z) :
  canonicalize true y = canonicalize true x ->
  is_word_char x = true -> is_word_char y = true.
Proof.
rewrite !is_word_char_spec.
destruct (canonicalize_cases x) as [[? ->]|[? ->]];
  destruct (canonicalize_cases y) as [[? ->]|[? ->]]; lia.
Qed.

Lemma ci_prefix_word_at (w s : list Z) (i : nat) (x : Z) :
  ci_prefix w s = true -> nth_error w i = Some x ->
  is_word_char x = true -> word_at i s = true.
Proof.
revert s i; induction w as [|a w IH]; intros s i P N W.
- now destruct i.
- destruct s as [|b s]; [discriminate|]. cbn [ci_prefix] in P.
  apply andb_true_iff in P as [P1 P2]. apply Z.eqb_eq in P1.
  destruct i as [|i]; cbn [nth_error] in N.
  + injection N as ->. unfold word_at. cbn [nth_error].
    eapply canonical_word; eauto.
  + unfold word_at. cbn [nth_error]. now apply (IH s i).
Qed.

Lemma ci_prefix_length (w s : list Z) :
  ci_prefix w s = true -> (List.length w <= List.length s)%nat.
Proof.
revert s; induction w as [|a w IH]; intros s P; [simpl; lia|].
destruct s as [|b s]; [discriminate|]. cbn [ci_prefix] in P.
apply andb_true_iff in P as [_ P]. apply IH in P. simpl. lia.
Qed.

Lemma word_after_adv (i : nat) (st : mstate) :
  word_after (adv i st) = word_at i (rest st).
Proof.
unfold word_after, word_at. rewrite adv_rest.
revert i; induction (rest st) as [|c s IH]; intros [|i]; try reflexivity.
cbn [skipn nth_error]. apply IH.
Qed.

Lemma hd_rev_firstn (i : nat) (s l : list Z) :
  (i < List.length s)%nat ->
  match rev (firstn (S i) s) ++ l with
  | c :: _ => is_word_char c
  | [] => false
  end = word_at i s.
Proof.
revert i l; induction s as [|c s IH]; intros i l L; [simpl in L; lia|].
destruct i as [|i].
- reflexivity.
- change (firstn (S (S i)) (c :: s)) with (c :: firstn (S i) s).
  cbn [rev]. rewrite <- app_assoc.
  change (word_at (S i) (c :: s)) with (word_at i s).
  apply IH. simpl in L. lia.
Qed.

Lemma word_before_adv (i : nat) (st : mstate) :
  (1 <= i <= List.length (rest st))%nat ->
  word_before (adv i st) = word_at (i - 1) (rest st).
Proof.
intros L. unfold word_before. rewrite adv_before by lia.
destruct i as [|i]; [lia|].
replace (S i - 1)%nat with i by lia. apply hd_rev_firstn. lia.
Qed.

Lemma advance_recap (c : list (nat * list Z)) (st : mstate) :
  advance (recap c st) = recap c (advance st).
Proof.
unfold advance, recap. cbn [rest before captures].
destruct (rest st) eqn:E; cbn [rest before captures]; now rewrite ?E.
Qed.

Lemma adv_recap (n : nat) (c : list (nat * list Z)) (st : mstate) :
  adv n (recap c st) = recap c (adv n st).
Proof.
revert st; induction n as [|n IH]; intros st; [reflexivity|].
cbn [adv]. now rewrite advance_recap, IH.
Qed.

Lemma rmatch_seq (a b : regex) (st : mstate) (k : mstate -> option mstate) :
  rmatch true (RSeq a b) st k = rmatch true a st (fun st' => rmatch true b st' k).
Proof. reflexivity. Qed.

Lemma rmatch_wordb (st : mstate) (k : mstate -> option mstate) :
  rmatch true RWordB st k
  = if xorb (word_before st) (word_after st) then k st else None.
Proof. reflexivity. Qed.

Lemma rmatch_group (n : nat) (r : regex) (st : mstate)
      (k : mstate -> option mstate) :
  rmatch true (RGroup n r) st k
  = rmatch true r st
      (fun st' => k (recap ((n, consumed_between st st') :: captures st') st')).
Proof. reflexivity. Qed.

Lemma run_length_ext (p q : Z -> bool) (s : list Z) :
  (forall c, p c = q c) -> run_length p s = run_length q s.
Proof.
intros E. induction s as [|c s IH]; [reflexivity|].
cbn [run_length]. now rewrite E, IH.
Qed.

Lemma canonical_not_letter (c ch : Z) :
  in_range 97 122 c = false -> in_range 65 90 c = false ->
  (canonicalize true c =? canonicalize true ch) = (ch =? c).
Proof.
intros A B.
assert (~ 97 <= c <= 122) by (intros C; apply in_range_spec in C; congruence).
assert (~ 65 <= c <= 90) by (intros C; apply in_range_spec in C; congruence).
destruct (canonicalize_cases c) as [[? ->]|[? ->]]; [lia|].
destruct (canonicalize_cases ch) as [[? ->]|[? ->]];
  destruct (Z.eqb_spec ch c); try (apply Z.eqb_eq; lia); apply Z.eqb_neq; lia.
Qed.

Lemma stop_class (negated : bool) (ch : Z) :
  class_pred negated STOP_CLASS ch = xorb negated (is_stop ch).
Proof.
unfold class_pred, STOP_CLASS, is_stop. cbn [existsb class_item_matches].
rewrite !canonical_not_letter by reflexivity. now rewrite orb_false_r.
Qed.

Lemma attribution_tail (s : mstate) :
  rmatch true ATTRIBUTION_TAIL s Some
  = if xorb (word_before s) (word_after s) then Some (clause_end s) else None.
Proof.
unfold ATTRIBUTION_TAIL.
rewrite rmatch_seq, rmatch_wordb.
destruct (xorb (word_before s) (word_after s)); [|reflexivity].
rewrite rmatch_seq, rmatch_star_class.
rewrite greedy_total.
- rewrite rmatch_opt_class. unfold clause_end.
  rewrite (run_length_ext (class_pred true STOP_CLASS) (fun c => negb (is_stop c)))
    by (intros; now rewrite stop_class).
  destruct (rest (adv _ s)) as [|ch t]; [reflexivity|].
  rewrite stop_class. cbn [xorb]. now destruct (is_stop ch).
- intros s'. rewrite rmatch_opt_class.
  destruct (rest s') as [|ch t]; [discriminate|].
  destruct (class_pred false STOP_CLASS ch); discriminate.
Qed.

Lemma pattern_word_boundary (w : list Z) (done todo : list Z)
      (c : list (nat * list Z)) :
  pattern_word w -> ci_prefix w todo = true ->
  let e := recap c (adv (List.length w) (start_state done todo)) in
  xorb (word_before e) (word_after e) = negb (word_at (List.length w) todo)
  /\ word_at 0 todo = true.
Proof.
intros (a & z & Na & Wa & Nz & Wz) P e.
pose proof (ci_prefix_length _ _ P) as L.
assert (1 <= List.length w)%nat as L1 by (destruct w; [discriminate|simpl; lia]).
split.
- assert (word_before e = word_before (adv (List.length w) (start_state done todo))) as ->
    by reflexivity.
  assert (word_after e = word_after (adv (List.length w) (start_state done todo))) as ->
    by reflexivity.
  rewrite word_before_adv, word_after_adv by (cbn [rest start_state]; lia).
  cbn [rest start_state].
  now rewrite (ci_prefix_word_at _ _ _ P Nz Wz).
- exact (ci_prefix_word_at _ _ _ P Na Wa).
Qed.

Lemma pos_recap (c : list (nat * list Z)) (st : mstate) : pos (recap c st) = pos st.
Proof. reflexivity. Qed.

Lemma advance_adv (n : nat) (st : mstate) : advance (adv n st) = adv (n + 1) st.
Proof. now rewrite adv_add. Qed.

Lemma pos_clause_end (w done todo : list Z) (c : list (nat * list Z)) :
  pos (clause_end (recap c (adv (List.length w) (start_state done todo))))
  = pos (adv (clause_length w todo) (start_state done todo)).
Proof.
unfold clause_end, clause_length.
set (st0 := start_state done todo).
assert (rest (recap c (adv (List.length w) st0)) = skipn (List.length w) todo) as ->
  by (cbn [recap rest]; now rewrite adv_rest).
set (d := run_length _ _).
rewrite adv_recap, <- adv_add.
assert (rest (recap c (adv (List.length w + d) st0)) = skipn (List.length w + d) todo) as ->
  by (cbn [recap rest]; now rewrite adv_rest).
destruct (skipn (List.length w + d) todo) as [|ch t].
- now rewrite Nat.add_0_r.
- destruct (is_stop ch).
  + now rewrite advance_recap, advance_adv.
  + now rewrite Nat.add_0_r.
Qed.

Lemma ATTRIBUTION_shape :
  Redact.ATTRIBUTION
  = RSeq RWordB
      (RSeq (RGroup 1 (RAlts (map lit (removelast ATTRIBUTION_PHRASES)
                              ++ [lit (last ATTRIBUTION_PHRASES [])])))
            ATTRIBUTION_TAIL).
Proof. reflexivity. Qed.

Lemma ATTRIBUTION_PHRASES_words : Forall pattern_word ATTRIBUTION_PHRASES.
Proof.
repeat constructor; eexists _, _; cbn; repeat split; reflexivity.
Qed.

Lemma first_some_snoc {A B : Type} (f : A -> option B) (l : list A) (x : A) :
  match first_some f l with Some e => Some e | None => f x end
  = first_some f (l ++ [x]).
Proof.
induction l as [|y l IH]; cbn [first_some app].
- now destruct (f x).
- destruct (f y); [reflexivity|exact IH].
Qed.

Lemma find_some_in {A : Type} (p : A -> bool) (l : list A) (x : A) :
  find p l = Some x -> In x l /\ p x = true.
Proof. apply find_some. Qed.

(** The pattern [ATTRIBUTION] matches exactly the clauses that
    [attribution_clause] describes. *)
Lemma match_attribution (done todo : list Z) :
  option_map pos (match_here true Redact.ATTRIBUTION done todo)
  = option_map (fun n => pos (adv n (start_state done todo)))
               (attribution_clause done todo).
Proof.
unfold match_here. fold (start_state done todo).
set (st0 := start_state done todo).
rewrite ATTRIBUTION_shape, rmatch_seq, rmatch_wordb.
rewrite rmatch_seq, rmatch_group, rmatch_alts.
unfold lit. rewrite rmatch_lit.
set (F := fun w : list Z =>
            if ci_prefix w (rest st0)
            then rmatch true ATTRIBUTION_TAIL
                   (recap ((1%nat, consumed_between st0 (adv (List.length w) st0))
                           :: captures (adv (List.length w) st0))
                          (adv (List.length w) st0)) Some
            else None).
change (match first_some _ (removelast ATTRIBUTION_PHRASES) with
        | Some e => Some e
        | None => _
        end)
  with (match first_some F (removelast ATTRIBUTION_PHRASES) with
        | Some e => Some e
        | None => F (last ATTRIBUTION_PHRASES [])
        end).
rewrite first_some_snoc.
change (removelast ATTRIBUTION_PHRASES ++ [last ATTRIBUTION_PHRASES []])
  with ATTRIBUTION_PHRASES.
(* each phrase: the continuation is the boundary test and the clause end *)
rewrite (first_some_ext F
           (fun w => if word_here w todo
                     then Some (clause_end
                                  (recap ((1%nat, consumed_between st0 (adv (List.length w) st0))
                                          :: captures (adv (List.length w) st0))
                                         (adv (List.length w) st0)))
                     else None)).
2:{ eapply Forall_impl; [|exact ATTRIBUTION_PHRASES_words].
    intros w W. unfold F, word_here, st0. cbn [rest start_state].
    destruct (ci_prefix w todo) eqn:P; [|reflexivity].
    rewrite attribution_tail.
    destruct (@pattern_word_boundary w done todo
                ((1%nat, consumed_between (start_state done todo)
                           (adv (List.length w) (start_state done todo)))
                 :: captures (adv (List.length w) (start_state done todo))) W P)
      as [-> _].
    reflexivity. }
rewrite first_some_find.
unfold attribution_clause.
assert (word_before st0 = after_word_char done) as -> by reflexivity.
assert (word_after st0 = word_at 0 todo) as ->
  by (unfold word_at, word_after; cbn [st0 start_state rest]; now destruct todo).
destruct (find (fun w => word_here w todo) ATTRIBUTION_PHRASES) as [w|] eqn:Fd.
- apply find_some_in in Fd as [In_w Hw].
  unfold word_here in Hw. apply andb_true_iff in Hw as [P _].
  pose proof (proj1 (Forall_forall _ _) ATTRIBUTION_PHRASES_words w In_w) as W.
  destruct (@pattern_word_boundary w done todo [] W P) as [_ ->].
  destruct (after_word_char done); [reflexivity|].
  cbn [xorb option_map]. unfold st0. now rewrite pos_clause_end.
- now destruct (xorb _ _), (after_word_char done).
Qed.

Lemma boundary_k_adv (c : mstate -> list (nat * list Z)) (done todo : list Z)
      (i : nat) :
  (1 <= i <= List.length todo)%nat ->
  option_map pos (boundary_k c (adv i (start_state done todo)))
  = if boundary_at i todo then Some (pos (adv i (start_state done todo))) else None.
Proof.
intros L. unfold boundary_k. rewrite rmatch_wordb.
set (s := adv i (start_state done todo)).
assert (word_before (recap (c s) s) = word_before s) as -> by reflexivity.
assert (word_after (recap (c s) s) = word_after s) as -> by reflexivity.
unfold s. rewrite word_before_adv, word_after_adv by (cbn [rest start_state]; lia).
cbn [rest start_state]. fold (boundary_at i todo).
now destruct (boundary_at i todo).
Qed.

Lemma option_map_orelse {A B : Type} (f : A -> B) (x y : option A) :
  option_map f (match x with Some e => Some e | None => y end)
  = match option_map f x with Some p => Some p | None => option_map f y end.
Proof. now destruct x. Qed.

Lemma greedy_boundary (c : mstate -> list (nat * list Z)) (done todo : list Z)
      (n i : nat) :
  (1 <= i)%nat -> (i + n <= List.length todo)%nat ->
  option_map pos (greedy (boundary_k c) n (adv i (start_state done todo)))
  = option_map (fun j => pos (adv j (start_state done todo)))
               (longest_boundary todo i n).
Proof.
revert i; induction n as [|n IH]; intros i L1 L2.
- cbn [greedy longest_boundary]. rewrite boundary_k_adv by lia.
  now destruct (boundary_at i todo).
- cbn [greedy longest_boundary].
  rewrite option_map_orelse, advance_adv.
  replace (i + 1)%nat with (S i) by lia.
  rewrite IH by lia.
  destruct (longest_boundary todo (S i) n); [reflexivity|].
  cbn [option_map]. rewrite boundary_k_adv by lia.
  now destruct (boundary_at i todo).
Qed.

Lemma separator_class (ch : Z) :
  class_pred false SEPARATOR_CLASS ch = is_separator ch.
Proof.
unfold class_pred, SEPARATOR_CLASS, is_separator.
cbn [existsb class_item_matches xorb].
rewrite canonical_not_letter by reflexivity. now rewrite orb_false_r.
Qed.

Lemma digit_class (ch : Z) : class_pred false DIGIT_CLASS ch = is_digit ch.
Proof.
unfold class_pred, DIGIT_CLASS. cbn [existsb class_item_matches xorb].
now rewrite orb_false_r.
Qed.

Lemma skipn_length_le (n : nat) (s t : list Z) :
  skipn n s = t -> (n <= List.length s)%nat -> (n + List.length t = List.length s)%nat.
Proof. intros <- L. rewrite length_skipn. lia. Qed.

Lemma gpt_tail (c : mstate -> list (nat * list Z)) (done todo : list Z) :
  (3 <= List.length todo)%nat ->
  option_map pos (rmatch true GPT_TAIL (adv 3 (start_state done todo)) (boundary_k c))
  = option_map (fun j => pos (adv j (start_state done todo))) (gpt_mention todo).
Proof.
intros L. unfold GPT_TAIL, gpt_mention.
set (st0 := start_state done todo).
rewrite rmatch_seq, rmatch_opt_class.
rewrite adv_rest. cbn [rest st0 start_state].
assert (forall i, (i <= List.length todo)%nat ->
          option_map pos (rmatch true (RStar (RClass false DIGIT_CLASS))
                            (adv i st0) (boundary_k c))
          = option_map pos (greedy (boundary_k c)
                              (run_length is_digit (skipn i todo)) (adv i st0)))
  as Star.
{ intros i Li. rewrite rmatch_star_class, adv_rest. cbn [rest st0 start_state].
  now rewrite (run_length_ext (class_pred false DIGIT_CLASS) is_digit)
    by apply digit_class. }
pose proof (run_length_le is_digit (skipn 3 todo)) as R3.
rewrite length_skipn in R3.
destruct (skipn 3 todo) as [|ch t] eqn:E.
- rewrite Star by lia. rewrite E. unfold st0. rewrite greedy_boundary; [reflexivity|lia|].
  cbn [run_length]. lia.
- rewrite separator_class.
  pose proof (@skipn_length_le 3 todo _ E L) as Lt. cbn [List.length] in Lt.
  assert (skipn 4 todo = t) as E4.
  { change 4%nat with (1 + 3)%nat. rewrite <- skipn_skipn, E. reflexivity. }
  assert (option_map pos (rmatch true (RStar (RClass false DIGIT_CLASS))
                            (adv 3 st0) (boundary_k c))
          = option_map (fun j => pos (adv j st0))
                       (longest_boundary todo 3 (run_length is_digit (ch :: t)))) as Plain.
  { rewrite Star by lia. rewrite E. unfold st0. apply greedy_boundary; lia. }
  destruct (is_separator ch); [|exact Plain].
  rewrite option_map_orelse, advance_adv. change (3 + 1)%nat with 4%nat.
  rewrite Star by lia. rewrite E4.
  pose proof (run_length_le is_digit t).
  unfold st0 at 1. rewrite greedy_boundary by lia.
  destruct (longest_boundary todo 4 (run_length is_digit t)); [reflexivity|].
  exact Plain.
Qed.

Lemma VENDOR_shape :
  Redact.VENDOR
  = RSeq RWordB
      (RSeq (RGroup 1 (RAlts (map lit VENDOR_NAMES
                              ++ [RSeq (lit (js "GPT")) GPT_TAIL])))
            RWordB).
Proof. reflexivity. Qed.

Lemma VENDOR_NAMES_words : Forall pattern_word VENDOR_NAMES.
Proof.
repeat constructor; eexists _, _; cbn; repeat split; reflexivity.
Qed.

Lemma option_map_first_some {A B C : Type} (g : B -> C) (f : A -> option B)
      (l : list A) :
  option_map g (first_some f l) = first_some (fun x => option_map g (f x)) l.
Proof.
induction l as [|x l IH]; [reflexivity|]. cbn [first_some].
destruct (f x); [reflexivity|exact IH].
Qed.

Lemma pattern_word_boundary_at (w todo : list Z) :
  pattern_word w -> ci_prefix w todo = true ->
  boundary_at (List.length w) todo = negb (word_at (List.length w) todo)
  /\ word_at 0 todo = true
  /\ (1 <= List.length w <= List.length todo)%nat.
Proof.
intros (a & z & Na & Wa & Nz & Wz) P.
pose proof (ci_prefix_length _ _ P) as L.
assert (1 <= List.length w)%nat as L1 by (destruct w; [discriminate|simpl; lia]).
repeat split; try lia.
- unfold boundary_at. now rewrite (ci_prefix_word_at _ _ _ P Nz Wz).
- exact (ci_prefix_word_at _ _ _ P Na Wa).
Qed.

(** The pattern [VENDOR] matches exactly the mentions that
    [vendor_mention] describes. *)
Lemma match_vendor (done todo : list Z) :
  option_map pos (match_here true Redact.VENDOR done todo)
  = option_map (fun n => pos (adv n (start_state done todo)))
               (vendor_mention done todo).
Proof.
unfold match_here. fold (start_state done todo).
rewrite VENDOR_shape, rmatch_seq, rmatch_wordb.
rewrite rmatch_seq, rmatch_group.
change (fun st' : mstate =>
          rmatch true RWordB
            (recap ((1%nat, consumed_between (start_state done todo) st')
                    :: captures st') st') Some)
  with (boundary_k (group1 (start_state done todo))).
rewrite rmatch_alts, rmatch_seq. unfold lit at 1. rewrite rmatch_lit.
change (rest (start_state done todo)) with todo.
assert (word_before (start_state done todo) = after_word_char done) as -> by reflexivity.
assert (word_after (start_state done todo) = word_at 0 todo) as ->
  by (unfold word_at, word_after; cbn [start_state rest]; now destruct todo).
set (c := group1 (start_state done todo)).
(* the four names *)
assert (option_map pos
          (first_some (fun w => if ci_prefix w todo
                                then boundary_k c (adv (List.length w) (start_state done todo))
                                else None) VENDOR_NAMES)
        = option_map (fun w => pos (adv (List.length w) (start_state done todo)))
                     (find (fun w => word_here w todo) VENDOR_NAMES)) as Names.
{ rewrite option_map_first_some, <- first_some_find.
  apply first_some_ext.
  eapply Forall_impl; [|exact VENDOR_NAMES_words].
  intros w W. unfold word_here.
  destruct (ci_prefix w todo) eqn:P; [|reflexivity].
  destruct (@pattern_word_boundary_at w todo W P) as (B & _ & L).
  rewrite boundary_k_adv by lia. rewrite B. cbn [andb].
  now destruct (word_at (List.length w) todo). }
unfold vendor_mention.
destruct (find (fun w => word_here w todo) VENDOR_NAMES) as [w|] eqn:Fd.
- apply find_some_in in Fd as [In_w Hw].
  unfold word_here in Hw. apply andb_true_iff in Hw as [P _].
  pose proof (proj1 (Forall_forall _ _) VENDOR_NAMES_words w In_w) as W.
  destruct (@pattern_word_boundary_at w todo W P) as (_ & -> & _).
  destruct (after_word_char done); [reflexivity|].
  change (xorb false true) with true. cbv iota.
  rewrite option_map_orelse, Names. reflexivity.
- destruct (ci_prefix (js "GPT") todo) eqn:G.
  + assert (pattern_word (js "GPT")) as W
      by (eexists _, _; cbn; repeat split; reflexivity).
    destruct (@pattern_word_boundary_at (js "GPT") todo W G) as (_ & -> & L).
    change (List.length (js "GPT")) with 3%nat in *.
    destruct (after_word_char done); [reflexivity|].
    change (xorb false true) with true. cbv iota.
    rewrite option_map_orelse, Names. cbn [option_map].
    apply gpt_tail. lia.
  + destruct (xorb _ _), (after_word_char done); try reflexivity;
      rewrite option_map_orelse, Names; reflexivity.
Qed.

Lemma rewrite_skip (occ : list Z -> list Z -> option nat) (rep : list Z)
      (k : nat) (before s : list Z) :
  (k <= List.length s)%nat ->
  rewrite_occurrences occ rep k before s
  = rewrite_occurrences occ rep 0 (rev (firstn k s) ++ before) (skipn k s).
Proof.
revert before s; induction k as [|k IH]; intros before s L; [reflexivity|].
destruct s as [|c s]; [simpl in L; lia|].
cbn [rewrite_occurrences firstn skipn rev]. rewrite IH by (simpl in L; lia).
now rewrite <- app_assoc.
Qed.

Lemma substitution_plain (ncaps : nat) (st e : mstate) (template : list Z) :
  Forall (fun c => c <> 36) template ->
  substitution ncaps st e template = template.
Proof.
induction 1 as [|c t Hc _ IH]; [reflexivity|].
cbn [substitution]. destruct (Z.eqb_spec c 36); [contradiction|].
cbn [negb]. now rewrite IH.
Qed.

Section Replace.

Variable r : regex.
Variable occ : list Z -> list Z -> option nat.
Variable ncaps : nat.
Variable template : list Z.

Hypothesis match_occ : forall done todo,
  option_map pos (match_here true r done todo)
  = option_map (fun n => pos (adv n (start_state done todo))) (occ done todo).
Hypothesis occ_bounds : forall done todo n,
  occ done todo = Some n -> (1 <= n <= List.length todo)%nat.
Hypothesis plain : Forall (fun c => c <> 36) template.

Lemma replace_from_occurrences (fuel : nat) (done todo : list Z) :
  (List.length todo < fuel)%nat ->
  replace_from true fuel r ncaps template done todo
  = rewrite_occurrences occ template 0 done todo.
Proof.
revert done todo; induction fuel as [|fuel IH]; intros done todo L; [lia|].
cbn [replace_from].
pose proof (match_occ done todo) as M.
destruct (match_here true r done todo) as [e|] eqn:Em;
  destruct (occ done todo) as [n|] eqn:Eo; try discriminate.
- pose proof (occ_bounds _ _ Eo) as Bn || pose proof (occ_bounds Eo) as Bn.
  cbn [option_map] in M. injection M as Mb Mr.
  rewrite adv_before in Mb by (cbn [rest start_state]; lia).
  rewrite adv_rest in Mr. cbn [rest before start_state] in Mb, Mr.
  rewrite substitution_plain by exact plain.
  assert (progressed (mkM done todo []) e = true) as ->.
  { unfold progressed. cbn [rest]. rewrite Mr, length_skipn.
    apply Nat.ltb_lt. lia. }
  rewrite Mb, Mr.
  rewrite IH by (rewrite length_skipn; lia).
  destruct todo as [|c s]; [simpl in Bn; lia|].
  destruct n as [|n]; [lia|].
  cbn [rewrite_occurrences]. rewrite Eo.
  rewrite (@rewrite_skip occ template n (c :: done) s) by (simpl in Bn; lia).
  cbn [firstn skipn rev]. now rewrite <- app_assoc.
- destruct todo as [|c s]; [reflexivity|].
  cbn [rewrite_occurrences]. rewrite Eo.
  rewrite IH by (simpl in L; lia). reflexivity.
Qed.

Lemma replace_occurrences (s : list Z) :
  replace true r ncaps template s = rewrite_occurrences occ template 0 [] s.
Proof. unfold replace. apply replace_from_occurrences. lia. Qed.

End Replace.

Lemma attribution_clause_bounds (done todo : list Z) (n : nat) :
  attribution_clause done todo = Some n -> (1 <= n <= List.length todo)%nat.
Proof.
unfold attribution_clause.
destruct (after_word_char done); [discriminate|].
destruct (find _ _) as [w|] eqn:Fd; [|discriminate].
intros E; injection E as <-.
apply find_some_in in Fd as [In_w Hw].
unfold word_here in Hw. apply andb_true_iff in Hw as [P _].
pose proof (proj1 (Forall_forall _ _) ATTRIBUTION_PHRASES_words w In_w) as W.
destruct (@pattern_word_boundary_at w todo W P) as (_ & _ & L).
unfold clause_length.
set (body := run_length _ _).
pose proof (run_length_le (fun c => negb (is_stop c)) (skipn (List.length w) todo)) as B.
fold body in B. rewrite length_skipn in B.
destruct (skipn (List.length w + body) todo) as [|c t] eqn:E; [lia|].
apply (f_equal (@List.length _)) in E. rewrite length_skipn in E. simpl in E.
destruct (is_stop c); lia.
Qed.

Lemma longest_boundary_bounds (s : list Z) (i d n : nat) :
  longest_boundary s i d = Some n -> (i <= n <= i + d)%nat.
Proof.
revert i; induction d as [|d IH]; intros i; cbn [longest_boundary].
- destruct (boundary_at i s); [|discriminate]. intros E; injection E as <-. lia.
- destruct (longest_boundary s (S i) d) eqn:E.
  + intros E'; injection E' as <-. apply IH in E. lia.
  + destruct (boundary_at i s); [|discriminate]. intros E'; injection E' as <-. lia.
Qed.

Lemma vendor_mention_bounds (done todo : list Z) (n : nat) :
  vendor_mention done todo = Some n -> (1 <= n <= List.length todo)%nat.
Proof.
unfold vendor_mention.
destruct (after_word_char done); [discriminate|].
destruct (find _ _) as [w|] eqn:Fd.
- intros E; injection E as <-.
  apply find_some_in in Fd as [In_w Hw].
  unfold word_here in Hw. apply andb_true_iff in Hw as [P _].
  pose proof (proj1 (Forall_forall _ _) VENDOR_NAMES_words w In_w) as W.
  now destruct (@pattern_word_boundary_at w todo W P) as (_ & _ & L).
- destruct (ci_prefix (js "GPT") todo) eqn:G; [|discriminate].
  apply ci_prefix_length in G. change (List.length (js "GPT")) with 3%nat in G.
  unfold gpt_mention.
  pose proof (run_length_le is_digit (skipn 3 todo)) as R3.
  rewrite length_skipn in R3.
  destruct (skipn 3 todo) as [|ch t] eqn:E.
  + intros B. apply longest_boundary_bounds in B. cbn [run_length] in B. lia.
  + pose proof (@skipn_length_le 3 todo _ E G) as Lt. cbn [List.length] in Lt.
    pose proof (run_length_le is_digit t) as R4.
    destruct (is_separator ch).
    * destruct (longest_boundary todo 4 _) eqn:B4.
      -- intros E'; injection E' as <-. apply longest_boundary_bounds in B4. lia.
      -- intros B. apply longest_boundary_bounds in B. lia.
    * intros B. apply longest_boundary_bounds in B. lia.
Qed.

(** [enforceNoProviderLeak] works in two passes, each of which is the
    pattern-free scan of the section on the rewriter in words: every mention
    that [vendor_mention] finds is replaced by the placeholder, then every
    clause that [attribution_clause] finds in the text so obtained is
    removed. *)
Lemma enforceNoProviderLeak_two_passes (text : list Z) :
  Redact.enforceNoProviderLeak text = remove_clauses (replace_mentions text).
Proof.
unfold Redact.enforceNoProviderLeak, remove_clauses, replace_mentions.
destruct text as [|c t]; [reflexivity|].
assert (Forall (fun c => c <> 36) Redact.PLACEHOLDER) as Plain
  by (unfold Redact.PLACEHOLDER; repeat constructor; discriminate).
rewrite (@replace_occurrences Redact.VENDOR vendor_mention 1 Redact.PLACEHOLDER
           match_vendor vendor_mention_bounds Plain).
rewrite (@replace_occurrences Redact.ATTRIBUTION attribution_clause 1 []
           match_attribution attribution_clause_bounds (Forall_nil _)).
reflexivity.
Qed.

(** C9, at the failing input.  In "GPT trained by X." the attribution
    clause "trained by X." follows the model name "GPT".  The pattern for
    names lets "GPT" take the blank after it, so the placeholder is put in
    place of "GPT " and the clause, now glued to the placeholder, no longer
    begins at a word boundary: it stays in the result, where the
    specification has it removed (as it is after "Claude", or when the
    same clause stands alone).  The same happens in any letter case and
    after a hyphen.  Elsewhere names are replaced and clauses removed in
    any letter case, a clause reaching to the next period or line feed, or
    to the end of the text. *)
Theorem C9_clause_after_GPT_is_kept :
  Redact.enforceNoProviderLeak (js "GPT trained by X.")
  = js "this assistanttrained by X."
  /\ Redact.enforceNoProviderLeak (js "I use gpt POWERED BY X. Hi")
     = js "I use this assistantPOWERED BY X. Hi"
  /\ Redact.enforceNoProviderLeak (js "GPT-built by X. Hi")
     = js "this assistantbuilt by X. Hi"
  /\ Redact.enforceNoProviderLeak (js "Claude trained by X.")
     = js "this assistant "
  /\ Redact.enforceNoProviderLeak (js "trained by X.") = []
  /\ Redact.enforceNoProviderLeak (js "GPT") = js "this assistant"
  /\ Redact.enforceNoProviderLeak (js "I use GPT-4 developed by X. Hi")
     = js "I use this assistant  Hi"
  /\ Redact.enforceNoProviderLeak
       (js "Ask cLaUdE or CHATGPT, an openai gpt-4 thing. Built By Acme! Bye. ok")
     = js "Ask this assistant or this assistant, an this assistant this assistant thing.  ok"
  /\ Redact.enforceNoProviderLeak (jsx "Created by X\nnext line")
     = js "next line"
  /\ Redact.enforceNoProviderLeak (js "Anthropic created by X")
     = js "this assistant ".
Proof. repeat split; vm_compute; reflexivity. Qed.
(* ================================================================== *)
(** * The configured origins *)
(* ================================================================== *)

Lemma split_char_cons (c x : Z) (s : list Z) :
  split [c] (x :: s)
  = if c =? x then [] :: split [c] s else add_to_head x (split [c] s).
Proof.
unfold split. cbn [split_from startsWith List.length Nat.sub].
rewrite andb_true_r. reflexivity.
Qed.

Lemma split_char_nil (c : Z) : split [c] [] = [[]].
Proof. reflexivity. Qed.

(** A property holds of every piece exactly when it holds of every code
    unit that is not the separator. *)
Lemma split_char_pieces (c : Z) (Q : Z -> Prop) (s : list Z) :
  Forall (Forall Q) (split [c] s) <-> Forall (fun x => x = c \/ Q x) s.
Proof.
induction s as [|x s IH].
- rewrite split_char_nil. split; repeat constructor.
- rewrite split_char_cons, Forall_cons_iff, <- IH.
  destruct (Z.eqb_spec c x) as [->|N].
  + rewrite Forall_cons_iff. split.
    * intros [_ A]. split; [now left|exact A].
    * intros [_ A]. split; [constructor|exact A].
  + pose proof (split_from_nonempty [c] 0 s) as NE. fold (split [c] s) in NE.
    destruct (split [c] s) as [|p ps]; [congruence|].
    cbn [add_to_head]. rewrite !Forall_cons_iff. split.
    * intros [[Qx Qp] A]. repeat split; auto.
    * intros [[E|Qx] [Qp A]]; [congruence|]. repeat split; auto.
Qed.

Lemma trimStart_spec (s : list Z) :
  exists pre,
    s = pre ++ trimStart s
    /\ forallb is_js_space pre = true
    /\ is_js_space (hd 0 (trimStart s)) = false.
Proof.
induction s as [|c s (pre & E & A & B)].
- exists []. repeat split.
- cbn [trimStart]. destruct (is_js_space c) eqn:Sc.
  + exists (c :: pre). cbn [app forallb]. rewrite Sc, A, <- E. repeat split. exact B.
  + exists []. repeat split. exact Sc.
Qed.

Lemma trimStart_fixed (s : list Z) :
  is_js_space (hd 0 s) = false -> trimStart s = s.
Proof. destruct s as [|c s]; [reflexivity|]. cbn [hd trimStart]. now intros ->. Qed.

Lemma trimStart_spaces (s : list Z) :
  trimStart s = [] <-> forallb is_js_space s = true.
Proof.
induction s as [|c s IH]; [split; reflexivity|].
cbn [trimStart forallb]. destruct (is_js_space c); [exact IH|].
split; discriminate.
Qed.

Lemma hd_rev (s : list Z) : hd 0 (rev s) = last s 0.
Proof.
induction s as [|c s IH] using rev_ind; [reflexivity|].
rewrite rev_app_distr, last_last. reflexivity.
Qed.

Lemma trimEnd_spec (s : list Z) :
  exists suf,
    s = trimEnd s ++ suf
    /\ forallb is_js_space suf = true
    /\ is_js_space (last (trimEnd s) 0) = false.
Proof.
unfold trimEnd. destruct (trimStart_spec (rev s)) as (pre & E & A & B).
exists (rev pre). repeat split.
- rewrite <- rev_app_distr, <- E. now rewrite rev_involutive.
- rewrite forallb_forall in *. intros x Hx. apply A. now apply in_rev.
- now rewrite <- hd_rev, rev_involutive.
Qed.

(** What [trim] keeps of a string, and what it cuts. *)
Lemma trim_spec (s : list Z) :
  exists pre suf,
    s = pre ++ trim s ++ suf
    /\ forallb is_js_space pre = true
    /\ forallb is_js_space suf = true
    /\ is_js_space (hd 0 (trim s)) = false
    /\ is_js_space (last (trim s) 0) = false.
Proof.
unfold trim.
destruct (trimStart_spec s) as (pre & E & A & B).
destruct (trimEnd_spec (trimStart s)) as (suf & E' & A' & B').
exists pre, suf. repeat split; auto.
- now rewrite <- E'.
- destruct (trimEnd (trimStart s)) as [|c t] eqn:T; [reflexivity|].
  rewrite E' in B. exact B.
Qed.

Lemma trim_spaces (s : list Z) :
  trim s = [] <-> forallb is_js_space s = true.
Proof.
destruct (trim_spec s) as (pre & suf & E & A & B & _). split.
- intros T. rewrite T in E. cbn [app] in E.
  rewrite E, forallb_app, A, B. reflexivity.
- intros F. unfold trim.
  apply trimStart_spaces in F. rewrite F. reflexivity.
Qed.

Lemma trim_fixed (s : list Z) :
  is_js_space (hd 0 s) = false -> is_js_space (last s 0) = false ->
  trim s = s.
Proof.
intros A B. unfold trim, trimEnd. rewrite (trimStart_fixed s A).
rewrite trimStart_fixed by now rewrite hd_rev.
apply rev_involutive.
Qed.

Lemma non_empty_spec (s : list Z) : non_empty s = true <-> s <> [].
Proof. destruct s; cbn [non_empty]; split; intros A; congruence. Qed.

(** X1.  Every configured origin is a non-empty string without a comma
    and without white space at either end, whatever the value of the
    [ALLOWED_ORIGINS] variable. *)
Lemma origins_of_plain (value : list Z) : Forall plain_origin (origins_of value).
Proof.
unfold origins_of. apply Forall_forall. intros o Ho.
apply filter_In in Ho as [Ho Ne]. apply in_map_iff in Ho as (p & <- & Hp).
pose proof (proj2 (split_char_pieces COMMA (fun x => x <> COMMA) value)) as Pieces.
assert (Forall (fun x => x = COMMA \/ x <> COMMA) value) as Dec.
{ apply Forall_forall. intros x _. destruct (Z.eq_dec x COMMA); auto. }
specialize (Pieces Dec). rewrite Forall_forall in Pieces. specialize (Pieces p Hp).
destruct (trim_spec p) as (pre & suf & E & _ & _ & Hd & La).
repeat split; auto.
- now apply non_empty_spec.
- intros C. rewrite Forall_forall in Pieces. apply (Pieces COMMA); [|reflexivity].
  rewrite E. apply in_or_app. right. apply in_or_app. now left.
Qed.

(** X1.  Every configured origin is a non-empty string without a comma
    and without white space at either end, whatever the value of the
    [ALLOWED_ORIGINS] variable: blanks, tabs and line breaks around an
    entry are cut, and empty entries are left out. *)
Theorem X1_configured_origins_are_plain `{Platform} :
  (forall value, Forall plain_origin (origins_of value))
  /\ Forall plain_origin ALLOWED_ORIGINS
  /\ origins_of (js " https://a.example ," ++ [9] ++ js "https://b.example"
                 ++ [10] ++ js ",, ")
     = [js "https://a.example"; js "https://b.example"].
Proof.
split; [exact origins_of_plain|]. split; [apply origins_of_plain|].
vm_compute. reflexivity.
Qed.

(** X2.  The list of configured origins is empty exactly when the variable
    holds nothing but commas and white space (or is unset or empty); the
    origin lock then lets every request through untouched. *)
Theorem X2_origin_lock_disabled `{Platform} :
  (forall value,
     origins_of value = []
     <-> Forall (fun c => c = 44 \/ is_js_space c = true) value)
  /\ (ALLOWED_ORIGINS = [] ->
      forall (req : request) (next : M unit), origin_lock req next = next)
  /\ origins_of [] = []
  /\ origins_of (js " , ,, ") = []
  /\ origins_of (js " , x,, ") = [js "x"].
Proof.
split; [|split; [|repeat split]].
- intros value. change 44 with COMMA.
  rewrite <- split_char_pieces. unfold origins_of.
  induction (split [COMMA] value) as [|p ps IH]; [split; constructor|].
  cbn [map filter]. rewrite Forall_cons_iff, <- IH.
  assert (Forall (fun x => is_js_space x = true) p <-> trim p = []) as T.
  { rewrite trim_spaces, forallb_forall, Forall_forall. reflexivity. }
  rewrite T.
  destruct (trim p) as [|c t]; cbn [non_empty].
  + tauto.
  + split; [discriminate|intros [? _]; discriminate].
- intros E req next. unfold origin_lock. now rewrite E.
Qed.

Lemma split_char_piece (c : Z) (l rest : list Z) :
  ~ In c l -> split [c] (l ++ c :: rest) = l :: split [c] rest.
Proof.
induction l as [|x l IH]; intros N.
- cbn [app]. rewrite split_char_cons, Z.eqb_refl. reflexivity.
- cbn [app]. rewrite split_char_cons.
  destruct (Z.eqb_spec c x) as [->|_]; [exfalso; apply N; now left|].
  rewrite IH by (intros X; apply N; now right). reflexivity.
Qed.

Lemma split_char_last (c : Z) (l : list Z) : ~ In c l -> split [c] l = [l].
Proof.
induction l as [|x l IH]; intros N; [reflexivity|].
rewrite split_char_cons.
destruct (Z.eqb_spec c x) as [->|_]; [exfalso; apply N; now left|].
rewrite IH by (intros X; apply N; now right). reflexivity.
Qed.

Lemma split_join_commas (pieces : list (list Z)) :
  pieces <> [] -> Forall (fun p => ~ In 44 p) pieces ->
  split [COMMA] (join_commas pieces) = pieces.
Proof.
induction pieces as [|p more IH]; intros NE F; [congruence|].
inversion F as [|? ? Hp Hmore]; subst.
destruct more as [|q more'].
- cbn [join_commas]. now apply split_char_last.
- change (join_commas (p :: q :: more'))
    with (p ++ COMMA :: join_commas (q :: more')).
  rewrite split_char_piece by exact Hp. f_equal.
  apply IH; [discriminate|assumption].
Qed.

(** X3.  Reading back a list of plain origins written with commas between
    them gives the list itself, in order. *)
Theorem X3_origins_round_trip (origins : list (list Z)) :
  Forall plain_origin origins ->
  origins_of (join_commas origins) = origins.
Proof.
intros P. unfold origins_of.
destruct origins as [|o more]; [reflexivity|].
rewrite split_join_commas; [|discriminate|].
2:{ eapply Forall_impl; [|exact P]. intros a (_ & N & _). exact N. }
induction P as [|a l (Ne & _ & Hd & La) _ IH]; [reflexivity|].
cbn [map filter]. rewrite (trim_fixed a Hd La).
apply non_empty_spec in Ne. rewrite Ne. f_equal. exact IH.
Qed.

Lemma X3_origins_round_trip_witness :
  origins_of (js "https://a.example,https://b.example")
  = [js "https://a.example"; js "https://b.example"].
Proof.
apply (@X3_origins_round_trip [js "https://a.example"; js "https://b.example"]).
repeat constructor; try discriminate; vm_compute; intuition discriminate.
Defined.

(* ================================================================== *)
(** * The chat route, path by path *)
(* ================================================================== *)

Lemma write_all_run (l : list (list Z)) (st : Z) (hs : list (string * list Z))
      (sent : list wire_event) (log : list log_entry)
      (f : list upstream_request) :
  write_all l (mkWorld (mkRes st hs true sent) log f)
  = (Returns tt, mkWorld (mkRes st hs true (sent ++ map WBody l)) log f).
Proof.
revert sent; induction l as [|x l IH]; intros sent; cbn [write_all map].
- now rewrite app_nil_r.
- unfold mbind, write, with_res, emit, send_head. cbn.
  rewrite IH, <- app_assoc. reflexivity.
Qed.

Lemma upstream_phase `{Platform} (process_frame : list Z -> list (list Z))
      (reply : option upstream_response) (rid : list Z) (rq : upstream_request)
      (hs : list (string * list Z)) :
  try_catch (open_stream ;;; call_upstream process_frame reply rid rq)%M
            (on_exception rid) (untouched hs)
  = (Returns tt,
     after_upstream process_frame rid (stream_headers_over hs) reply rq).
Proof.
unfold after_upstream, try_catch, call_upstream.
unfold mbind at 1. 
change (open_stream (untouched hs))
  with (Returns tt,
        mkWorld (mkRes 200 (stream_headers_over hs) true
                   [WHead 200 (stream_headers_over hs)]) [] ([] : list upstream_request)).
cbv beta iota. unfold mbind at 1, fetch.
destruct reply as [u|]; [|reflexivity].
cbn [res console fetched app].
destruct (up_ok u); [|reflexivity].
destruct (up_body u) as [b|]; [|reflexivity].
unfold pipe_to_response, mbind. rewrite write_all_run.
destruct (read_fails b); reflexivity.
Qed.

Lemma try_catch_returns {A B : Type} (a : A) (f : A -> M B)
      (handler : exn -> M B) (w : world) :
  try_catch (mbind (lift (Returns a)) f) handler w = try_catch (f a) handler w.
Proof. reflexivity. Qed.

Lemma try_catch_throws {A B : Type} (e : exn) (f : A -> M B)
      (handler : exn -> M B) (w : world) :
  try_catch (mbind (lift (Throws e)) f) handler w = handler e w.
Proof. reflexivity. Qed.

Lemma Redact_chat_stream_handled `{Platform} (rid : list Z) (body : jsval)
      (reply : option upstream_response) (hs : list (string * list Z)) :
  Redact.chat_stream rid body reply (untouched hs)
  = (Returns tt,
     handled (fun _ => None) Redact.DEFAULT_SYSTEM Redact.process_frame
             rid body reply hs).
Proof.
unfold Redact.chat_stream, handled.
destruct (normalizeMessages (get (body_or_empty body) "messages"))
  as [[normalized|]|e]; try reflexivity.
rewrite try_catch_returns.
destruct (safeString (get (body_or_empty body) "system") 4000) as [s|e].
- rewrite try_catch_returns. apply upstream_phase.
- reflexivity.
Qed.

Lemma Rebrand_chat_stream_handled `{Platform} (rid : list Z) (body : jsval)
      (reply : option upstream_response) (hs : list (string * list Z)) :
  Rebrand.chat_stream rid body reply (untouched hs)
  = (Returns tt,
     handled Rebrand_probe Rebrand.DEFAULT_SYSTEM Rebrand.process_frame
             rid body reply hs).
Proof.
unfold Rebrand.chat_stream, handled, Rebrand_probe.
destruct (normalizeMessages (get (body_or_empty body) "messages"))
  as [[normalized|]|e]; try reflexivity.
rewrite try_catch_returns.
destruct (Rebrand.isIdentityProbe normalized); [reflexivity|].
destruct (safeString (get (body_or_empty body) "system") 4000) as [s|e].
- rewrite try_catch_returns. apply upstream_phase.
- reflexivity.
Qed.

(* ================================================================== *)
(** * The middleware chain *)
(* ================================================================== *)

Lemma includes_spec `{Platform} (origin : list Z) :
  ALLOWED_ORIGINS_includes origin = true <-> In origin ALLOWED_ORIGINS.
Proof.
unfold ALLOWED_ORIGINS_includes. rewrite existsb_exists. split.
- intros (o & Ho & E). apply str_eqb_eq in E. now subst.
- intros Ho. exists origin. split; [exact Ho|]. now apply str_eqb_eq.
Qed.

Lemma through_middleware_run `{Platform} (req : request) (uuid : list Z)
      (route : list Z -> M unit) :
  through_middleware req uuid route fresh_world
  = match ALLOWED_ORIGINS, req_headers_origin req with
    | _ :: _, Some (c :: o) =>
        if ALLOWED_ORIGINS_includes (c :: o) then
          if str_eqb (req_method req) (js "OPTIONS")
          then (Returns tt, answered_204 (c :: o))
          else route (request_id_of req uuid)
                     (untouched (middleware_headers req uuid))
        else (Returns tt, answered_403)
    | _, _ =>
        route (request_id_of req uuid) (untouched (middleware_headers req uuid))
    end.
Proof.
unfold through_middleware, origin_lock, middleware_headers.
destruct ALLOWED_ORIGINS as [|a l]; [reflexivity|].
destruct (req_headers_origin req) as [[|c o]|]; try reflexivity.
destruct (ALLOWED_ORIGINS_includes (c :: o)); [|reflexivity].
destruct (str_eqb (req_method req) (js "OPTIONS")); reflexivity.
Qed.

(** X4.  With an origin lock configured, a request whose [Origin] header
    names an origin that is not in the list is answered 403 with the JSON
    body [{error: "Forbidden"}] by the first middleware: whatever the
    route, it is not run, no request id is attached to the response,
    nothing is logged and no upstream call is made. *)
Theorem X4_foreign_origin_is_refused `{Platform} (req : request)
        (uuid origin : list Z) (route : list Z -> M unit) :
  ALLOWED_ORIGINS <> [] ->
  req_headers_origin req = Some origin -> origin <> [] ->
  ~ In origin ALLOWED_ORIGINS ->
  let headers :=
    [("Content-Type"%string, js "application/json; charset=utf-8")] in
  through_middleware req uuid route fresh_world
  = (Returns tt,
     mkWorld (mkRes 403 headers true
                [WHead 403 headers;
                 WJson (JObj [(js "error", JStr (js "Forbidden"))]);
                 WEnd])
             [] []).
Proof.
intros NE Eo No Ni. cbv zeta. rewrite through_middleware_run, Eo.
destruct ALLOWED_ORIGINS as [|a l] eqn:E; [congruence|].
destruct origin as [|c o]; [congruence|].
destruct (ALLOWED_ORIGINS_includes (c :: o)) eqn:I; [|reflexivity].
apply includes_spec in I. rewrite E in I. contradiction.
Qed.

Lemma X4_foreign_origin_is_refused_witness :
  @through_middleware locked_platform
    (mkRequest (js "POST") (Some (js "https://evil.example")) None hello_body)
    (js "0000")
    (fun rid => @Redact.chat_stream locked_platform rid hello_body None)
    fresh_world
  = (Returns tt, answered_403).
Proof.
apply (@X4_foreign_origin_is_refused locked_platform
         (mkRequest (js "POST") (Some (js "https://evil.example")) None hello_body)
         (js "0000") (js "https://evil.example")).
- vm_compute. discriminate.
- reflexivity.
- discriminate.
- vm_compute. intuition discriminate.
Defined.

Lemma X2_origin_lock_disabled_witness :
  @origin_lock reference_platform
    (mkRequest (js "POST") (Some (js "https://a.example")) None hello_body)
    (end_with (js "next"))
  = end_with (js "next").
Proof.
apply (proj1 (proj2 (@X2_origin_lock_disabled reference_platform))). reflexivity.
Defined.

(* ================================================================== *)
(** * What holds on every path of the chat route *)
(* ================================================================== *)

Lemma header_value_set_header (k k' : string) (v : list Z)
      (hs : list (string * list Z)) :
  header_value k (set_header k' v hs)
  = if String.eqb k' k then Some v else header_value k hs.
Proof.
unfold header_value, set_header.
induction hs as [|[a b] hs IH]; cbn [filter find app fst].
- now destruct (String.eqb k' k).
- destruct (String.eqb_spec a k') as [->|N]; cbn [negb].
  { rewrite IH. now destruct (String.eqb k' k). }
  cbn [app find fst]. destruct (String.eqb_spec a k) as [->|N']; [|exact IH].
  destruct (String.eqb_spec k' k); [congruence|]. reflexivity.
Qed.

Lemma has_header_value (k : string) (hs : list (string * list Z)) :
  has_header k hs = false -> header_value k hs = None.
Proof.
unfold has_header, header_value.
induction hs as [|[a b] hs IH]; [reflexivity|].
cbn [existsb find fst]. destruct (String.eqb a k); [discriminate|exact IH].
Qed.

(** The routes leave the headers of the middleware as they are. *)
Lemma route_headers_kept (k : string) (hs hs' : list (string * list Z)) :
  hs' = hs \/ hs' = json_headers_over hs \/ hs' = stream_headers_over hs ->
  middleware_header k ->
  header_value k hs' = header_value k hs.
Proof.
intros [->|[->| ->]] (A & B & C); [reflexivity| |].
- unfold json_headers_over. destruct (has_header _ hs); [reflexivity|].
  rewrite header_value_set_header.
  destruct (String.eqb_spec "Content-Type" k); [congruence|reflexivity].
- unfold stream_headers_over. rewrite !header_value_set_header.
  destruct (String.eqb_spec "X-Accel-Buffering" k); [congruence|].
  destruct (String.eqb_spec "Cache-Control" k); [congruence|].
  destruct (String.eqb_spec "Content-Type" k); [congruence|reflexivity].
Qed.

Lemma payload_writes (l : list (list Z)) : forallb is_payload (map WBody l) = true.
Proof. induction l as [|x l IH]; [reflexivity|exact IH]. Qed.

Section Handled.

Context `{Platform}.

Variable probe : list message -> option (list Z).
Variable default_system : list Z.
Variable process_frame : list Z -> list (list Z).
Variable rid : list Z.
Variable body : jsval.
Variable reply : option upstream_response.
Variable hs : list (string * list Z).

Lemma after_upstream_response (rq : upstream_request) (hs' : list (string * list Z)) :
  exists payload,
    wire (res (after_upstream process_frame rid hs' reply rq))
    = WHead 200 hs' :: payload ++ [WEnd]
    /\ forallb is_payload payload = true
    /\ headersSent (res (after_upstream process_frame rid hs' reply rq)) = true.
Proof.
unfold after_upstream.
destruct reply as [u|].
- destruct (up_ok u); [destruct (up_body u) as [b|]|].
  + destruct (read_fails b).
    * exists (map WBody (pipe_with process_frame (chunks b))
              ++ [WBody (js "Server error")]).
      cbn [res wire headersSent]. rewrite <- app_assoc. repeat split.
      rewrite forallb_app, payload_writes. reflexivity.
    * exists (map WBody (pipe_with process_frame (chunks b))).
      cbn [res wire headersSent]. repeat split. apply payload_writes.
  + exists [WBody (js "Upstream error")]. repeat split.
  + exists [WBody (js "Upstream error")]. repeat split.
- exists [WBody (js "Server error")]. repeat split.
Qed.

Lemma after_upstream_rid (rq : upstream_request) (hs' : list (string * list Z)) :
  Forall (fun l => log_rid l = rid)
         (console (after_upstream process_frame rid hs' reply rq))
  /\ fetched (after_upstream process_frame rid hs' reply rq) = [rq].
Proof.
unfold after_upstream.
destruct reply as [u|]; [|split; [repeat constructor|reflexivity]].
destruct (up_ok u); [destruct (up_body u) as [b|]; [destruct (read_fails b)|]|];
  (split; [repeat constructor|reflexivity]).
Qed.

(** One head, body data, the end; the head carries 200, 400 or 500 and
    the headers of the middleware under those of the route. *)
Lemma handled_response :
  exists st hs' payload,
    wire (res (handled probe default_system process_frame rid body reply hs))
    = WHead st hs' :: payload ++ [WEnd]
    /\ forallb is_payload payload = true
    /\ (st = 200 \/ st = 400 \/ st = 500)
    /\ (hs' = hs \/ hs' = json_headers_over hs \/ hs' = stream_headers_over hs)
    /\ headersSent (res (handled probe default_system process_frame rid body reply hs))
       = true.
Proof.
unfold handled.
destruct (normalizeMessages (get (body_or_empty body) "messages"))
  as [[normalized|]|e].
- destruct (probe normalized) as [fixed|].
  { exists 200, (stream_headers_over hs), [WBody fixed]. repeat split; auto. }
  destruct (safeString (get (body_or_empty body) "system") 4000) as [s|e].
  + match goal with
    | |- context [after_upstream _ _ _ _ ?rq] =>
        destruct (after_upstream_response rq (stream_headers_over hs))
          as (payload & E & P & S)
    end.
    exists 200, (stream_headers_over hs), payload. repeat split; auto.
  + exists 500, hs, [WBody (js "Server error")]. repeat split; auto.
- exists 400, (json_headers_over hs), [WJson INVALID_MESSAGES]. repeat split; auto.
- exists 500, hs, [WBody (js "Server error")]. repeat split; auto.
Qed.

(** Every log line and every upstream request carries the request id. *)
Lemma handled_rid :
  Forall (fun l => log_rid l = rid)
         (console (handled probe default_system process_frame rid body reply hs))
  /\ Forall (fun rq => x_request_id rq = rid)
            (fetched (handled probe default_system process_frame rid body reply hs))
  /\ (List.length
        (fetched (handled probe default_system process_frame rid body reply hs))
      <= 1)%nat.
Proof.
unfold handled.
destruct (normalizeMessages (get (body_or_empty body) "messages"))
  as [[normalized|]|e].
- destruct (probe normalized) as [fixed|].
  { repeat split; repeat constructor. }
  destruct (safeString (get (body_or_empty body) "system") 4000) as [s|e].
  + match goal with
    | |- context [after_upstream _ _ _ _ ?rq] =>
        destruct (after_upstream_rid rq (stream_headers_over hs)) as (L & ->)
    end.
    split; [exact L|]. split; [repeat constructor|simpl; lia].
  + repeat split; repeat constructor.
- repeat split; repeat constructor.
- repeat split; repeat constructor.
Qed.

End Handled.

Lemma chat_keeps_headers `{Platform} (body : jsval)
      (reply : option upstream_response) :
  keeps_headers (fun rid => Redact.chat_stream rid body reply)
  /\ keeps_headers (fun rid => Rebrand.chat_stream rid body reply).
Proof.
split; intros rid hs;
  [rewrite Redact_chat_stream_handled|rewrite Rebrand_chat_stream_handled];
  cbn [snd];
  match goal with
  | |- context [handled ?p ?d ?f rid body reply hs] =>
      destruct (@handled_response _ p d f rid body reply hs)
        as (st & hs' & payload & E & _ & S & K & _)
  end;
  exists st, hs', (payload ++ [WEnd]); (split; [exact E|]);
  (split; [lia|]); (split; [lia|]);
  intros k Mk; now apply route_headers_kept.
Qed.

Lemma health_keeps_headers : keeps_headers (fun _ => health).
Proof.
intros rid hs. exists 200, (json_headers_over hs), [WJson (JObj [(js "ok", JBool true)]); WEnd].
repeat split; try lia.
intros k Mk. apply route_headers_kept; auto.
Qed.

Lemma cors_echo `{Platform} (req : request) (uuid : list Z)
      (route : list Z -> M unit) :
  keeps_headers route ->
  forall st hs o,
    head_sent (wire (res (snd (through_middleware req uuid route fresh_world))))
    = Some (st, hs) ->
    (header_value "Access-Control-Allow-Origin" hs = Some o
     <-> req_headers_origin req = Some o /\ In o ALLOWED_ORIGINS).
Proof.
intros K st hs o. rewrite through_middleware_run.
assert (middleware_header "Access-Control-Allow-Origin") as Mk
  by (repeat split; discriminate).
pose proof (origins_of_plain (env_or "ALLOWED_ORIGINS" [])) as Plain.
fold ALLOWED_ORIGINS in Plain.
destruct (K (request_id_of req uuid) (middleware_headers req uuid))
  as (st' & hs' & rest & E & _ & _ & Kept).
specialize (Kept _ Mk). unfold middleware_headers in *.
destruct ALLOWED_ORIGINS as [|a l] eqn:EA.
- rewrite E. cbn [head_sent]. intros X; injection X as <- <-.
  rewrite Kept. cbn. split; [discriminate|intros [_ []]].
- destruct (req_headers_origin req) as [[|c o']|] eqn:Eo.
  + rewrite E. cbn [head_sent]. intros X; injection X as <- <-.
    rewrite Kept. cbn. split; [discriminate|].
    intros [X I]. injection X as <-.
    rewrite Forall_forall in Plain. destruct (Plain [] I) as (N & _). congruence.
  + destruct (ALLOWED_ORIGINS_includes (c :: o')) eqn:I.
    * apply includes_spec in I. rewrite EA in I.
      destruct (str_eqb (req_method req) (js "OPTIONS")).
      -- cbn. intros X; injection X as <- <-. cbn.
         split; [intros X; injection X as <-; auto|intros [X _]; exact X].
      -- rewrite E. cbn [head_sent]. intros X; injection X as <- <-.
         rewrite Kept. cbn.
         split; [intros X; injection X as <-; auto|intros [X _]; exact X].
    * cbn. intros X; injection X as <- <-. cbn. split; [discriminate|].
      intros [X J]. injection X as <-.
      change (In (c :: o') (a :: l)) in J. rewrite <- EA in J. apply includes_spec in J. congruence.
  + rewrite E. cbn [head_sent]. intros X; injection X as <- <-.
    rewrite Kept. cbn. split; [discriminate|intros [X _]; discriminate].
Qed.

(** X5.  The response to a request carries the header
    [Access-Control-Allow-Origin: o] exactly when the request's [Origin]
    header is [o] and [o] is one of the configured origins: on every path
    of the chat route, in both variants, and on the health route. *)
Theorem X5_cors_only_for_configured_origins `{Platform} (req : request)
        (uuid : list Z) (reply : option upstream_response)
        (st : Z) (hs : list (string * list Z)) (o : list Z) :
  let sent (run : M unit) := head_sent (wire (res (snd (run fresh_world)))) in
  let echoed :=
    header_value "Access-Control-Allow-Origin" hs = Some o
    <-> req_headers_origin req = Some o /\ In o ALLOWED_ORIGINS in
  (sent (Redact_post_chat_stream req uuid reply) = Some (st, hs) -> echoed)
  /\ (sent (Rebrand_post_chat_stream req uuid reply) = Some (st, hs) -> echoed)
  /\ (sent (through_middleware req uuid (fun _ => health)) = Some (st, hs) -> echoed).
Proof.
cbv zeta. unfold Redact_post_chat_stream, Rebrand_post_chat_stream.
split; [|split]; intros S.
- eapply cors_echo; [|exact S]. apply (proj1 (chat_keeps_headers _ _)).
- eapply cors_echo; [|exact S]. apply (proj2 (chat_keeps_headers _ _)).
- eapply cors_echo; [|exact S]. apply health_keeps_headers.
Qed.

Lemma X5_cors_only_for_configured_origins_witness :
  let req := mkRequest (js "POST") (Some (js "https://a.example")) None hello_body in
  let hs := stream_headers_over
              (CORS_HEADERS (js "https://a.example")
               ++ [("x-request-id"%string, js "0000")]) in
  header_value "Access-Control-Allow-Origin" hs = Some (js "https://a.example")
  <-> req_headers_origin req = Some (js "https://a.example")
      /\ In (js "https://a.example") (@ALLOWED_ORIGINS locked_platform).
Proof.
cbv zeta.
apply (proj1 (@X5_cors_only_for_configured_origins locked_platform
                (mkRequest (js "POST") (Some (js "https://a.example")) None hello_body)
                (js "0000") None 200
                (stream_headers_over
                   (CORS_HEADERS (js "https://a.example")
                    ++ [("x-request-id"%string, js "0000")]))
                (js "https://a.example"))).
vm_compute. reflexivity.
Defined.

(** X6.  The request id is the client's [x-request-id] header when it is
    not empty, else the generated one; on every path of the chat route, in
    both variants, every log line and every upstream request carries it,
    and so does the head of every response the route itself sends. *)
Theorem X6_request_id_is_carried `{Platform} (req : request) (uuid : list Z)
        (reply : option upstream_response) :
  let rid := request_id_of req uuid in
  let carried (w : world) :=
    Forall (fun l => log_rid l = rid) (console w)
    /\ Forall (fun rq => x_request_id rq = rid) (fetched w)
    /\ forall st hs,
         head_sent (wire (res w)) = Some (st, hs) -> st <> 403 -> st <> 204 ->
         header_value "x-request-id" hs = Some rid in
  (forall h, req_headers_x_request_id req = Some h -> h <> [] -> rid = h)
  /\ (req_headers_x_request_id req = None \/ req_headers_x_request_id req = Some []
      -> rid = uuid)
  /\ carried (snd (Redact_post_chat_stream req uuid reply fresh_world))
  /\ carried (snd (Rebrand_post_chat_stream req uuid reply fresh_world)).
Proof.
cbv zeta.
assert (middleware_header "x-request-id") as Mk by (repeat split; discriminate).
assert (forall probe ds pf (route : list Z -> M unit),
          (forall rid hs, route rid (untouched hs)
                          = (Returns tt, handled probe ds pf rid (req_body req) reply hs)) ->
          let w := snd (through_middleware req uuid route fresh_world) in
          Forall (fun l => log_rid l = request_id_of req uuid) (console w)
          /\ Forall (fun rq => x_request_id rq = request_id_of req uuid) (fetched w)
          /\ forall st hs,
               head_sent (wire (res w)) = Some (st, hs) -> st <> 403 -> st <> 204 ->
               header_value "x-request-id" hs = Some (request_id_of req uuid)) as G.
{ intros probe ds pf route R. cbv zeta. rewrite through_middleware_run.
  assert (let w := snd (route (request_id_of req uuid)
                              (untouched (middleware_headers req uuid))) in
          Forall (fun l => log_rid l = request_id_of req uuid) (console w)
          /\ Forall (fun rq => x_request_id rq = request_id_of req uuid) (fetched w)
          /\ forall st hs,
               head_sent (wire (res w)) = Some (st, hs) -> st <> 403 -> st <> 204 ->
               header_value "x-request-id" hs = Some (request_id_of req uuid)) as Route.
  { cbv zeta. rewrite R. cbn [snd].
    destruct (@handled_rid _ probe ds pf (request_id_of req uuid) (req_body req)
                reply (middleware_headers req uuid)) as (L & F & _).
    split; [exact L|]. split; [exact F|].
    destruct (@handled_response _ probe ds pf (request_id_of req uuid) (req_body req)
                reply (middleware_headers req uuid))
      as (st' & hs' & payload & E & _ & _ & K & _).
    intros st hs. rewrite E. cbn [head_sent]. intros X _ _; injection X as <- <-.
    rewrite (@route_headers_kept "x-request-id" _ _ K Mk).
    unfold middleware_headers.
    destruct ALLOWED_ORIGINS; [reflexivity|].
    destruct (req_headers_origin req) as [[|c o]|]; reflexivity. }
  destruct ALLOWED_ORIGINS as [|a l]; [exact Route|].
  destruct (req_headers_origin req) as [[|c o]|]; try exact Route.
  destruct (ALLOWED_ORIGINS_includes (c :: o)).
  - destruct (str_eqb (req_method req) (js "OPTIONS")); [|exact Route].
    cbn. repeat split; try constructor.
    intros st hs X; injection X as <- <-. congruence.
  - cbn. repeat split; try constructor.
    intros st hs X; injection X as <- <-. congruence. }
split; [|split; [|split]].
- intros h E N. unfold request_id_of. rewrite E. destruct h; congruence.
- intros [E|E]; unfold request_id_of; now rewrite E.
- apply (G (fun _ => None) Redact.DEFAULT_SYSTEM Redact.process_frame).
  intros. apply Redact_chat_stream_handled.
- apply (G Rebrand_probe Rebrand.DEFAULT_SYSTEM Rebrand.process_frame).
  intros. apply Rebrand_chat_stream_handled.
Qed.

Lemma X6_request_id_is_carried_witness :
  @request_id_of
    (mkRequest (js "POST") None (Some (js "abc")) hello_body) (js "0000")
  = js "abc".
Proof.
apply (proj1 (@X6_request_id_is_carried reference_platform
                (mkRequest (js "POST") None (Some (js "abc")) hello_body)
                (js "0000") None) (js "abc")).
- reflexivity.
- discriminate.
Defined.

(* ================================================================== *)
(** * The paths through the upstream call *)
(* ================================================================== *)

Lemma handled_reaches_upstream `{Platform} (probe : list message -> option (list Z))
      (ds : list Z) (pf : list Z -> list (list Z)) (rid : list Z) (body : jsval)
      (reply : option upstream_response) (normalized : list message) (s : list Z) :
  normalizeMessages (get (body_or_empty body) "messages") = Returns (Some normalized) ->
  probe normalized = None ->
  safeString (get (body_or_empty body) "system") 4000 = Returns s ->
  exists rq,
    handled probe ds pf rid body reply [] = after_upstream pf rid STREAM_HEADERS reply rq
    /\ req_messages rq = normalized
    /\ req_system rq = match s with [] => ds | _ => s end.
Proof.
intros En Ep Es. unfold handled. rewrite En, Ep, Es.
eexists. split; [reflexivity|]. split; reflexivity.
Qed.



(** X8.  When the upstream call fails after the stream has been opened
    ([fetch] rejects, or a read of the body does), the client has already
    received status 200 and the stream headers: it gets the writes made so
    far followed by the text "Server error", the status 500 of the [catch]
    block is never set, and the failure is logged with the request id.
    This holds in both variants. *)
Theorem X8_failure_after_the_head `{Platform} (rid : list Z) (body : jsval)
        (normalized : list message) (s : list Z)
        (reply : option upstream_response) :
  normalizeMessages (get (body_or_empty body) "messages") = Returns (Some normalized) ->
  safeString (get (body_or_empty body) "system") 4000 = Returns s ->
  interrupted reply ->
  let headers :=
    [("Content-Type"%string, js "text/plain; charset=utf-8");
     ("Cache-Control"%string, js "no-cache, no-transform");
     ("X-Accel-Buffering"%string, js "no")] in
  let cut (writes : list (list Z)) (rq : upstream_request) :=
    (Returns tt,
     mkWorld (mkRes 200 headers true
                (WHead 200 headers
                 :: map WBody writes ++ [WBody (js "Server error"); WEnd]))
             [LogError rid FetchFailed] [rq]) in
  (exists rq,
     Redact.chat_stream rid body reply fresh_world
     = cut (Redact.pipeAnthropicSSEToPlainText (delivered reply)) rq)
  /\ (Rebrand.isIdentityProbe normalized = false ->
      exists rq,
        Rebrand.chat_stream rid body reply fresh_world
        = cut (Rebrand.pipeAnthropicSSEToPlainText (delivered reply)) rq).
Proof.
intros En Es I. cbv zeta.
assert (forall pf rq,
          after_upstream pf rid STREAM_HEADERS reply rq
          = mkWorld (mkRes 200 STREAM_HEADERS true
                       (WHead 200 STREAM_HEADERS
                        :: map WBody (pipe_with pf (delivered reply))
                        ++ [WBody (js "Server error"); WEnd]))
                    [LogError rid FetchFailed] [rq]) as A.
{ intros pf rq. unfold after_upstream, delivered.
  destruct I as [->|(u & b & -> & Ok & Eb & Rf)]; [reflexivity|].
  rewrite Ok, Eb, Rf. reflexivity. }
split; [|intros Ep].
- destruct (@handled_reaches_upstream _ (fun _ => None) Redact.DEFAULT_SYSTEM
              Redact.process_frame rid body reply normalized s En eq_refl Es)
    as (rq & E & _).
  exists rq. change fresh_world with (untouched []).
  rewrite Redact_chat_stream_handled, E, A. reflexivity.
- assert (Rebrand_probe normalized = None) as Ep'
    by (unfold Rebrand_probe; now rewrite Ep).
  destruct (@handled_reaches_upstream _ Rebrand_probe Rebrand.DEFAULT_SYSTEM
              Rebrand.process_frame rid body reply normalized s En Ep' Es)
    as (rq & E & _).
  exists rq. change fresh_world with (untouched []).
  rewrite Rebrand_chat_stream_handled, E, A. reflexivity.
Qed.

Lemma X8_failure_after_the_head_witness :
  exists rq,
    @Redact.chat_stream reference_platform (js "r1") hello_body
      (Some (mkUp 200 (Some (mkBody sample_chunking true)) None)) fresh_world
    = (Returns tt,
       mkWorld (mkRes 200 STREAM_HEADERS true
                  [WHead 200 STREAM_HEADERS;
                   WBody (8364 :: js " Hi");
                   WBody (jsx "\n\n[error] Something went wrong.");
                   WBody (js "Server error");
                   WEnd])
               [LogError (js "r1") FetchFailed] [rq]).
Proof.
assert (@Redact.pipeAnthropicSSEToPlainText reference_platform
          (delivered (Some (mkUp 200 (Some (mkBody sample_chunking true)) None)))
        = [8364 :: js " Hi"; jsx "\n\n[error] Something went wrong."]) as P
  by (vm_compute; reflexivity).
assert (interrupted (Some (mkUp 200 (Some (mkBody sample_chunking true)) None))) as I.
{ right. exists (mkUp 200 (Some (mkBody sample_chunking true)) None),
           (mkBody sample_chunking true).
  repeat split. }
destruct (proj1 (@X8_failure_after_the_head reference_platform (js "r1") hello_body
                   [mkMessage (js "user") [mkBlock (js "text") (js "hello")]] []
                   (Some (mkUp 200 (Some (mkBody sample_chunking true)) None))
                   eq_refl eq_refl I))
  as (rq & E).
exists rq. rewrite E, P. reflexivity.
Defined.

Lemma safeString_length `{Platform} (x : jsval) (max : nat) (s : list Z) :
  safeString x max = Returns s -> (List.length s <= max)%nat.
Proof.
unfold safeString. destruct (ToString (or_empty x)) as [t|e]; cbn [bind];
  [|discriminate].
intros E; injection E as <-.
destruct (Nat.ltb_spec max (List.length t)); [|lia].
unfold slice_to. rewrite length_firstn. lia.
Qed.

Lemma trim_length (s : list Z) : (List.length (trim s) <= List.length s)%nat.
Proof.
destruct (trim_spec s) as (pre & suf & E & _).
rewrite E at 2. rewrite !length_app. lia.
Qed.

Lemma temperature_bounds (body : jsval) :
  exists t : Q, temperature_of body = Fin t /\ (0 <= t <= 1)%Q.
Proof.
unfold temperature_of, DEFAULT_TEMPERATURE.
destruct (get body "temperature") as [| |b|[|neg|q]|s|l|m]; cbn [clampNumber];
  try (exists (3 # 10); split; [reflexivity|lra]).
- destruct neg; [exists 0%Q|exists 1%Q]; (split; [reflexivity|lra]).
- destruct (@clamp_fin q 0 1) as (r & E & B & _); [lra|]. exists r. auto.
Qed.

Lemma max_tokens_bounds (body : jsval) :
  exists k : Z, max_tokens_of body = Fin (inject_Z k) /\ 64 <= k <= 1500.
Proof.
unfold max_tokens_of, DEFAULT_MAX_TOKENS.
destruct (get body "max_tokens") as [| |b|[|neg|q]|s|l|m]; cbn [clampNumber];
  try (exists 800; split; [reflexivity|lia]).
- destruct neg; [exists 64|exists 1500]; (split; [reflexivity|lia]).
- destruct (@clamp_fin q 64 1500) as (r & -> & B & _); [lra|].
  cbn [Math_floor]. exists (Qfloor r). split; [reflexivity|].
  assert (Qfloor 64 <= Qfloor r <= Qfloor 1500) as F
    by (split; apply Qfloor_resp_le; lra).
  exact F.
Qed.

Lemma normalized_bounds `{Platform} (messages : jsval) (l : list message) :
  normalizeMessages messages = Returns (Some l) ->
  l <> []
  /\ Forall (fun m =>
               (role m = js "user" \/ role m = js "assistant")
               /\ exists t, content m = [mkBlock (js "text") t]
                            /\ t <> [] /\ (List.length t <= 12000)%nat) l.
Proof.
intros E. apply normalizeMessages_returns in E as (NE & input & _ & K).
split; [exact NE|].
eapply Forall_impl; [|exact K].
intros m (x & s & _ & _ & R & S & C & T).
split; [exact R|]. exists (trim s). repeat split; auto.
apply safeString_length in S. pose proof (trim_length s). lia.
Qed.

Lemma handled_within_bounds `{Platform} (probe : list message -> option (list Z))
      (ds : list Z) (pf : list Z -> list (list Z)) (rid : list Z) (body : jsval)
      (reply : option upstream_response) (hs : list (string * list Z)) :
  Forall (within_bounds DEFAULT_MODEL ds rid)
         (fetched (handled probe ds pf rid body reply hs)).
Proof.
unfold handled.
destruct (normalizeMessages (get (body_or_empty body) "messages"))
  as [[normalized|]|e] eqn:En; try constructor.
destruct (probe normalized); [constructor|].
destruct (safeString (get (body_or_empty body) "system") 4000) as [s|e] eqn:Es;
  [|constructor].
set (rq := mkReq _ _ _ _ _ _ _).
assert (within_bounds DEFAULT_MODEL ds rid rq) as W.
{ destruct (normalized_bounds _ En) as (NE & Ms).
  unfold within_bounds, rq.
  cbn [x_request_id req_model req_system req_messages req_max_tokens
       req_temperature req_stream].
  split; [reflexivity|]. split.
  { destruct (get (body_or_empty body) "model") as [| |b|n|m|l|o]; auto.
    destruct (ALLOWED_MODELS_has (JStr m)) eqn:A; auto.
    left. cbn [ALLOWED_MODELS_has] in A. apply existsb_exists in A as (a & Ia & Ea).
    apply str_eqb_eq in Ea. subst. exact Ia. }
  split.
  { apply safeString_length in Es. destruct s as [|c s]; [now left|].
    right. split; [discriminate|exact Es]. }
  split; [exact NE|]. split; [exact Ms|].
  split; [apply max_tokens_bounds|]. split; [apply temperature_bounds|reflexivity]. }
destruct (@after_upstream_rid pf rid reply rq (stream_headers_over hs)) as (_ & ->).
constructor; [exact W|constructor].
Qed.

(** X9.  Whatever the request body and whatever the upstream API does, the
    chat route makes at most one upstream request, and that request stays
    within bounds: its model is one of the three allowed models or the
    configured default ([MODEL], else "claude-haiku-4-5"); its system
    prompt is the variant's default or a non-empty text of at most 4,000
    code units; it has at least one message, each with role "user" or
    "assistant" and a non-empty text of at most 12,000 code units;
    [max_tokens] is an integer in [64, 1500]; [temperature] lies in
    [0, 1]; [stream] is set; and it carries the request id. *)
Theorem X9_upstream_request_within_bounds `{Platform} (rid : list Z)
        (body : jsval) (reply : option upstream_response) :
  let or_else (name : string) (fallback : list Z) :=
    match env name with Some (c :: s) => c :: s | _ => fallback end in
  let default_model := or_else "MODEL"%string (js "claude-haiku-4-5") in
  let brand_model := or_else "BRAND_MODEL"%string (js "ClaudeX") in
  let brand_maker := or_else "BRAND_MAKER"%string (js "M Alkindi") in
  let redact_system :=
    js "You are a helpful assistant. Do not mention any underlying model provider. If asked what you are, say you are a custom AI assistant." in
  let rebrand_system :=
    js "You are " ++ brand_model ++ js ", made by " ++ brand_maker ++ js "."
    ++ [10] ++ js "Do not mention any underlying model provider."
    ++ [10] ++ js "If asked what you are, reply exactly: " ++ [34]
    ++ (js "I am " ++ brand_model ++ js ", made by " ++ brand_maker ++ js ".")
    ++ [34] in
  let w1 := snd (Redact.chat_stream rid body reply fresh_world) in
  let w2 := snd (Rebrand.chat_stream rid body reply fresh_world) in
  Forall (within_bounds default_model redact_system rid) (fetched w1)
  /\ (List.length (fetched w1) <= 1)%nat
  /\ Forall (within_bounds default_model rebrand_system rid) (fetched w2)
  /\ (List.length (fetched w2) <= 1)%nat.
Proof.
cbv zeta. change fresh_world with (untouched []).
rewrite Redact_chat_stream_handled, Rebrand_chat_stream_handled. cbn [snd].
split; [exact (handled_within_bounds _ _ _ _ _ _ _)|].
split; [apply handled_rid|].
split; [exact (handled_within_bounds _ _ _ _ _ _ _)|apply handled_rid].
Qed.


(* ================================================================== *)
(** * The pipe: what is dropped and what is written *)
(* ================================================================== *)

Lemma split_no_blank_line (t : list Z) :
  no_blank_line t = true -> split_from [LF; LF] 0 t = [t].
Proof.
induction t as [|c t IH]; intros N; [reflexivity|].
cbn [no_blank_line] in N.
assert (startsWith [LF; LF] (c :: t) = false) as E.
{ cbn [startsWith]. destruct t as [|d t']; [now rewrite andb_false_r|].
  apply andb_true_iff in N as [N _]. apply negb_true_iff in N.
  rewrite (Z.eqb_sym LF c), (Z.eqb_sym LF d). unfold LF.
  destruct (c =? 10), (d =? 10); try reflexivity; discriminate. }
cbn [split_from]. rewrite E, IH; [reflexivity|].
destruct t as [|d t']; [reflexivity|]. now apply andb_true_iff in N as [_ N].
Qed.

Lemma complete_frames_tail (frames : list (list Z)) (tail : list Z) :
  forallb plain_frame frames = true -> no_blank_line tail = true ->
  complete_frames (stream_text frames ++ tail) = frames.
Proof.
unfold complete_frames, split, stream_text.
induction frames as [|f more IH]; cbn [forallb]; intros P N.
- cbn [map List.concat app]. now rewrite split_no_blank_line.
- apply andb_true_iff in P as [Pf Pm].
  cbn [map List.concat]. rewrite <- !app_assoc. cbn [app].
  rewrite split_frame by exact Pf.
  pose proof (split_from_nonempty [LF; LF] 0
                (List.concat (map (fun f => f ++ [LF; LF]) more) ++ tail)) as NE.
  destruct (split_from [LF; LF] 0 _) as [|x xs] eqn:E; [congruence|].
  change (removelast (f :: x :: xs)) with (f :: removelast (x :: xs)).
  now rewrite (IH Pm N).
Qed.

(** X11.  Text after the last blank line of the upstream body is never
    handled: when the decoded body is a sequence of frames, each followed
    by a blank line, and then a tail without a blank line, the writes are
    those of the frames alone, in both variants.  A last event that is not
    followed by a blank line is lost, and a body without any blank line
    causes no write. *)
Theorem X11_unterminated_tail_is_dropped `{Platform} (chunks frames : list (list Z))
        (tail : list Z) :
  snd (decode new_TextDecoder (List.concat chunks)) = stream_text frames ++ tail ->
  forallb plain_frame frames = true ->
  no_blank_line tail = true ->
  Redact.pipeAnthropicSSEToPlainText chunks = flat_map Redact.process_frame frames
  /\ Rebrand.pipeAnthropicSSEToPlainText chunks = flat_map Rebrand.process_frame frames.
Proof.
intros D P N.
unfold Redact.pipeAnthropicSSEToPlainText, Rebrand.pipeAnthropicSSEToPlainText.
rewrite !pipe_with_stream, D, complete_frames_tail by assumption.
split; reflexivity.
Qed.

Lemma X11_unterminated_tail_is_dropped_witness :
  @Redact.pipeAnthropicSSEToPlainText reference_platform
    [line_Hi ++ [LF; LF] ++ line_there ++ [LF]]
  = flat_map (@Redact.process_frame reference_platform) [line_Hi]
  /\ @Rebrand.pipeAnthropicSSEToPlainText reference_platform
       [line_Hi ++ [LF; LF] ++ line_there ++ [LF]]
     = flat_map (@Rebrand.process_frame reference_platform) [line_Hi].
Proof.
apply (@X11_unterminated_tail_is_dropped reference_platform
         [line_Hi ++ [LF; LF] ++ line_there ++ [LF]] [line_Hi]
         (line_there ++ [LF])); vm_compute; reflexivity.
Defined.

Lemma is_string_both (v : jsval) :
  is_string v "content_block_delta" = true -> is_string v "error" = false.
Proof.
destruct v; try discriminate. cbn [is_string].
intros E. apply str_eqb_eq in E. subst. reflexivity.
Qed.

Section Writes.

Context `{Platform}.

Variable rewrite : list Z -> list Z.

(** What a write can be: the fixed sentence for an upstream error, or the
    rewriting of a non-empty text. *)
Let allowed (w : list Z) : Prop :=
  w = ERROR_SENTINEL \/ exists t, t <> [] /\ w = rewrite t.

Lemma handle_payload_writes (payload : jsval) :
  Forall allowed (handle_payload rewrite payload)
  /\ (List.length (handle_payload rewrite payload) <= 1)%nat.
Proof.
unfold handle_payload.
destruct (is_string (get payload "type") "content_block_delta") eqn:T.
- rewrite (is_string_both _ T), app_nil_r.
  destruct (get (get payload "delta") "text") as [| |b|n|[|c s]|l|m];
    cbn [List.length]; split; try constructor; try lia.
  + right. exists (c :: s). split; [discriminate|reflexivity].
  + constructor.
- cbn [app]. destruct (is_string (get payload "type") "error");
    cbn [List.length]; split; try constructor; try lia.
  + now left.
  + constructor.
Qed.

Lemma handle_data_line_writes (dataLine : list Z) :
  Forall allowed (handle_data_line rewrite dataLine)
  /\ (List.length (handle_data_line rewrite dataLine) <= 1)%nat.
Proof.
unfold handle_data_line.
destruct (trim _) as [|c s]; [split; [constructor|simpl; lia]|].
destruct (str_eqb _ _); [split; [constructor|simpl; lia]|].
destruct (JSON_parse _) as [payload|]; [|split; [constructor|simpl; lia]].
apply handle_payload_writes.
Qed.

End Writes.

(** X12.  Nothing of the upstream body reaches the client except through
    the rewriter: every write of the pipe is either the rewriting of a
    non-empty text or the fixed text "[error] Something went wrong." after
    two line feeds, in both variants; a data line causes at most one write,
    and in the redact variant so does a whole frame. *)
Theorem X12_writes_are_rewritten_text_or_the_error_sentence `{Platform}
        (chunks : list (list Z)) :
  let error_text := [10; 10] ++ js "[error] Something went wrong." in
  Forall (fun w => w = error_text
                   \/ exists t, t <> [] /\ w = Redact.enforceNoProviderLeak t)
         (Redact.pipeAnthropicSSEToPlainText chunks)
  /\ Forall (fun w => w = error_text
                      \/ exists t, t <> [] /\ w = Rebrand.enforceBranding t)
            (Rebrand.pipeAnthropicSSEToPlainText chunks)
  /\ (forall (rewrite : list Z -> list Z) (dataLine : list Z),
        (List.length (handle_data_line rewrite dataLine) <= 1)%nat)
  /\ (forall frame, (List.length (Redact.process_frame frame) <= 1)%nat).
Proof.
cbv zeta. change ([10; 10] ++ js "[error] Something went wrong.") with ERROR_SENTINEL.
unfold Redact.pipeAnthropicSSEToPlainText, Rebrand.pipeAnthropicSSEToPlainText.
rewrite !pipe_with_stream.
split; [|split; [|split]].
- apply Forall_flat_map, Forall_forall. intros frame _.
  unfold Redact.process_frame. destruct (find _ _); [|constructor].
  apply handle_data_line_writes.
- apply Forall_flat_map, Forall_forall. intros frame _.
  unfold Rebrand.process_frame.
  apply Forall_flat_map, Forall_forall. intros line _.
  apply handle_data_line_writes.
- intros. apply handle_data_line_writes.
- intros frame. unfold Redact.process_frame.
  destruct (find _ _); [apply handle_data_line_writes|simpl; lia].
Qed.

(* ================================================================== *)
(** * [normalizeMessages]: order and size *)
(* ================================================================== *)

Lemma normalize_loop_app `{Platform} (l1 l2 : list jsval) (out : list message) :
  normalize_loop (l1 ++ l2) out
  = bind (normalize_loop l1 out) (fun o => normalize_loop l2 o).
Proof.
revert out; induction l1 as [|m l1 IH]; intros out; [reflexivity|].
cbn [app normalize_loop].
destruct (falsy m || _); [apply IH|].
destruct (safeString (get m "content") 12000) as [s|e]; cbn [bind]; [|reflexivity].
destruct (trim s); apply IH.
Qed.

Lemma normalize_loop_acc `{Platform} (l : list jsval) (out : list message) :
  normalize_loop l out
  = bind (normalize_loop l []) (fun k => Returns (out ++ k)).
Proof.
revert out; induction l as [|m l IH]; intros out.
- cbn [normalize_loop bind]. now rewrite app_nil_r.
- cbn [normalize_loop].
  destruct (falsy m || _); [apply IH|].
  destruct (safeString (get m "content") 12000) as [s|e]; cbn [bind]; [|reflexivity].
  destruct (trim s) as [|c t]; [apply IH|].
  rewrite IH. rewrite (IH ([] ++ _)).
  destruct (normalize_loop l []) as [k|e]; cbn [bind]; [|reflexivity].
  now rewrite <- app_assoc.
Qed.

Lemma normalizeMessages_kept `{Platform} (l : list jsval) :
  normalizeMessages (JArr l)
  = bind (normalize_loop l [])
         (fun k => Returns (match k with [] => None | _ => Some k end)).
Proof. reflexivity. Qed.

Lemma kept_of_list (k : list message) :
  kept (match k with [] => None | _ => Some k end) = k.
Proof. now destruct k. Qed.

(** X13.  [normalizeMessages] keeps or drops each element on its own, and
    keeps the order: the messages kept of two lists put end to end are the
    messages kept of the first followed by those kept of the second; and
    when the coercion throws on either list, it throws on the whole. *)
Theorem X13_normalizeMessages_of_a_concatenation `{Platform} (l1 l2 : list jsval) :
  (forall r1 r2,
     normalizeMessages (JArr l1) = Returns r1 ->
     normalizeMessages (JArr l2) = Returns r2 ->
     exists r, normalizeMessages (JArr (l1 ++ l2)) = Returns r
               /\ kept r = kept r1 ++ kept r2)
  /\ (forall e, normalizeMessages (JArr l1) = Throws e ->
                normalizeMessages (JArr (l1 ++ l2)) = Throws e)
  /\ (forall r1 e, normalizeMessages (JArr l1) = Returns r1 ->
                   normalizeMessages (JArr l2) = Throws e ->
                   normalizeMessages (JArr (l1 ++ l2)) = Throws e).
Proof.
rewrite !normalizeMessages_kept, normalize_loop_app.
destruct (normalize_loop l1 []) as [k1|e1]; cbn [bind].
- rewrite (@normalize_loop_acc _ l2 k1).
  destruct (normalize_loop l2 []) as [k2|e2]; cbn [bind].
  + split; [|split]; try discriminate.
    intros r1 r2 E1 E2. injection E1 as <-. injection E2 as <-.
    eexists. split; [reflexivity|]. now rewrite !kept_of_list.
  + split; [|split]; try discriminate.
    intros r1 e _ E. exact E.
- split; [|split]; try discriminate.
  intros e E. exact E.
Qed.

Lemma X13_normalizeMessages_of_a_concatenation_witness :
  exists r,
    @normalizeMessages reference_platform
      (JArr ([JObj [(js "role", JStr (js "user")); (js "content", JStr (js "a"))];
              JObj [(js "role", JStr (js "system")); (js "content", JStr (js "b"))]]
             ++ [JObj [(js "role", JStr (js "assistant")); (js "content", JStr (js "c"))]]))
    = Returns r
    /\ kept r
       = kept (Some [mkMessage (js "user") [mkBlock (js "text") (js "a")]])
         ++ kept (Some [mkMessage (js "assistant") [mkBlock (js "text") (js "c")]]).
Proof.
apply (proj1 (@X13_normalizeMessages_of_a_concatenation reference_platform
                [JObj [(js "role", JStr (js "user")); (js "content", JStr (js "a"))];
                 JObj [(js "role", JStr (js "system")); (js "content", JStr (js "b"))]]
                [JObj [(js "role", JStr (js "assistant")); (js "content", JStr (js "c"))]]));
  reflexivity.
Defined.

Lemma normalize_loop_length `{Platform} (l : list jsval) (out r : list message) :
  normalize_loop l out = Returns r ->
  (List.length r <= List.length out + List.length l)%nat.
Proof.
revert out; induction l as [|m l IH]; intros out; cbn [normalize_loop].
- intros E; injection E as <-. simpl. lia.
- destruct (falsy m || _); [intros E; apply IH in E; simpl; lia|].
  destruct (safeString (get m "content") 12000) as [s|e]; cbn [bind]; [|discriminate].
  destruct (trim s); intros E; apply IH in E; rewrite ?length_app in E;
    simpl in *; lia.
Qed.

(** X14.  A list returned by [normalizeMessages] has at most as many
    messages as the input has elements, and each text in it has at most
    12,000 code units and neither begins nor ends with white space. *)
Theorem X14_normalized_size `{Platform} (input : list jsval) (l : list message) :
  normalizeMessages (JArr input) = Returns (Some l) ->
  (List.length l <= List.length input)%nat
  /\ Forall (fun m =>
               exists t, content m = [mkBlock (js "text") t]
                         /\ (List.length t <= 12000)%nat
                         /\ is_js_space (hd 0 t) = false
                         /\ is_js_space (last t 0) = false) l.
Proof.
intros E. split.
- cbn [normalizeMessages] in E.
  destruct (normalize_loop input []) as [out|e] eqn:L; cbn [bind] in E; [|discriminate].
  apply normalize_loop_length in L.
  destruct out; [discriminate|]. injection E as <-. simpl in *. lia.
- apply normalizeMessages_returns in E as (_ & input' & _ & K).
  eapply Forall_impl; [|exact K].
  intros m (x & s & _ & _ & _ & S & C & _).
  exists (trim s). split; [exact C|].
  apply safeString_length in S. pose proof (trim_length s).
  destruct (trim_spec s) as (pre & suf & _ & _ & _ & Hd & La).
  repeat split; auto. lia.
Qed.

Lemma X14_normalized_size_witness :
  (List.length [mkMessage (js "user") [mkBlock (js "text") (js "hello")]]
   <= List.length [JObj [(js "role", JStr (js "user"));
                         (js "content", JStr (js "  hello "))]])%nat
  /\ Forall (fun m =>
               exists t, content m = [mkBlock (js "text") t]
                         /\ (List.length t <= 12000)%nat
                         /\ is_js_space (hd 0 t) = false
                         /\ is_js_space (last t 0) = false)
            [mkMessage (js "user") [mkBlock (js "text") (js "hello")]].
Proof.
apply (@X14_normalized_size reference_platform
         [JObj [(js "role", JStr (js "user")); (js "content", JStr (js "  hello "))]]
         [mkMessage (js "user") [mkBlock (js "text") (js "hello")]]).
reflexivity.
Defined.

(* ================================================================== *)
(** * The identity probe in words *)
(* ================================================================== *)

Lemma ci_prefix_app (u v s : list Z) :
  ci_prefix (u ++ v) s = ci_prefix u s && ci_prefix v (skipn (List.length u) s).
Proof.
revert s; induction u as [|x u IH]; intros s; [reflexivity|].
destruct s as [|y s]; [reflexivity|].
cbn [app ci_prefix List.length skipn]. rewrite IH. now rewrite andb_assoc.
Qed.

Lemma existsb_ext_in {A : Type} (f g : A -> bool) (l : list A) :
  (forall x, In x l -> f x = g x) -> existsb f l = existsb g l.
Proof.
induction l as [|x l IH]; intros E; [reflexivity|].
cbn [existsb]. rewrite (E x) by now left. rewrite IH; [reflexivity|].
intros y Hy. apply E. now right.
Qed.

Lemma existsb_flat_map {A B : Type} (f : B -> bool) (g : A -> list B) (l : list A) :
  existsb f (flat_map g l) = existsb (fun x => existsb f (g x)) l.
Proof.
induction l as [|x l IH]; [reflexivity|].
cbn [flat_map existsb]. now rewrite existsb_app, IH.
Qed.

Lemma existsb_map {A B : Type} (f : B -> bool) (g : A -> B) (l : list A) :
  existsb f (map g l) = existsb (fun x => f (g x)) l.
Proof.
induction l as [|x l IH]; [reflexivity|]. cbn [map existsb]. now rewrite IH.
Qed.

Lemma andb_existsb {A : Type} (b : bool) (f : A -> bool) (l : list A) :
  b && existsb f l = existsb (fun x => b && f x) l.
Proof.
induction l as [|x l IH]; [now rewrite andb_false_r|].
cbn [existsb]. now rewrite andb_orb_distrib_r, IH.
Qed.

Lemma recap_recap (c c' : list (nat * list Z)) (st : mstate) :
  recap c (recap c' st) = recap c st.
Proof. reflexivity. Qed.

(** A pattern made of characters, sequences, alternatives and groups
    matches exactly when one of its words stands at the current index and
    the continuation accepts the index after it. *)
Lemma words_match (r : regex) :
  forall (ws : list (list Z)) (st : mstate) (k : mstate -> option mstate),
    words r = Some ws -> blind k ->
    succeeds (rmatch true r st k)
    = existsb (fun w => ci_prefix w (rest st)
                        && succeeds (k (adv (List.length w) st))) ws.
Proof.
induction r as [|c|neg items|a IHa b IHb|a IHa b IHb|a _|a _| |n a IHa];
  intros ws st k W B; cbn [words] in W; try discriminate.
- injection W as <-. cbn [rmatch existsb ci_prefix List.length adv andb].
  now rewrite orb_false_r.
- injection W as <-. cbn [rmatch existsb ci_prefix List.length adv].
  destruct (rest st) as [|ch s] eqn:E; [reflexivity|].
  rewrite orb_false_r, andb_true_r.
  now destruct (canonicalize true ch =? canonicalize true c).
- destruct (words a) as [x|] eqn:Wa; [|discriminate].
  destruct (words b) as [y|] eqn:Wb; [|discriminate].
  injection W as <-. cbn [rmatch].
  assert (blind (fun st' => rmatch true b st' k)) as Bb.
  { intros c s. rewrite !(IHb y _ k eq_refl B).
    apply existsb_ext_in. intros w _.
    cbn [rest recap]. now rewrite adv_recap, B. }
  rewrite (IHa x st _ eq_refl Bb).
  rewrite existsb_flat_map. apply existsb_ext_in. intros u _.
  rewrite existsb_map, (IHb y _ k eq_refl B), andb_existsb.
  apply existsb_ext_in. intros v _.
  rewrite ci_prefix_app, adv_rest, length_app, adv_add.
  now rewrite andb_assoc.
- destruct (words a) as [x|] eqn:Wa; [|discriminate].
  destruct (words b) as [y|] eqn:Wb; [|discriminate].
  injection W as <-. cbn [rmatch].
  rewrite existsb_app, <- (IHa x st k eq_refl B), <- (IHb y st k eq_refl B).
  now destruct (rmatch true a st k).
- rewrite rmatch_group.
  rewrite (IHa ws st _ W).
  + apply existsb_ext_in. intros w _. now rewrite B.
  + intros c s. now rewrite !B.
Qed.

Lemma PROBE_words :
  Rebrand.PROBE = RSeq RWordB (RSeq PROBE_GROUP RWordB)
  /\ words PROBE_GROUP = Some PROBE_PHRASES.
Proof. split; vm_compute; reflexivity. Qed.

Lemma PROBE_PHRASES_words : Forall pattern_word PROBE_PHRASES.
Proof.
repeat constructor; eexists _, _; cbn; repeat split; reflexivity.
Qed.

Lemma blind_boundary : blind (fun st' => rmatch true RWordB st' Some).
Proof.
intros c st. rewrite !rmatch_wordb.
assert (word_before (recap c st) = word_before st) as -> by reflexivity.
assert (word_after (recap c st) = word_after st) as -> by reflexivity.
now destruct (xorb (word_before st) (word_after st)).
Qed.

(** The probe pattern matches at an index exactly when one of the phrases
    stands there as whole words. *)
Lemma match_probe (done todo : list Z) :
  succeeds (match_here true Rebrand.PROBE done todo) = probe_here done todo.
Proof.
unfold match_here. fold (start_state done todo).
destruct PROBE_words as [-> W].
rewrite rmatch_seq, rmatch_wordb, rmatch_seq.
assert (word_before (start_state done todo) = after_word_char done) as -> by reflexivity.
assert (word_after (start_state done todo) = word_at 0 todo) as ->
  by (unfold word_at, word_after; cbn [start_state rest]; now destruct todo).
unfold probe_here.
assert (succeeds (rmatch true PROBE_GROUP (start_state done todo)
                   (fun st' => rmatch true RWordB st' Some))
        = existsb (fun w => word_here w todo) PROBE_PHRASES) as E.
{ rewrite (words_match _ _ W blind_boundary).
  apply existsb_ext_in. intros w Hw.
  pose proof (proj1 (Forall_forall _ _) PROBE_PHRASES_words w Hw) as Pw.
  unfold word_here. cbn [rest start_state].
  destruct (ci_prefix w todo) eqn:P; [|reflexivity].
  destruct (@pattern_word_boundary_at w todo Pw P) as (Bd & _ & L).
  rewrite rmatch_wordb.
  rewrite word_before_adv, word_after_adv by (cbn [rest start_state]; lia).
  cbn [rest start_state]. fold (boundary_at (List.length w) todo).
  rewrite Bd. cbn [andb]. now destruct (word_at (List.length w) todo). }
destruct (existsb (fun w => word_here w todo) PROBE_PHRASES) eqn:X.
- apply existsb_exists in X as (w & Hw & Hh).
  pose proof (proj1 (Forall_forall _ _) PROBE_PHRASES_words w Hw) as Pw.
  unfold word_here in Hh. apply andb_true_iff in Hh as [P _].
  destruct (@pattern_word_boundary_at w todo Pw P) as (_ & -> & _).
  destruct (after_word_char done); [reflexivity|]. exact E.
- rewrite andb_false_r.
  destruct (xorb (after_word_char done) (word_at 0 todo)); [exact E|reflexivity].
Qed.

Lemma search_probe (done todo : list Z) :
  succeeds (option_map snd (search true Rebrand.PROBE done todo))
  = probe_from done todo.
Proof.
revert done; induction todo as [|c tl IH]; intros done;
  cbn [search probe_from]; rewrite <- match_probe;
  destruct (match_here true Rebrand.PROBE done _); try reflexivity.
apply IH.
Qed.

(** X15.  [isIdentityProbe] answers true exactly when the text of the last
    message contains, in any letter case and as whole words (no letter,
    digit or underscore directly before or after), one of: "who are you",
    "who made you", "who built you", "what model are you", "what llm are
    you", "which model", "are you claude", "are you chatgpt", "are you
    gpt", "anthropic", "openai", "claude", "chatgpt", "gpt".  Only the
    last message counts, and an empty list is no probe. *)
Theorem X15_identity_probe_in_words :
  (forall (earlier : list message) (r ty t : list Z),
     Rebrand.isIdentityProbe (earlier ++ [mkMessage r [mkBlock ty t]])
     = asks_identity t)
  /\ Rebrand.isIdentityProbe [] = false
  /\ (Rebrand.isIdentityProbe [says "Tell me: What MODEL are you?"] = true
      /\ Rebrand.isIdentityProbe [says "Is this GPT-4?"] = true
      /\ Rebrand.isIdentityProbe [says "I like gpts and models"] = false
      /\ Rebrand.isIdentityProbe [says "who are your friends"] = false
      /\ Rebrand.isIdentityProbe [says "who are you"; says "thanks"] = false
      /\ Rebrand.isIdentityProbe [says "thanks"; says "WHO BUILT YOU"] = true).
Proof.
split; [|split; [reflexivity|repeat split; vm_compute; reflexivity]].
intros earlier r ty t.
unfold Rebrand.isIdentityProbe, asks_identity, test.
rewrite last_text_snoc, <- search_probe.
now destruct (search true Rebrand.PROBE [] t).
Qed.

(* ================================================================== *)
(** * The rebrand rewriter in words *)
(* ================================================================== *)

Lemma rmatch_alts_lits (ws : list (list Z)) (st : mstate)
      (k : mstate -> option mstate) :
  ws <> [] ->
  rmatch true (RAlts (map lit ws)) st k
  = first_some (fun w => if ci_prefix w (rest st)
                         then k (adv (List.length w) st) else None) ws.
Proof.
induction ws as [|w ws IH]; intros NE; [congruence|].
destruct ws as [|w' ws'].
- cbn [map RAlts first_some]. unfold lit. rewrite rmatch_lit.
  destruct (ci_prefix w (rest st)); [|reflexivity].
  now destruct (k (adv (List.length w) st)).
- change (RAlts (map lit (w :: w' :: ws')))
    with (RAlt (lit w) (RAlts (map lit (w' :: ws')))).
  cbn [rmatch first_some]. unfold lit at 1. rewrite rmatch_lit, IH by discriminate.
  destruct (ci_prefix w (rest st)); [|reflexivity].
  now destruct (k (adv (List.length w) st)).
Qed.

Section PhraseClause.

Variable phrases : list (list Z).
Hypothesis phrases_words : Forall pattern_word phrases.
Hypothesis phrases_some : phrases <> [].

(** The clause pattern matches exactly the clauses that [clause_of]
    describes. *)
Lemma match_clause (done todo : list Z) :
  option_map pos (match_here true (clause_pattern phrases) done todo)
  = option_map (fun n => pos (adv n (start_state done todo)))
               (clause_of phrases done todo).
Proof.
unfold match_here, clause_pattern. fold (start_state done todo).
set (st0 := start_state done todo).
rewrite rmatch_seq, rmatch_wordb.
rewrite rmatch_seq, rmatch_group, rmatch_alts_lits by exact phrases_some.
match goal with
| |- context [first_some ?f phrases] =>
    rewrite (first_some_ext f
               (fun w => if word_here w todo
                         then Some (clause_end
                                      (recap ((1%nat, consumed_between st0 (adv (List.length w) st0))
                                              :: captures (adv (List.length w) st0))
                                             (adv (List.length w) st0)))
                         else None))
end.
2:{ eapply Forall_impl; [|exact phrases_words].
    intros w W. cbv beta. unfold word_here, st0. cbn [rest start_state].
    destruct (ci_prefix w todo) eqn:P; [|reflexivity].
    fold ATTRIBUTION_TAIL. rewrite attribution_tail.
    destruct (@pattern_word_boundary w done todo
                ((1%nat, consumed_between (start_state done todo)
                           (adv (List.length w) (start_state done todo)))
                 :: captures (adv (List.length w) (start_state done todo))) W P)
      as [-> _].
    reflexivity. }
rewrite first_some_find.
unfold clause_of.
assert (word_before st0 = after_word_char done) as -> by reflexivity.
assert (word_after st0 = word_at 0 todo) as ->
  by (unfold word_at, word_after; cbn [st0 start_state rest]; now destruct todo).
destruct (find (fun w => word_here w todo) phrases) as [w|] eqn:Fd.
- apply find_some_in in Fd as [In_w Hw].
  unfold word_here in Hw. apply andb_true_iff in Hw as [P _].
  pose proof (proj1 (Forall_forall _ _) phrases_words w In_w) as W.
  destruct (@pattern_word_boundary w done todo [] W P) as [_ ->].
  destruct (after_word_char done); [reflexivity|].
  cbn [xorb option_map]. unfold st0. now rewrite pos_clause_end.
- now destruct (xorb _ _), (after_word_char done).
Qed.

Lemma clause_of_bounds (done todo : list Z) (n : nat) :
  clause_of phrases done todo = Some n -> (1 <= n <= List.length todo)%nat.
Proof.
unfold clause_of.
destruct (after_word_char done); [discriminate|].
destruct (find _ _) as [w|] eqn:Fd; [|discriminate].
intros E; injection E as <-.
apply find_some_in in Fd as [In_w Hw].
unfold word_here in Hw. apply andb_true_iff in Hw as [P _].
pose proof (proj1 (Forall_forall _ _) phrases_words w In_w) as W.
destruct (@pattern_word_boundary_at w todo W P) as (_ & _ & L).
unfold clause_length.
set (body := run_length _ _).
pose proof (run_length_le (fun c => negb (is_stop c)) (skipn (List.length w) todo)) as B.
fold body in B. rewrite length_skipn in B.
destruct (skipn (List.length w + body) todo) as [|c t] eqn:E; [lia|].
apply (f_equal (@List.length _)) in E. rewrite length_skipn in E. simpl in E.
destruct (is_stop c); lia.
Qed.

End PhraseClause.

Section Phrase.

Variable w : list Z.
Hypothesis w_word : pattern_word w.

(** The phrase pattern matches exactly where [phrase_here] says. *)
Lemma match_phrase (done todo : list Z) :
  option_map pos (match_here true (phrase_pattern w) done todo)
  = option_map (fun n => pos (adv n (start_state done todo)))
               (phrase_here w done todo).
Proof.
unfold match_here, phrase_pattern. fold (start_state done todo).
rewrite rmatch_seq, rmatch_wordb, rmatch_seq. unfold lit. rewrite rmatch_lit.
assert (word_before (start_state done todo) = after_word_char done) as -> by reflexivity.
assert (word_after (start_state done todo) = word_at 0 todo) as ->
  by (unfold word_at, word_after; cbn [start_state rest]; now destruct todo).
cbn [rest start_state]. unfold phrase_here, word_here.
destruct (ci_prefix w todo) eqn:P.
- destruct (@pattern_word_boundary_at w todo w_word P) as (Bd & -> & L).
  rewrite rmatch_wordb.
  rewrite word_before_adv, word_after_adv by (cbn [rest start_state]; lia).
  cbn [rest start_state]. fold (boundary_at (List.length w) todo). rewrite Bd.
  destruct (after_word_char done); [reflexivity|]. cbn [xorb andb].
  now destruct (word_at (List.length w) todo).
- cbn [andb]. now destruct (xorb _ _), (after_word_char done).
Qed.

Lemma phrase_here_bounds (done todo : list Z) (n : nat) :
  phrase_here w done todo = Some n -> (1 <= n <= List.length todo)%nat.
Proof.
unfold phrase_here. destruct (after_word_char done); [discriminate|].
destruct (word_here w todo) eqn:Hw; [|discriminate].
intros E; injection E as <-.
unfold word_here in Hw. apply andb_true_iff in Hw as [P _].
now destruct (@pattern_word_boundary_at w todo w_word P) as (_ & _ & L).
Qed.

End Phrase.

Lemma BRANDING_PHRASES_words : Forall pattern_word BRANDING_PHRASES.
Proof.
repeat constructor; eexists _, _; cbn; repeat split; reflexivity.
Qed.

Lemma SAFETY_COMPANY_word : pattern_word (js "AI safety company").
Proof. eexists _, _; cbn; repeat split; reflexivity. Qed.

(** X16.  When the brand names hold no dollar sign, [enforceBranding] is
    three scans of the text from left to right, each on the result of the
    one before: every vendor or model name (Claude, Anthropic, OpenAI,
    ChatGPT, GPT with its optional separator and digits; whole words, any
    letter case) becomes the brand's model name; then every clause that
    opens with "trained by", "developed by", "powered by", "built by",
    "created by" or "made by" and runs up to and including the next period
    or line feed becomes "made by <maker>. "; then every "AI safety
    company" becomes "team". *)
Theorem X16_branding_in_words `{Platform} (text : list Z) :
  let brand_model :=
    match env "BRAND_MODEL" with Some (c :: s) => c :: s | _ => js "ClaudeX" end in
  let brand_maker :=
    match env "BRAND_MAKER" with Some (c :: s) => c :: s | _ => js "M Alkindi" end in
  Forall (fun c => c <> 36) brand_model ->
  Forall (fun c => c <> 36) brand_maker ->
  Rebrand.enforceBranding text = rebrand_in_words brand_model brand_maker text.
Proof.
cbv zeta. intros Pm Pk.
unfold Rebrand.enforceBranding, rebrand_in_words.
destruct text as [|c t]; [reflexivity|].
assert (Forall (fun c => c <> 36)
               (js "made by " ++ Rebrand.BRAND_MAKER ++ js ". ")) as Pc.
{ apply Forall_app. split; [repeat constructor; discriminate|].
  apply Forall_app. split; [exact Pk|repeat constructor; discriminate]. }
assert (Forall (fun c => c <> 36) (js "team")) as Pt
  by (repeat constructor; discriminate).
rewrite (@replace_occurrences Rebrand.VENDOR vendor_mention 1 Rebrand.BRAND_MODEL
           match_vendor vendor_mention_bounds Pm).
rewrite (@replace_occurrences Rebrand.ATTRIBUTION (clause_of BRANDING_PHRASES) 1
           (js "made by " ++ Rebrand.BRAND_MAKER ++ js ". ")
           (match_clause BRANDING_PHRASES_words ltac:(discriminate))
           (clause_of_bounds BRANDING_PHRASES_words) Pc).
rewrite (@replace_occurrences Rebrand.SAFETY_COMPANY
           (phrase_here (js "AI safety company")) 0 (js "team")
           (match_phrase SAFETY_COMPANY_word)
           (phrase_here_bounds SAFETY_COMPANY_word) Pt).
reflexivity.
Qed.

Lemma X16_branding_in_words_witness :
  @Rebrand.enforceBranding reference_platform
    (js "I am Claude, trained by Anthropic, an AI safety company. Ask GPT-4 or chatgpt!")
  = js "I am ClaudeX, made by M Alkindi.  Ask ClaudeX or ClaudeX!"
  /\ @Rebrand.enforceBranding reference_platform
       (js "Anthropic is an AI Safety Company that built Claude.")
     = js "ClaudeX is an team that built ClaudeX.".
Proof.
assert (Forall (fun c => c <> 36) (js "ClaudeX")) as Pm
  by (repeat constructor; discriminate).
assert (Forall (fun c => c <> 36) (js "M Alkindi")) as Pk
  by (repeat constructor; discriminate).
split; rewrite (@X16_branding_in_words reference_platform _ Pm Pk);
  vm_compute; reflexivity.
Defined.
(* ================================================================== *)
(** * No vendor or model name survives the redact rewriter *)
(* ================================================================== *)

Lemma word_run_split (s : list Z) :
  s = word_run s ++ skipn (List.length (word_run s)) s.
Proof.
induction s as [|c s IH]; [reflexivity|].
cbn [word_run]. destruct (is_word_char c); [|reflexivity].
cbn [List.length skipn app]. now rewrite <- IH.
Qed.

Lemma word_run_words (s : list Z) : forallb is_word_char (word_run s) = true.
Proof.
induction s as [|c s IH]; [reflexivity|].
cbn [word_run]. destruct (is_word_char c) eqn:E; [|reflexivity].
cbn [forallb]. now rewrite E.
Qed.

Lemma word_run_app (a b : list Z) :
  forallb is_word_char a = true -> word_run (a ++ b) = a ++ word_run b.
Proof.
induction a as [|c a IH]; intros W; [reflexivity|].
cbn [forallb] in W. apply andb_true_iff in W as [Wc Wa].
cbn [app word_run]. now rewrite Wc, IH.
Qed.

Lemma word_run_nil (s : list Z) : word_at 0 s = false <-> word_run s = [].
Proof.
destruct s as [|c s]; [split; reflexivity|].
unfold word_at. cbn [nth_error word_run].
destruct (is_word_char c); split; congruence.
Qed.

Lemma after_word_char_run (before : list Z) :
  after_word_char before = false <-> word_run before = [].
Proof.
destruct before as [|c b]; [split; reflexivity|].
cbn [after_word_char word_run]. destruct (is_word_char c); split; congruence.
Qed.

Lemma word_at_skipn (n : nat) (s : list Z) :
  word_at n s = word_at 0 (skipn n s).
Proof.
revert s; induction n as [|n IH]; intros s; [reflexivity|].
destruct s as [|c s]; [reflexivity|].
cbn [skipn]. rewrite <- IH. reflexivity.
Qed.

Lemma ci_eq_prefix (w tok : list Z) :
  ci_eq w tok = ci_prefix w tok && (List.length tok =? List.length w)%nat.
Proof.
revert tok; induction w as [|x w IH]; intros [|y tok]; try reflexivity.
- cbn [ci_eq ci_prefix List.length]. rewrite IH.
  now rewrite andb_assoc.
Qed.

Lemma ci_prefix_firstn (w s : list Z) :
  ci_prefix w s = true -> ci_eq w (firstn (List.length w) s) = true.
Proof.
revert s; induction w as [|x w IH]; intros s P; [reflexivity|].
destruct s as [|y s]; [discriminate|].
cbn [ci_prefix] in P. apply andb_true_iff in P as [P1 P2].
cbn [List.length firstn ci_eq]. now rewrite P1, IH.
Qed.

Lemma ci_prefix_extend (w a b : list Z) :
  ci_prefix w a = true -> ci_prefix w (a ++ b) = true.
Proof.
revert a; induction w as [|x w IH]; intros a P; [reflexivity|].
destruct a as [|y a]; [discriminate|].
cbn [ci_prefix] in P. apply andb_true_iff in P as [P1 P2].
cbn [app ci_prefix]. now rewrite P1, IH.
Qed.

Lemma ci_prefix_shorten (w a b : list Z) :
  (List.length w <= List.length a)%nat ->
  ci_prefix w (a ++ b) = ci_prefix w a.
Proof.
revert a; induction w as [|x w IH]; intros a L; [reflexivity|].
destruct a as [|y a]; [simpl in L; lia|].
cbn [app ci_prefix]. rewrite IH; [reflexivity|]. simpl in L. lia.
Qed.

(** The characters under a word of a pattern are word characters. *)
Lemma ci_prefix_word_run (w s : list Z) :
  forallb is_word_char w = true -> ci_prefix w s = true ->
  word_run s = firstn (List.length w) s ++ word_run (skipn (List.length w) s).
Proof.
revert s; induction w as [|x w IH]; intros s W P; [reflexivity|].
destruct s as [|y s]; [discriminate|].
cbn [forallb] in W. apply andb_true_iff in W as [Wx Ww].
cbn [ci_prefix] in P. apply andb_true_iff in P as [P1 P2].
apply Z.eqb_eq in P1.
cbn [word_run List.length firstn skipn app].
rewrite (canonical_word _ _ P1 Wx). now rewrite <- IH.
Qed.

Lemma word_here_run (w s : list Z) :
  forallb is_word_char w = true -> word_here w s = true ->
  word_run s = firstn (List.length w) s /\ ci_eq w (word_run s) = true.
Proof.
intros W H. unfold word_here in H. apply andb_true_iff in H as [P N].
apply negb_true_iff in N. rewrite word_at_skipn in N. apply word_run_nil in N.
assert (word_run s = firstn (List.length w) s) as E.
{ rewrite (ci_prefix_word_run _ _ W P), N, app_nil_r. reflexivity. }
split; [exact E|]. rewrite E. now apply ci_prefix_firstn.
Qed.

Lemma run_here_word (w s : list Z) :
  ci_eq w (word_run s) = true -> word_here w s = true.
Proof.
intros E. rewrite ci_eq_prefix in E. apply andb_true_iff in E as [P L].
apply Nat.eqb_eq in L. unfold word_here.
rewrite (word_run_split s).
rewrite (ci_prefix_extend _ _ _ P). cbn [andb].
rewrite word_at_skipn, <- L.
rewrite <- (word_run_split s) at 1.
apply negb_true_iff.
(* the character after the run is no word character *)
clear. induction s as [|c s IH]; [reflexivity|].
cbn [word_run]. destruct (is_word_char c) eqn:E.
- cbn [List.length skipn]. exact IH.
- cbn [List.length skipn]. unfold word_at. cbn [nth_error]. exact E.
Qed.

Lemma longest_boundary_found (s : list Z) (i d j : nat) :
  longest_boundary s i d = Some j -> boundary_at j s = true.
Proof.
revert i; induction d as [|d IH]; intros i; cbn [longest_boundary].
- destruct (boundary_at i s) eqn:B; [|discriminate]. now intros E; injection E as <-.
- destruct (longest_boundary s (S i) d) eqn:E.
  + intros E'; injection E' as <-. eapply IH; eauto.
  + destruct (boundary_at i s) eqn:B; [|discriminate]. now intros E'; injection E' as <-.
Qed.

Lemma longest_boundary_finds (s : list Z) (i d : nat) :
  boundary_at (i + d) s = true -> longest_boundary s i d <> None.
Proof.
revert i; induction d as [|d IH]; intros i B; cbn [longest_boundary].
- rewrite Nat.add_0_r in B. now rewrite B.
- replace (i + S d)%nat with (S i + d)%nat in B by lia.
  specialize (IH _ B). now destruct (longest_boundary s (S i) d).
Qed.

Lemma digit_word (c : Z) : is_digit c = true -> is_word_char c = true.
Proof. unfold is_word_char. intros ->. now rewrite !orb_true_r. Qed.

Lemma separator_no_word (c : Z) : is_separator c = true -> is_word_char c = false.
Proof.
unfold is_separator, is_js_space. intros S.
destruct (is_word_char c) eqn:W; [|reflexivity]. exfalso.
apply is_word_char_spec in W.
rewrite !orb_true_iff, !andb_true_iff, !Z.leb_le, !Z.eqb_eq in S. lia.
Qed.

(** The digits at the head of [t], and what follows them. *)
Lemma digit_run_split (t : list Z) :
  forallb is_digit (firstn (run_length is_digit t) t) = true
  /\ (forall i, (i < run_length is_digit t)%nat -> word_at i t = true)
  /\ (word_at (run_length is_digit t) t = false ->
      word_run t = firstn (run_length is_digit t) t).
Proof.
induction t as [|c t (A & B & C)]; [repeat split; intros; simpl in *; lia|].
cbn [run_length]. destruct (is_digit c) eqn:D.
- cbn [firstn forallb]. rewrite D, A. split; [reflexivity|]. split.
  + intros [|i] L; [unfold word_at; cbn [nth_error]; now apply digit_word|].
    apply (B i). lia.
  + intros N. cbn [word_run]. rewrite (digit_word _ D).
    change (word_at (S (run_length is_digit t)) (c :: t))
      with (word_at (run_length is_digit t) t) in N.
    now rewrite (C N).
- split; [reflexivity|]. split; [intros i L; lia|].
  intros N. apply word_run_nil in N. exact N.
Qed.

Lemma word_at_add (n i : nat) (s : list Z) :
  word_at (n + i) s = word_at i (skipn n s).
Proof.
revert s; induction n as [|n IH]; intros s; [reflexivity|].
destruct s as [|c s]; [now destruct i|].
cbn [Nat.add skipn]. rewrite <- IH. reflexivity.
Qed.

Lemma VENDOR_NAMES_letters :
  Forall (fun w => forallb is_word_char w = true) (js "GPT" :: VENDOR_NAMES).
Proof. repeat constructor. Qed.

Lemma GPT_run (s : list Z) :
  ci_prefix (js "GPT") s = true ->
  word_run s = firstn 3 s ++ word_run (skipn 3 s)
  /\ ci_prefix (js "GPT") (word_run s) = true
  /\ skipn 3 (word_run s) = word_run (skipn 3 s)
  /\ word_at 2 s = true.
Proof.
intros G.
pose proof (ci_prefix_length _ _ G) as L. change (List.length (js "GPT")) with 3%nat in L.
assert (word_run s = firstn 3 s ++ word_run (skipn 3 s)) as E
  by (apply (ci_prefix_word_run (js "GPT")); [reflexivity|exact G]).
assert (List.length (firstn 3 s) = 3%nat) as L3 by (rewrite length_firstn; lia).
repeat split.
- exact E.
- rewrite E. apply ci_prefix_extend.
  pose proof (ci_prefix_firstn _ _ G) as Q. rewrite ci_eq_prefix in Q.
  now apply andb_true_iff in Q as [Q _].
- rewrite E. rewrite skipn_app, L3.
  assert (skipn 3 (firstn 3 s) = []) as -> by (apply skipn_all2; lia).
  reflexivity.
- apply (@ci_prefix_word_at (js "GPT") s 2 84 G); reflexivity.
Qed.

Lemma digits_then_no_word (t : list Z) :
  forallb is_digit (word_run t) = true ->
  word_at (run_length is_digit t) t = false.
Proof.
induction t as [|c t IH]; [reflexivity|].
cbn [word_run run_length]. destruct (is_digit c) eqn:D.
- rewrite (digit_word _ D). cbn [forallb]. rewrite D. cbn [andb]. exact IH.
- unfold word_at. cbn [nth_error].
  destruct (is_word_char c); [|reflexivity].
  cbn [forallb]. now rewrite D.
Qed.

(** Where a mention stands, a word begins, and that word names a vendor
    or a model. *)
Lemma mention_is_vendor_word (before s : list Z) (n : nat) :
  vendor_mention before s = Some n ->
  after_word_char before = false /\ is_vendor_word (word_run s) = true.
Proof.
unfold vendor_mention.
destruct (after_word_char before); [discriminate|].
intros M. split; [reflexivity|]. unfold is_vendor_word.
destruct (find (fun w => word_here w s) VENDOR_NAMES) as [w|] eqn:Fd.
- apply find_some_in in Fd as [In_w Hw].
  assert (forallb is_word_char w = true) as W.
  { pose proof VENDOR_NAMES_letters as F. rewrite Forall_forall in F.
    apply F. now right. }
  destruct (word_here_run _ _ W Hw) as (_ & E).
  apply orb_true_iff. left. apply existsb_exists. exists w. split; [exact In_w|exact E].
- destruct (ci_prefix (js "GPT") s) eqn:G; [|discriminate].
  destruct (GPT_run _ G) as (_ & P & Sk & W2).
  apply orb_true_iff. right. rewrite P, Sk. cbn [andb].
  unfold gpt_mention in M.
  destruct (digit_run_split (skipn 3 s)) as (A & B & C).
  assert (forall j, longest_boundary s 3 (run_length is_digit (skipn 3 s)) = Some j ->
                    forallb is_digit (word_run (skipn 3 s)) = true) as Plain.
  { intros j Lb. pose proof (longest_boundary_found _ _ _ Lb) as Bj.
    apply longest_boundary_bounds in Lb.
    set (d := run_length is_digit (skipn 3 s)) in *.
    assert (forall i, (3 <= i < 3 + d)%nat -> word_at i s = true) as Inside.
    { intros i Hi. replace i with (3 + (i - 3))%nat by lia.
      rewrite word_at_add. apply B. lia. }
    assert (word_at (j - 1) s = true) as Wp.
    { destruct (Nat.eq_dec j 3) as [->|]; [exact W2|]. apply Inside. lia. }
    unfold boundary_at in Bj. rewrite Wp in Bj. cbn [xorb] in Bj.
    apply negb_true_iff in Bj.
    assert (j = 3 + d)%nat as ->.
    { destruct (Nat.eq_dec j (3 + d)); [assumption|].
      rewrite Inside in Bj by lia. discriminate. }
    rewrite word_at_add in Bj. rewrite (C Bj). exact A. }
  destruct (skipn 3 s) as [|ch t'] eqn:T; [reflexivity|].
  destruct (is_separator ch) eqn:S.
  + cbn [word_run]. now rewrite (separator_no_word _ S).
  + eapply Plain; eauto.
Qed.

(** Where a word that names a vendor or a model begins, a mention
    stands. *)
Lemma vendor_word_is_mention (before s : list Z) :
  after_word_char before = false -> is_vendor_word (word_run s) = true ->
  vendor_mention before s <> None.
Proof.
intros A V. unfold vendor_mention. rewrite A.
destruct (find (fun w => word_here w s) VENDOR_NAMES) as [w|] eqn:Fd; [discriminate|].
unfold is_vendor_word in V. apply orb_true_iff in V as [V|V].
- apply existsb_exists in V as (w & In_w & E).
  apply run_here_word in E.
  pose proof (find_none _ _ Fd w In_w) as N. cbv beta in N. congruence.
- apply andb_true_iff in V as [P D].
  assert (ci_prefix (js "GPT") s = true) as G.
  { rewrite (word_run_split s). now apply ci_prefix_extend. }
  rewrite G. destruct (GPT_run _ G) as (_ & _ & Sk & W2).
  rewrite Sk in D. pose proof (digits_then_no_word _ D) as N.
  destruct (digit_run_split (skipn 3 s)) as (_ & B & _).
  set (d := run_length is_digit (skipn 3 s)) in *.
  assert (longest_boundary s 3 d <> None) as Plain.
  { apply longest_boundary_finds. unfold boundary_at.
    rewrite (word_at_add 3 d), N.
    assert (word_at (3 + d - 1) s = true) as ->; [|reflexivity].
    destruct d as [|d']; [exact W2|].
    replace (3 + S d' - 1)%nat with (3 + d')%nat by lia.
    rewrite word_at_add. apply B. lia. }
  unfold gpt_mention. fold d.
  destruct (skipn 3 s) as [|ch t']; [exact Plain|].
  destruct (is_separator ch); [|exact Plain].
  now destruct (longest_boundary s 4 (run_length is_digit t')).
Qed.

Lemma first_word (cur s : list Z) :
  rev cur ++ word_run s <> [] ->
  In (rev cur ++ word_run s) (words_from cur s).
Proof.
revert cur; induction s as [|c s IH]; intros cur NE.
- cbn [word_run words_from] in *. rewrite app_nil_r in *.
  destruct cur; [now destruct NE|]. now left.
- cbn [word_run words_from] in *. destruct (is_word_char c).
  + specialize (IH (c :: cur)). cbn [rev] in IH. rewrite <- app_assoc in IH.
    apply IH. intros E. apply NE. exact E.
  + rewrite app_nil_r in *. apply in_or_app. left.
    destruct cur; [now destruct NE|]. now left.
Qed.

Lemma words_from_step (done : list Z) (c : Z) (tl : list Z) :
  incl (words_from (word_run (c :: done)) tl) (words_from (word_run done) (c :: tl)).
Proof.
cbn [word_run words_from]. destruct (is_word_char c).
- apply incl_refl.
- apply incl_appr, incl_refl.
Qed.

Lemma Forall_incl {A : Type} (P : A -> Prop) (l l' : list A) :
  incl l l' -> Forall P l' -> Forall P l.
Proof.
intros I F. rewrite Forall_forall in *. intros x Hx. apply F, I, Hx.
Qed.

(** A text none of whose words names a vendor or a model has no match of
    the pattern for names. *)
Lemma no_vendor_word_no_match (done todo : list Z) :
  Forall (fun t => is_vendor_word t = false) (words_from (word_run done) todo) ->
  search true Redact.VENDOR done todo = None.
Proof.
revert done; induction todo as [|c tl IH]; intros done F.
- cbn [search].
  pose proof (match_vendor done []) as M.
  destruct (vendor_mention done []) as [n|] eqn:V.
  + destruct (mention_is_vendor_word _ _ V) as (_ & W). discriminate.
  + destruct (match_here true Redact.VENDOR done []); [discriminate|reflexivity].
- cbn [search].
  pose proof (match_vendor done (c :: tl)) as M.
  destruct (vendor_mention done (c :: tl)) as [n|] eqn:V.
  + exfalso. destruct (mention_is_vendor_word _ _ V) as (A & W).
    apply after_word_char_run in A. rewrite A in F.
    assert (word_run (c :: tl) <> []) as NE by (intros E; rewrite E in W; discriminate).
    pose proof (first_word [] (c :: tl)) as I. cbn [rev app] in I.
    specialize (I NE). rewrite Forall_forall in F. specialize (F _ I). congruence.
  + destruct (match_here true Redact.VENDOR done (c :: tl)); [discriminate|].
    apply IH. eapply Forall_incl; [apply words_from_step|exact F].
Qed.

Lemma run_length_stops (p : Z -> bool) (l : list Z) (c : Z) (t : list Z) :
  skipn (run_length p l) l = c :: t -> p c = false.
Proof.
induction l as [|x l IH]; [discriminate|].
cbn [run_length]. destruct (p x) eqn:E.
- cbn [skipn]. exact IH.
- cbn [skipn]. intros X; injection X as <- _. exact E.
Qed.

Lemma firstn_snoc (m : nat) (s : list Z) (c : Z) (t : list Z) :
  skipn m s = c :: t -> firstn (m + 1) s = firstn m s ++ [c].
Proof.
revert s; induction m as [|m IH]; intros s E.
- cbn [skipn] in E. subst. reflexivity.
- destruct s as [|x s]; [discriminate|]. cbn [skipn] in E.
  cbn [Nat.add firstn app]. now rewrite (IH s E).
Qed.

(** A clause begins where a word begins, and ends with a period or a line
    feed, or with the text. *)
Lemma attribution_clause_ends (before s : list Z) (n : nat) :
  attribution_clause before s = Some n ->
  after_word_char before = false
  /\ (skipn n s = []
      \/ exists a c, firstn n s = a ++ [c] /\ is_word_char c = false).
Proof.
intros A. pose proof (attribution_clause_bounds _ _ A) as Bn.
unfold attribution_clause in A.
destruct (after_word_char before); [discriminate|]. split; [reflexivity|].
destruct (find _ _) as [w|]; [|discriminate].
injection A as <-. unfold clause_length in *.
set (body := run_length _ _) in *.
destruct (skipn (List.length w + body) s) as [|c t] eqn:E.
- left. now rewrite Nat.add_0_r.
- assert (is_stop c = true) as St.
  { rewrite Nat.add_comm in E. rewrite <- skipn_skipn in E.
    apply run_length_stops in E. now apply negb_false_iff in E. }
  rewrite St. right. exists (firstn (List.length w + body) s), c.
  split; [now apply (firstn_snoc _ _ E)|].
  unfold is_stop in St. apply orb_true_iff in St as [St|St];
    apply Z.eqb_eq in St; subst; reflexivity.
Qed.

Lemma words_from_app (a : list Z) :
  forall (cur b : list Z) (c : Z),
    is_word_char c = false ->
    words_from cur ((a ++ [c]) ++ b) = words_from cur (a ++ [c]) ++ words_from [] b.
Proof.
induction a as [|x a IH]; intros cur b c N.
- cbn [app words_from]. rewrite N. cbn [words_from]. now rewrite app_nil_r.
- cbn [app words_from]. destruct (is_word_char x).
  + now apply IH.
  + rewrite (IH [] b c N). now rewrite app_assoc.
Qed.

(** Removing clauses adds no word to a text. *)
Lemma remove_keeps_words (m : nat) :
  forall (s before : list Z),
    (List.length s <= m)%nat ->
    incl (words_from (word_run before)
            (rewrite_occurrences attribution_clause [] 0 before s))
         (words_from (word_run before) s).
Proof.
induction m as [|m IH]; intros s before L.
- destruct s; [apply incl_refl|simpl in L; lia].
- destruct s as [|c s']; [apply incl_refl|].
  assert (incl (words_from (word_run before)
                  (c :: rewrite_occurrences attribution_clause [] 0 (c :: before) s'))
               (words_from (word_run before) (c :: s'))) as Emit.
  { cbn [words_from]. specialize (IH s' (c :: before)).
    cbn [word_run] in IH. destruct (is_word_char c).
    - apply IH. simpl in L. lia.
    - apply incl_app; [apply incl_appl, incl_refl|].
      apply incl_appr, IH. simpl in L. lia. }
  cbn [rewrite_occurrences].
  destruct (attribution_clause before (c :: s')) as [[|k]|] eqn:A;
    [exact Emit| |exact Emit].
  pose proof (attribution_clause_bounds _ _ A) as Bn.
  destruct (attribution_clause_ends _ _ A) as (Aw & End).
  apply after_word_char_run in Aw. rewrite Aw. cbn [app].
  rewrite (@rewrite_skip attribution_clause [] k (c :: before) s')
    by (simpl in Bn; lia).
  change (skipn (S k) (c :: s')) with (skipn k s') in End.
  destruct End as [E|(a & x & E & N)].
  + rewrite E. cbn [rewrite_occurrences words_from flush]. apply incl_nil_l.
  + assert (word_run (rev (firstn k s') ++ c :: before) = []) as Wr.
    { change (rev (firstn k s') ++ c :: before)
        with (rev (firstn k s') ++ [c] ++ before).
      rewrite app_assoc.
      change (rev (firstn k s') ++ [c]) with (rev (firstn (S k) (c :: s'))).
      rewrite E, rev_app_distr. cbn [rev app word_run]. now rewrite N. }
    specialize (IH (skipn k s') (rev (firstn k s') ++ c :: before)).
    rewrite Wr in IH.
    eapply incl_tran; [apply IH; rewrite length_skipn; simpl in L; lia|].
    rewrite <- (firstn_skipn (S k) (c :: s')). rewrite E.
    rewrite words_from_app by exact N.
    change (skipn (S k) (c :: s')) with (skipn k s').
    apply incl_appr, incl_refl.
Qed.

Lemma begins_as_not_vendor (cur x : list Z) :
  begins_as cur -> is_vendor_word (rev cur ++ x) = false.
Proof.
unfold begins_as, is_vendor_word.
destruct (rev cur) as [|a [|b r]];
  with_strategy opaque [canonicalize] cbn; intros P; try discriminate P;
  apply andb_true_iff in P as [Ea P]; try discriminate P.
apply andb_true_iff in P as [Eb _].
apply Z.eqb_eq in Ea, Eb. rewrite Ea, Eb. reflexivity.
Qed.

Lemma begins_as_more (cur : list Z) (c : Z) : begins_as cur -> begins_as (c :: cur).
Proof. unfold begins_as. cbn [rev]. apply ci_prefix_extend. Qed.

Lemma placeholder_words (cur rest : list Z) :
  words_from cur (Redact.PLACEHOLDER ++ rest)
  = (rev cur ++ js "this") :: words_from (rev (js "assistant")) rest.
Proof.
unfold Redact.PLACEHOLDER. cbn. rewrite <- !app_assoc. reflexivity.
Qed.

(** Replacing mentions leaves no word that names a vendor or a model. *)
Lemma replace_leaves_no_vendor_word (m : nat) :
  forall (s before cur : list Z),
    (List.length s <= m)%nat -> writing before s cur ->
    Forall (fun t => is_vendor_word t = false)
           (words_from cur
              (rewrite_occurrences vendor_mention Redact.PLACEHOLDER 0 before s)).
Proof.
induction m as [|m IH]; intros s before cur L Wr.
- destruct s; [|simpl in L; lia].
  cbn [rewrite_occurrences words_from]. destruct cur as [|x cur]; [constructor|].
  constructor; [|constructor].
  destruct Wr as [(E & V)|B].
  + rewrite E in *. specialize (V ltac:(rewrite <- E; discriminate)).
    cbn [word_run] in V. now rewrite app_nil_r in V.
  + rewrite <- (app_nil_r (rev (x :: cur))). now apply begins_as_not_vendor.
- destruct s as [|c s'].
  { cbn [rewrite_occurrences words_from]. destruct cur as [|x cur]; [constructor|].
    constructor; [|constructor].
    destruct Wr as [(E & V)|B].
    + rewrite E in *. specialize (V ltac:(rewrite <- E; discriminate)).
      cbn [word_run] in V. now rewrite app_nil_r in V.
    + rewrite <- (app_nil_r (rev (x :: cur))). now apply begins_as_not_vendor. }
  cbn [rewrite_occurrences].
  destruct (vendor_mention before (c :: s')) as [[|k]|] eqn:V.
  + apply vendor_mention_bounds in V. lia.
  + pose proof (vendor_mention_bounds _ _ V) as Bn.
    destruct (mention_is_vendor_word _ _ V) as (Aw & _).
    apply after_word_char_run in Aw.
    rewrite (@rewrite_skip vendor_mention Redact.PLACEHOLDER k (c :: before) s')
      by (simpl in Bn; lia).
    rewrite placeholder_words. constructor.
    * destruct Wr as [(E & _)|B].
      -- rewrite E, Aw. reflexivity.
      -- now apply begins_as_not_vendor.
    * apply IH; [rewrite length_skipn; simpl in L; lia|].
      right. reflexivity.
  + cbn [words_from]. destruct (is_word_char c) eqn:Wc.
    * apply IH; [simpl in L; lia|].
      destruct Wr as [(E & Vw)|B]; [left|right; now apply begins_as_more].
      cbn [word_run]. rewrite Wc. split; [now rewrite E|]. intros _.
      cbn [rev]. rewrite <- app_assoc. cbn [app].
      destruct (word_run before) as [|y wr] eqn:Eb.
      -- cbn [rev app].
         destruct (is_vendor_word (c :: word_run s')) eqn:Vd; [|reflexivity].
         exfalso. apply (@vendor_word_is_mention before (c :: s')).
         ++ now apply after_word_char_run.
         ++ cbn [word_run]. now rewrite Wc.
         ++ exact V.
      -- specialize (Vw ltac:(discriminate)).
         cbn [word_run] in Vw. now rewrite Wc in Vw.
    * apply Forall_app. split.
      -- destruct cur as [|x cur]; [constructor|]. constructor; [|constructor].
         destruct Wr as [(E & Vw)|B].
         ++ rewrite E in *. specialize (Vw ltac:(rewrite <- E; discriminate)).
            cbn [word_run] in Vw. rewrite Wc in Vw. now rewrite app_nil_r in Vw.
         ++ rewrite <- (app_nil_r (rev (x :: cur))). now apply begins_as_not_vendor.
      -- apply IH; [simpl in L; lia|].
         left. cbn [word_run]. rewrite Wc. split; [reflexivity|]. intros X. now destruct X.
Qed.

(** X17.  No vendor or model name survives [enforceNoProviderLeak]: in
    its result no word (maximal run of letters, digits and underscores)
    is Claude, Anthropic, OpenAI, ChatGPT, or GPT followed by digits only,
    in any letter case; so the pattern for names matches nowhere in the
    result.  (Attribution clauses can survive, names cannot.) *)
Theorem X17_no_vendor_name_survives (text : list Z) :
  Forall (fun t => is_vendor_word t = false)
         (words_of (Redact.enforceNoProviderLeak text))
  /\ test true Redact.VENDOR (Redact.enforceNoProviderLeak text) = false
  /\ words_of (Redact.enforceNoProviderLeak (js "Ask GPT-4, gpt trained by X."))
     = [js "Ask"; js "this"; js "assistant"; js "this"; js "assistanttrained";
        js "by"; js "X"]
  /\ is_vendor_word (js "ClaUde") = true
  /\ is_vendor_word (js "gpt4") = true
  /\ is_vendor_word (js "GPT") = true
  /\ is_vendor_word (js "gpts") = false
  /\ is_vendor_word (js "Claudette") = false.
Proof.
assert (Forall (fun t => is_vendor_word t = false)
               (words_of (Redact.enforceNoProviderLeak text))) as F.
{ rewrite enforceNoProviderLeak_two_passes.
  unfold words_of, remove_clauses, replace_mentions.
  eapply Forall_incl.
  - apply (@remove_keeps_words (List.length
             (rewrite_occurrences vendor_mention Redact.PLACEHOLDER 0 [] text))
             _ []). lia.
  - apply (@replace_leaves_no_vendor_word (List.length text) text [] []); [lia|].
    left. split; [reflexivity|]. intros X. now destruct X. }
split; [exact F|]. split.
- unfold test. now rewrite (@no_vendor_word_no_match [] _ F).
- repeat split; vm_compute; reflexivity.
Qed.
